(** * INS/GPS core: GPS time, ephemeris store and temporal synchronizers

  A shallow embedding of the parts of [GPS.h], [INS_GPS2_Tightly.h],
  [INS_GPS_Synchronization.h] and [integral.h] that the specification talks
  about, with the functions around them, and the properties of the
  specification checked against them.

  Conventions of the embedding
  - [float_t] (a C++ [double]) is modelled by the exact rationals [Q];
    numerical equality is [Qeq] ([==]).  Rounding of binary floating point
    is not modelled: every property below is about the arithmetic the code
    writes down, not about its rounding error.
  - [int] and [unsigned int] are 32 bits wide.  Unsigned arithmetic wraps
    modulo [2^32] and is written out with [u32]; a conversion that C++
    leaves undefined (a [double] outside the range of the target integer
    type) is modelled by [None].
  - [std::vector] and [std::list] are lists, front first. *)

From Stdlib Require Import ZArith QArith Qabs Qround List Sorted Bool Lia Lqa.
Import ListNotations.

Local Open Scope Z_scope.
Local Open Scope Q_scope.

(** ** Comparisons and conversions of [float_t] *)

Module Float.

Definition ltb (x y : Q) : bool := negb (Qle_bool y x).
Definition leb (x y : Q) : bool := Qle_bool x y.
Definition gtb (x y : Q) : bool := ltb y x.
Definition geb (x y : Q) : bool := leb y x.

(** [std::floor], as a [float_t] again. *)
Definition floor (x : Q) : Q := inject_Z (Qfloor x).

(** Truncation toward zero: the value of a floating to integer conversion
    when it is in range. *)
Definition trunc (x : Q) : Z := Z.quot (Qnum x) (Zpos (Qden x)).

(** The numbers that are multiples of [2^-20] and at most [2^10] in
    magnitude.  [double] adds up to [2^20] of them without rounding, in
    whatever order: every partial sum is a multiple of [2^-20] below
    [2^31], which the 53 bits of the significand hold. *)
Definition on_grid (x : Q) : bool :=
  let n := x * inject_Z (2 ^ 20) in
  Qeq_bool n (inject_Z (Qfloor n)) && Qle_bool (Qabs x) (inject_Z (2 ^ 10)).

(** The value of the literal [0.1] as a [double]: the binary64 number
    nearest to one tenth, [3602879701896397 / 2^55], which lies slightly
    above it.  A comparison [x > 0.1] of the code is a comparison with this
    number: it is false at [x = 0.1] itself, the value that an elapsed
    time of one update of 0.1 s has. *)
Definition lit_0_1 : Q := 3602879701896397 # 36028797018963968.

End Float.

(** ** 32-bit integers *)

Module Int32.

Definition modulus : Z := 2 ^ 32.
Definition INT_MAX : Z := 2147483647.
Definition INT_MIN : Z := -2147483648.

(** Conversion to [unsigned int]: reduction modulo [2^32]. *)
Definition u32 (z : Z) : Z := (z mod modulus)%Z.

(** [unsigned int * unsigned int]. *)
Definition umul (a b : Z) : Z := u32 (a * b).

Definition in_s32 (z : Z) : bool := ((INT_MIN <=? z) && (z <=? INT_MAX))%Z.

(** [(s32_t)x] for a [double] [x]: truncation toward zero, undefined when
    the truncated value does not fit. *)
Definition s32_of_float (x : Q) : option Z :=
  let z := Float.trunc x in
  if in_s32 z then Some z else None.

(** Storing a 32-bit value into a narrower or unsigned field of [w] bits:
    unsigned fields keep the value modulo [2^w], signed fields the
    representative in [-2^(w-1), 2^(w-1)). *)
Definition to_unsigned (w : Z) (z : Z) : Z := (z mod 2 ^ w)%Z.
Definition to_signed (w : Z) (z : Z) : Z :=
  ((z + 2 ^ (w - 1)) mod 2 ^ w - 2 ^ (w - 1))%Z.

End Int32.

(** ** [GPS_Time] *)

Module GPS_Time.

Record t := mk { week : Z; seconds : Q }.

(** [static const unsigned int seconds_week = (60U * 60 * 24) * 7]. *)
Definition seconds_day : Z := (60 * 60 * 24)%Z.
Definition seconds_week : Z := ((60 * 60 * 24) * 7)%Z.

(** [canonicalize]: [quot] is an [int], [seconds_week] an [unsigned int],
    so the product [seconds_week * quot] is computed in [unsigned int]. *)
Definition canonicalize (x : t) : t :=
  let quot := Qfloor (seconds x / inject_Z seconds_week) in
  {| week := (week x + quot)%Z;
     seconds := seconds x
                - inject_Z (Int32.umul seconds_week (Int32.u32 quot)) |}.

(** [operator+=(sec)] and [operator-=(sec)]. *)
Definition add_assign (x : t) (sec : Q) : t :=
  canonicalize {| week := week x; seconds := seconds x + sec |}.
Definition sub_assign (x : t) (sec : Q) : t := add_assign x (- sec).

(** [operator+(sec)] and [operator-(sec)] work on a copy. *)
Definition plus (x : t) (sec : Q) : t := add_assign x sec.
Definition minus (x : t) (sec : Q) : t := plus x (- sec).

(** [operator-(const GPS_Time &)]: the interval in seconds. *)
Definition diff (x y : t) : Q :=
  (seconds x - seconds y)
  + (inject_Z (week x) - inject_Z (week y)) * inject_Z seconds_week.

(** [serialize]. *)
Definition serialize (x : t) : Q :=
  seconds x + inject_Z seconds_week * inject_Z (week x).

(** [interval(t_week, t_seconds)]: positive when the argument is later. *)
Definition interval (x : t) (t_week : Z) (t_seconds : Q) : Q :=
  t_seconds - seconds x
  + (inject_Z t_week - inject_Z (week x)) * inject_Z seconds_week.

(** The data-model invariant on the seconds field. *)
Definition in_week (x : t) : Prop :=
  0 <= seconds x /\ seconds x < inject_Z seconds_week.

(** [operator<], [operator>], [operator==], [operator!=], [operator<=] and
    [operator>=]: the week decides, then the seconds. *)
Definition lt (x y : t) : bool :=
  if (week x <? week y)%Z then true
  else if (week x >? week y)%Z then false
  else Float.ltb (seconds x) (seconds y).
Definition gt (x y : t) : bool := lt y x.
Definition eqb (x y : t) : bool :=
  (week x =? week y)%Z && Qeq_bool (seconds x) (seconds y).
Definition neqb (x y : t) : bool := negb (eqb x y).
Definition le (x y : t) : bool :=
  if (week x <? week y)%Z then true
  else if (week x >? week y)%Z then false
  else Float.leb (seconds x) (seconds y).
Definition ge (x y : t) : bool := le y x.

(** [is_leap_year]; [%] is the remainder of the truncating division. *)
Definition is_leap_year (year : Z) : bool :=
  (Z.rem year 400 =? 0)%Z
  || ((Z.rem year 4 =? 0)%Z && negb (Z.rem year 100 =? 0)%Z).

Record leap_year_prop_res_t := mk_leap_year_prop_res {
  extra_days : Z;
  is_leap_year_res : bool
}.

(** [leap_year_prop(this_year, skip_init_leap_year_check)]. *)
Definition leap_year_prop (this_year : Z) (skip_init_leap_year_check : bool)
  : leap_year_prop_res_t :=
  let leap0 := skip_init_leap_year_check || (Z.rem this_year 4 =? 0)%Z in
  let y_400_quot := (Z.quot this_year 400 - 5)%Z in
  let y_400_rem := Z.rem this_year 400 in
  if (y_400_quot <? 0)%Z
  then {| extra_days := 0; is_leap_year_res := leap0 |} (* year < 2000 *)
  else
    let extra := (y_400_quot * 3)%Z in
    if (y_400_rem =? 0)%Z
    then {| extra_days := extra; is_leap_year_res := leap0 |}
    else
      let y_100_quot := Z.quot y_400_rem 100 in
      let y_100_rem := Z.rem y_400_rem 100 in
      let extra := (extra + y_100_quot)%Z in
      if (y_100_rem =? 0)%Z
      then {| extra_days := (extra - 1)%Z; is_leap_year_res := false |}
      else {| extra_days := extra; is_leap_year_res := leap0 |}.

Definition days_of_month : list Z :=
  [31; 28; 31; 30; 31; 30; 31; 31; 30; 31; 30; 31]%Z.

(** The fields of [struct tm] that the conversions read or write. *)
Record tm := mk_tm {
  tm_sec : Z;
  tm_min : Z;
  tm_hour : Z;
  tm_mday : Z;
  tm_mon : Z;
  tm_year : Z;
  tm_wday : Z;
  tm_yday : Z;
  tm_isdst : Z
}.

(** The loop [for(int i(0); i < t.tm_mon; i++)] of the constructor: the
    days of the months before [tm_mon], February with its leap day. *)
Fixpoint days_before_month (months : list Z) (i : Z) (n : nat)
    (leap_year : bool) (days : Z) : Z :=
  match n, months with
  | S n', m :: rest =>
      let days := (days + m)%Z in
      let days := if (i =? 1)%Z && leap_year then (days + 1)%Z else days in
      days_before_month rest (i + 1)%Z n' leap_year days
  | _, _ => days
  end.

(** The day count of the constructor [GPS_Time(const struct tm &,
    leap_seconds)]: days since 1980-01-06. *)
Definition days_of_tm (x : tm) : Z :=
  let days := (-6)%Z in
  let y := (tm_year x + 1900)%Z in
  let prop := leap_year_prop y false in
  let days := (days - extra_days prop)%Z in
  let leap_year := is_leap_year_res prop in
  let y := (y - 1980)%Z in
  let days := (days + (y * 365 + Z.quot (y + 3) 4))%Z in
  let days :=
    days_before_month days_of_month 0 (Z.to_nat (tm_mon x)) leap_year days in
  (days + tm_mday x)%Z.

(** [GPS_Time(const struct tm &t, const float_t &leap_seconds)]; the
    product [week_day.rem * seconds_day] is computed in [unsigned int]. *)
Definition of_tm (x : tm) (leap_seconds : Q) : t :=
  let days := days_of_tm x in
  canonicalize
    {| week := Z.quot days 7;
       seconds :=
         leap_seconds
         + inject_Z (Int32.umul (Int32.u32 (Z.rem days 7)) seconds_day)
         + inject_Z (tm_hour x * 60 * 60)
         + inject_Z (tm_min x * 60)
         + inject_Z (tm_sec x) |}.

(** The loop over [doy[]] of [c_tm]: the years left of a four-year block. *)
Fixpoint skip_years (doy : list Z) (mday y : Z) : Z * Z :=
  match doy with
  | [] => (mday, y)
  | d :: rest =>
      if (mday <=? d)%Z then (mday, y)
      else skip_years rest (mday - d)%Z (y + 1)%Z
  end.

(** The loop over the months of [c_tm]; [None] when the loop would read
    past the end of [days_of_month]. *)
Fixpoint skip_months (months : list Z) (mon mday : Z) (leap_year : bool)
  : option (Z * Z) :=
  match months with
  | [] => None
  | m :: rest =>
      if (mday >? m)%Z
      then
        if (mon =? 1)%Z && leap_year
        then
          if (mday =? 29)%Z then Some (mon, mday)
          else skip_months rest (mon + 1)%Z (mday - 1 - m)%Z leap_year
        else skip_months rest (mon + 1)%Z (mday - m)%Z leap_year
      else Some (mon, mday)
  end.

(** The calendar part of [c_tm]: from [t.tm_mday], the number of the day
    counted from 1980-01-01 as day 1, to the year, [tm_mon], [tm_mday] and
    [tm_yday]. *)
Definition calendar_of_day (mday : Z) : option (Z * Z * Z * Z) :=
  let block := Z.quot mday (366 + 365 * 3) in
  let mday := Z.rem mday (366 + 365 * 3) in
  let y := (block * 4 + 1980)%Z in
  let prop := leap_year_prop y true in
  let mday := (mday + extra_days prop)%Z in
  let leap_year := is_leap_year_res prop in
  let '(mday, y) :=
    skip_years [if leap_year then 366 else 365; 365; 365; 365]%Z mday y in
  let leap_year := is_leap_year y in
  match skip_months days_of_month 0 mday leap_year with
  | None => None
  | Some (mon, mday') => Some (y, mon, mday', mday)
  end.

(** The integer part of [c_tm], on the week and the truncated seconds. *)
Definition tm_of_week_seconds (w s : Z) : option tm :=
  let sec := Z.rem s 60 in
  let min_q := Z.quot s 60 in
  let min := Z.rem min_q 60 in
  let hr_q := Z.quot min_q 60 in
  let hour := Z.rem hr_q 24 in
  let wday := Z.quot hr_q 24 in
  match calendar_of_day (wday + (6 + w * 7))%Z with
  | None => None
  | Some (y, mon, mday, yday) =>
      Some {| tm_sec := sec; tm_min := min; tm_hour := hour;
              tm_mday := mday; tm_mon := mon; tm_year := (y - 1900)%Z;
              tm_wday := wday; tm_yday := yday; tm_isdst := 0 |}
  end.

(** [c_tm(leap_seconds)]. *)
Definition c_tm (x : t) (leap_seconds : Q) : option tm :=
  let mod_t := plus x leap_seconds in
  tm_of_week_seconds (week mod_t) (Float.trunc (seconds mod_t)).

(** The number of days of a month ([tm_mon] from 0) of a year. *)
Definition days_in_month (year mon : Z) : Z :=
  if (mon =? 1)%Z && is_leap_year year then 29%Z
  else nth (Z.to_nat mon) days_of_month 0%Z.

(** The years divisible by 4 that are not leap years. *)
Definition skipped_leap_year (year : Z) : bool :=
  (Z.rem year 4 =? 0)%Z && negb (is_leap_year year).

(** The integers [a], [a + 1], ..., [a + n - 1]. *)
Definition zrange (a : Z) (n : nat) : list Z :=
  map (fun k => (a + Z.of_nat k)%Z) (seq 0 n).

(** A calendar date as the [struct tm] of its midnight. *)
Definition tm_of_date (year mon mday : Z) : tm :=
  {| tm_sec := 0; tm_min := 0; tm_hour := 0;
     tm_mday := mday; tm_mon := mon; tm_year := (year - 1900)%Z;
     tm_wday := 0; tm_yday := 0; tm_isdst := 0 |}.

(** The last day of a four-year block that began with 1980, before the
    first skipped leap year. *)
Definition block_end (year mon mday : Z) : bool :=
  (year <? 2100)%Z && (Z.rem year 4 =? 3)%Z && (mon =? 11)%Z
  && (mday =? 31)%Z.

(** The dates from 1980-01-06 to 2199-12-31. *)
Definition date_in_scope (year mon mday : Z) : bool :=
  (1980 <=? year)%Z && (year <=? 2199)%Z
  && (0 <=? mon)%Z && (mon <=? 11)%Z
  && (1 <=? mday)%Z && (mday <=? days_in_month year mon)%Z
  && negb ((year =? 1980)%Z && (mon =? 0)%Z && (mday <? 6)%Z).

(** The day count of a date and what the calendar part of [c_tm] makes of
    it: the same date again, or day 0 of the next January at the end of a
    block. *)
Definition date_round_trip (year mon mday : Z) : bool :=
  let days := days_of_tm (tm_of_date year mon mday) in
  (0 <=? days)%Z
  && match calendar_of_day (days + 6)%Z with
     | Some (y, m, d, _) =>
         if block_end year mon mday
         then (y =? year + 1)%Z && (m =? 0)%Z && (d =? 0)%Z
         else (y =? year)%Z && (m =? mon)%Z && (d =? mday)%Z
     | None => false
     end.

(** The check of [date_round_trip], passed by the dates out of scope. *)
Definition date_checked (year mon mday : Z) : bool :=
  negb (date_in_scope year mon mday) || date_round_trip year mon mday.

End GPS_Time.

(** ** Ephemeris records ([GPS_SpaceNode::SatelliteProperties::Ephemeris]) *)

Module Ephemeris.

Record t := mk {
  svid : Z;
  (* Subframe 1 *)
  WN : Z;
  URA : Z;
  SV_health : Z;
  iodc : Z;
  t_GD : Q;
  t_oc : Q;
  a_f2 : Q;
  a_f1 : Q;
  a_f0 : Q;
  (* Subframe 2 *)
  iode : Z;
  c_rs : Q;
  delta_n : Q;
  M0 : Q;
  c_uc : Q;
  e : Q;
  c_us : Q;
  sqrt_A : Q;
  t_oe : Q;
  fit_interval : Q;
  (* Subframe 3 *)
  c_ic : Q;
  Omega0 : Q;
  c_is : Q;
  i0 : Q;
  c_rc : Q;
  omega : Q;
  dot_Omega0 : Q;
  dot_i0 : Q
}.

Definition period_from_time_of_clock (eph : t) (tm : GPS_Time.t) : Q :=
  - GPS_Time.interval tm (WN eph) (t_oc eph).

Definition period_from_time_of_ephemeris (eph : t) (tm : GPS_Time.t) : Q :=
  - GPS_Time.interval tm (WN eph) (t_oe eph).

Definition period_from_first_valid_transmittion (eph : t) (tm : GPS_Time.t) : Q :=
  period_from_time_of_clock eph tm + (fit_interval eph / 2).

(** [is_valid]: [std::abs(period_from_time_of_clock(t)) <= (fit_interval / 2)]. *)
Definition is_valid (eph : t) (tm : GPS_Time.t) : bool :=
  Float.leb (Qabs (period_from_time_of_clock eph tm)) (fit_interval eph / 2).

Definition maybe_better_one_avilable (eph : t) (tm : GPS_Time.t) : bool :=
  let delta_t := period_from_first_valid_transmittion eph tm in
  let transmittion_interval :=
    if Float.gtb (fit_interval eph) (4 * 60 * 60)
    then fit_interval eph / 2
    else 1 * 60 * 60 in
  negb (Float.geb delta_t 0 && Float.ltb delta_t transmittion_interval).

(** [base_time]: [gps_time_t(WN, t_oc)]. *)
Definition base_time (eph : t) : GPS_Time.t :=
  GPS_Time.mk (WN eph) (t_oc eph).

(** The table [URA_limits[]], in meters. *)
Definition URA_limits : list Q :=
  [24 # 10; 34 # 10; 485 # 100; 685 # 100; 965 # 100; 1365 # 100;
   24; 48; 96; 192; 384; 768; 1536; 3072; 6144].

Definition URA_MAX_INDEX : Z := Z.of_nat (length URA_limits).

(** [URA_meter(index)]. *)
Definition URA_meter (index : Z) : Q :=
  if (index <? 0)%Z then - (1)
  else if (index <? URA_MAX_INDEX)%Z
       then nth (Z.to_nat index) URA_limits 0
       else nth (Z.to_nat (URA_MAX_INDEX - 1)) URA_limits 0 * 2.

(** The loop [for(int i(0); i < URA_MAX_INDEX; ++i)] of [URA_index], on
    the limits from index [i] on. *)
Fixpoint URA_index_loop (limits : list Q) (i : Z) (meter : Q) : Z :=
  match limits with
  | [] => URA_MAX_INDEX
  | l :: rest =>
      if Float.leb meter l then i else URA_index_loop rest (i + 1)%Z meter
  end.

(** [URA_index(meter)]. *)
Definition URA_index (meter : Q) : Z :=
  if Float.ltb meter 0 then (-1)%Z
  else URA_index_loop URA_limits 0 meter.

(** *** Kepler's equation

    [sin], [std::sqrt] and [WGS84::mu_Earth] come from [<cmath>] and
    [WGS84.h]; the iteration is stated over whatever they are. *)

Definition KEPLER_DELTA_LIMIT : Q := 1 # 1000000000000.

Definition pow3 (x : Q) : Q := x * x * x.

Section Kepler.

Variable sin : Q -> Q.
Variable sqrt : Q -> Q.
Variable mu_Earth : Q.

(** The mean anomaly [Mk] at [period_from_toe]. *)
Definition mean_anomaly (eph : t) (period_from_toe : Q) : Q :=
  let n0 := sqrt mu_Earth / pow3 (sqrt_A eph) in
  M0 eph + (n0 + delta_n eph) * period_from_toe.

(** One evaluation of the right-hand side, [Mk + e * sin(Ek)]. *)
Definition kepler_step (eph : t) (Mk Ek : Q) : Q := Mk + e eph * sin Ek.

(** The loop [for(int loop(0); loop < 10; loop++)]: [n] is the number of
    iterations that are left, the result is the value of [Ek] at exit. *)
Fixpoint kepler_loop (eph : t) (Mk : Q) (n : nat) (Ek : Q) : Q :=
  match n with
  | O => Ek
  | S n' =>
      let Ek2 := kepler_step eph Mk Ek in
      if Float.ltb (Qabs (Ek2 - Ek)) KEPLER_DELTA_LIMIT
      then Ek
      else kepler_loop eph Mk n' Ek2
  end.

Definition eccentric_anomaly (eph : t) (period_from_toe : Q) : Q :=
  let Mk := mean_anomaly eph period_from_toe in
  kepler_loop eph Mk 10 Mk.

End Kepler.

End Ephemeris.

(** ** The broadcast form of an ephemeris ([Ephemeris::raw_t]) *)

Module raw_t.

Record t := mk {
  svid : Z;               (* u8_t *)
  WN : Z;                 (* u16_t *)
  URA : Z;                (* u8_t *)
  SV_health : Z;          (* u8_t *)
  iodc : Z;               (* u16_t *)
  t_GD : Z;               (* s8_t *)
  t_oc : Z;               (* u16_t *)
  a_f2 : Z;               (* s8_t *)
  a_f1 : Z;               (* s16_t *)
  a_f0 : Z;               (* s32_t *)
  iode : Z;               (* u8_t *)
  c_rs : Z;               (* s16_t *)
  delta_n : Z;            (* s16_t *)
  M0 : Z;                 (* s32_t *)
  c_uc : Z;               (* s16_t *)
  e : Z;                  (* u32_t *)
  c_us : Z;               (* s16_t *)
  sqrt_A : Z;             (* u32_t *)
  t_oe : Z;               (* u16_t *)
  fit_interval_flag : bool;
  c_ic : Z;               (* s16_t *)
  Omega0 : Z;             (* s32_t *)
  c_is : Z;               (* s16_t *)
  i0 : Z;                 (* s32_t *)
  c_rc : Z;               (* s16_t *)
  omega : Z;              (* s32_t *)
  dot_Omega0 : Z;         (* s32_t *)
  dot_i0 : Z              (* s16_t *)
}.

(** [fit_interval(_flag, _iodc)], IS-GPS-200 20.3.4.4. *)
Definition fit_interval (_flag : bool) (_iodc : Z) : Q :=
  if negb _flag then 4 * 60 * 60
  else if ((240 <=? _iodc) && (_iodc <=? 247))%Z then 8 * 60 * 60
  else if (((248 <=? _iodc) && (_iodc <=? 255)) || (_iodc =? 496))%Z then 14 * 60 * 60
  else if ((497 <=? _iodc) && (_iodc <=? 503))%Z then 26 * 60 * 60
  else if ((504 <=? _iodc) && (_iodc <=? 510))%Z then 50 * 60 * 60
  else if ((_iodc =? 511) || ((752 <=? _iodc) && (_iodc <=? 756)))%Z then 74 * 60 * 60
  else if ((757 <=? _iodc) && (_iodc <=? 763))%Z then 98 * 60 * 60
  else if (((764 <=? _iodc) && (_iodc <=? 767))
           || ((1008 <=? _iodc) && (_iodc <=? 1010)))%Z then 122 * 60 * 60
  else if ((1011 <=? _iodc) && (_iodc <=? 1020))%Z then 146 * 60 * 60
  else 6 * 60 * 60.

(** The macro [POWER_2(n)], with its two-step division for exponents
    below [-30]. *)
Definition POWER_2 (n : Z) : Q :=
  if (n >=? 0)%Z
  then inject_Z (Z.shiftl 1 (if (n >=? 0)%Z then n else 0))
  else (1 / inject_Z (Z.shiftl 1 (if (- n >=? 30)%Z then 30
                                  else - (if (n >? 0)%Z then 0 else n))))
       / inject_Z (Z.shiftl 1 (if (- n >=? 30)%Z then - n - 30 else 0)).

Definition GPS_SC2RAD : Q := 31415926535898 # 10000000000000.

(** The indices [SF_*] of the scale-factor table. *)
Inductive sf_index :=
| SF_t_GD | SF_t_oc | SF_a_f0 | SF_a_f1 | SF_a_f2
| SF_c_rs | SF_delta_n | SF_M0 | SF_c_uc | SF_e | SF_c_us | SF_sqrt_A | SF_t_oe
| SF_c_ic | SF_Omega0 | SF_c_is | SF_i0 | SF_c_rc | SF_omega
| SF_dot_Omega0 | SF_dot_i0.

(** The table [Ephemeris::raw_t::sf[]]. *)
Definition sf (i : sf_index) : Q :=
  match i with
  | SF_t_GD => POWER_2 (-31)
  | SF_t_oc => POWER_2 4
  | SF_a_f0 => POWER_2 (-31)
  | SF_a_f1 => POWER_2 (-43)
  | SF_a_f2 => POWER_2 (-55)
  | SF_c_rs => POWER_2 (-5)
  | SF_delta_n => GPS_SC2RAD * POWER_2 (-43)
  | SF_M0 => GPS_SC2RAD * POWER_2 (-31)
  | SF_c_uc => POWER_2 (-29)
  | SF_e => POWER_2 (-33)
  | SF_c_us => POWER_2 (-29)
  | SF_sqrt_A => POWER_2 (-19)
  | SF_t_oe => POWER_2 4
  | SF_c_ic => POWER_2 (-29)
  | SF_Omega0 => GPS_SC2RAD * POWER_2 (-31)
  | SF_c_is => POWER_2 (-29)
  | SF_i0 => GPS_SC2RAD * POWER_2 (-31)
  | SF_c_rc => POWER_2 (-5)
  | SF_omega => GPS_SC2RAD * POWER_2 (-31)
  | SF_dot_Omega0 => GPS_SC2RAD * POWER_2 (-43)
  | SF_dot_i0 => GPS_SC2RAD * POWER_2 (-43)
  end.

(** [CONVERT] of [operator Ephemeris()]: [sf[SF_x] * x]. *)
Definition to_float (i : sf_index) (raw : Z) : Q := sf i * inject_Z raw.

(** [operator Ephemeris() const]. *)
Definition to_Ephemeris (r : t) : Ephemeris.t :=
  {| Ephemeris.svid := svid r;
     Ephemeris.WN := WN r;
     Ephemeris.URA := URA r;
     Ephemeris.SV_health := SV_health r;
     Ephemeris.iodc := iodc r;
     Ephemeris.t_GD := to_float SF_t_GD (t_GD r);
     Ephemeris.t_oc := to_float SF_t_oc (t_oc r);
     Ephemeris.a_f2 := to_float SF_a_f2 (a_f2 r);
     Ephemeris.a_f1 := to_float SF_a_f1 (a_f1 r);
     Ephemeris.a_f0 := to_float SF_a_f0 (a_f0 r);
     Ephemeris.iode := iode r;
     Ephemeris.c_rs := to_float SF_c_rs (c_rs r);
     Ephemeris.delta_n := to_float SF_delta_n (delta_n r);
     Ephemeris.M0 := to_float SF_M0 (M0 r);
     Ephemeris.c_uc := to_float SF_c_uc (c_uc r);
     Ephemeris.e := to_float SF_e (e r);
     Ephemeris.c_us := to_float SF_c_us (c_us r);
     Ephemeris.sqrt_A := to_float SF_sqrt_A (sqrt_A r);
     Ephemeris.t_oe := to_float SF_t_oe (t_oe r);
     Ephemeris.fit_interval := fit_interval (fit_interval_flag r) (iodc r);
     Ephemeris.c_ic := to_float SF_c_ic (c_ic r);
     Ephemeris.Omega0 := to_float SF_Omega0 (Omega0 r);
     Ephemeris.c_is := to_float SF_c_is (c_is r);
     Ephemeris.i0 := to_float SF_i0 (i0 r);
     Ephemeris.c_rc := to_float SF_c_rc (c_rc r);
     Ephemeris.omega := to_float SF_omega (omega r);
     Ephemeris.dot_Omega0 := to_float SF_dot_Omega0 (dot_Omega0 r);
     Ephemeris.dot_i0 := to_float SF_dot_i0 (dot_i0 r) |}.

(** [CONVERT] of [operator=]: [(s32_t)((x + 0.5 * sf[SF_x]) / sf[SF_x])],
    undefined when the quotient is outside [s32_t]. *)
Definition of_float (i : sf_index) (x : Q) : option Z :=
  Int32.s32_of_float ((x + (1 # 2) * sf i) / sf i).

(** The integer types of the fields that [CONVERT] assigns. *)
Inductive field_type := U8 | S8 | U16 | S16 | U32 | S32.

Definition store (ty : field_type) (z : Z) : Z :=
  match ty with
  | U8 => Int32.to_unsigned 8 z
  | S8 => Int32.to_signed 8 z
  | U16 => Int32.to_unsigned 16 z
  | S16 => Int32.to_signed 16 z
  | U32 => Int32.to_unsigned 32 z
  | S32 => Int32.to_signed 32 z
  end.

Definition field_type_of (i : sf_index) : field_type :=
  match i with
  | SF_t_GD | SF_a_f2 => S8
  | SF_t_oc | SF_t_oe => U16
  | SF_e | SF_sqrt_A => U32
  | SF_a_f0 | SF_M0 | SF_Omega0 | SF_i0 | SF_omega | SF_dot_Omega0 => S32
  | SF_a_f1 | SF_c_rs | SF_delta_n | SF_c_uc | SF_c_us
  | SF_c_ic | SF_c_is | SF_c_rc | SF_dot_i0 => S16
  end.

(** One field assignment of [operator=]: the cast, then the store into the
    field's own type. *)
Definition convert (i : sf_index) (x : Q) : option Z :=
  option_map (store (field_type_of i)) (of_float i x).

Definition bind {A B : Type} (o : option A) (k : A -> option B) : option B :=
  match o with
  | Some a => k a
  | None => None
  end.

Notation "x <- o ;; k" := (bind o (fun x => k))
  (at level 61, o at next level, right associativity).

(** [raw_t &operator=(const Ephemeris &eph)]; every field is overwritten, so
    the result does not depend on the previous contents. *)
Definition of_Ephemeris (eph : Ephemeris.t) : option t :=
  v_t_GD <- convert SF_t_GD (Ephemeris.t_GD eph) ;;
  v_t_oc <- convert SF_t_oc (Ephemeris.t_oc eph) ;;
  v_a_f0 <- convert SF_a_f0 (Ephemeris.a_f0 eph) ;;
  v_a_f1 <- convert SF_a_f1 (Ephemeris.a_f1 eph) ;;
  v_a_f2 <- convert SF_a_f2 (Ephemeris.a_f2 eph) ;;
  v_c_rs <- convert SF_c_rs (Ephemeris.c_rs eph) ;;
  v_delta_n <- convert SF_delta_n (Ephemeris.delta_n eph) ;;
  v_M0 <- convert SF_M0 (Ephemeris.M0 eph) ;;
  v_c_uc <- convert SF_c_uc (Ephemeris.c_uc eph) ;;
  v_e <- convert SF_e (Ephemeris.e eph) ;;
  v_c_us <- convert SF_c_us (Ephemeris.c_us eph) ;;
  v_sqrt_A <- convert SF_sqrt_A (Ephemeris.sqrt_A eph) ;;
  v_t_oe <- convert SF_t_oe (Ephemeris.t_oe eph) ;;
  v_c_ic <- convert SF_c_ic (Ephemeris.c_ic eph) ;;
  v_Omega0 <- convert SF_Omega0 (Ephemeris.Omega0 eph) ;;
  v_c_is <- convert SF_c_is (Ephemeris.c_is eph) ;;
  v_i0 <- convert SF_i0 (Ephemeris.i0 eph) ;;
  v_c_rc <- convert SF_c_rc (Ephemeris.c_rc eph) ;;
  v_omega <- convert SF_omega (Ephemeris.omega eph) ;;
  v_dot_Omega0 <- convert SF_dot_Omega0 (Ephemeris.dot_Omega0 eph) ;;
  v_dot_i0 <- convert SF_dot_i0 (Ephemeris.dot_i0 eph) ;;
  Some {| svid := store U8 (Ephemeris.svid eph);
          WN := store U16 (Ephemeris.WN eph);
          URA := store U8 (Ephemeris.URA eph);
          SV_health := store U8 (Ephemeris.SV_health eph);
          iodc := store U16 (Ephemeris.iodc eph);
          t_GD := v_t_GD; t_oc := v_t_oc;
          a_f2 := v_a_f2; a_f1 := v_a_f1; a_f0 := v_a_f0;
          iode := store U8 (Ephemeris.iode eph);
          c_rs := v_c_rs; delta_n := v_delta_n; M0 := v_M0; c_uc := v_c_uc;
          e := v_e; c_us := v_c_us; sqrt_A := v_sqrt_A; t_oe := v_t_oe;
          fit_interval_flag :=
            Float.gtb (Ephemeris.fit_interval eph) (5 * 60 * 60);
          c_ic := v_c_ic; Omega0 := v_Omega0; c_is := v_c_is; i0 := v_i0;
          c_rc := v_c_rc; omega := v_omega;
          dot_Omega0 := v_dot_Omega0; dot_i0 := v_dot_i0 |}.

(** The value of one scaled field of a record, for stating properties field
    by field. *)
Definition get (i : sf_index) (r : t) : Z :=
  match i with
  | SF_t_GD => t_GD r | SF_t_oc => t_oc r
  | SF_a_f0 => a_f0 r | SF_a_f1 => a_f1 r | SF_a_f2 => a_f2 r
  | SF_c_rs => c_rs r | SF_delta_n => delta_n r | SF_M0 => M0 r
  | SF_c_uc => c_uc r | SF_e => e r | SF_c_us => c_us r
  | SF_sqrt_A => sqrt_A r | SF_t_oe => t_oe r
  | SF_c_ic => c_ic r | SF_Omega0 => Omega0 r | SF_c_is => c_is r
  | SF_i0 => i0 r | SF_c_rc => c_rc r | SF_omega => omega r
  | SF_dot_Omega0 => dot_Omega0 r | SF_dot_i0 => dot_i0 r
  end.

(** The values a field of the given type can hold. *)
Definition in_range (ty : field_type) (z : Z) : Prop :=
  match ty with
  | U8 => (0 <= z < 2 ^ 8)%Z
  | S8 => (- 2 ^ 7 <= z < 2 ^ 7)%Z
  | U16 => (0 <= z < 2 ^ 16)%Z
  | S16 => (- 2 ^ 15 <= z < 2 ^ 15)%Z
  | U32 => (0 <= z < 2 ^ 32)%Z
  | S32 => (- 2 ^ 31 <= z < 2 ^ 31)%Z
  end.

(** The fields that the conversions copy without scaling hold values of
    their types. *)
Definition header_in_range (r : t) : Prop :=
  in_range U8 (svid r) /\ in_range U16 (WN r) /\ in_range U8 (URA r)
  /\ in_range U8 (SV_health r) /\ in_range U16 (iodc r)
  /\ in_range U8 (iode r).

(** The value of one scaled field of an ephemeris. *)
Definition get_float (i : sf_index) (eph : Ephemeris.t) : Q :=
  match i with
  | SF_t_GD => Ephemeris.t_GD eph | SF_t_oc => Ephemeris.t_oc eph
  | SF_a_f0 => Ephemeris.a_f0 eph | SF_a_f1 => Ephemeris.a_f1 eph
  | SF_a_f2 => Ephemeris.a_f2 eph
  | SF_c_rs => Ephemeris.c_rs eph | SF_delta_n => Ephemeris.delta_n eph
  | SF_M0 => Ephemeris.M0 eph | SF_c_uc => Ephemeris.c_uc eph
  | SF_e => Ephemeris.e eph | SF_c_us => Ephemeris.c_us eph
  | SF_sqrt_A => Ephemeris.sqrt_A eph | SF_t_oe => Ephemeris.t_oe eph
  | SF_c_ic => Ephemeris.c_ic eph | SF_Omega0 => Ephemeris.Omega0 eph
  | SF_c_is => Ephemeris.c_is eph | SF_i0 => Ephemeris.i0 eph
  | SF_c_rc => Ephemeris.c_rc eph | SF_omega => Ephemeris.omega eph
  | SF_dot_Omega0 => Ephemeris.dot_Omega0 eph
  | SF_dot_i0 => Ephemeris.dot_i0 eph
  end.

(** The scaled fields whose entry of [sf] carries the factor [GPS_SC2RAD],
    the angles that are broadcast in semicircles.  These scale factors are
    not powers of two, so the products [sf[SF_x] * x] of two neighbouring
    integers are rounded in [double] and need not lie exactly one unit
    apart, as the products with a power of two do. *)
Definition in_semicircles (i : sf_index) : bool :=
  match i with
  | SF_delta_n | SF_M0 | SF_Omega0 | SF_i0 | SF_omega
  | SF_dot_Omega0 | SF_dot_i0 => true
  | _ => false
  end.

(** [CHECK] of [Ephemeris::is_equivalent]: the loop is left when
    [std::abs(TARGET - eph.TARGET) > raw_t::sf[raw_t::SF_TARGET]]. *)
Definition CHECK (i : sf_index) (a b : Ephemeris.t) : bool :=
  negb (Float.gtb (Qabs (get_float i a - get_float i b)) (sf i)).

(** [Ephemeris::is_equivalent(eph)], which reads the table [raw_t::sf]. *)
Definition is_equivalent (a b : Ephemeris.t) : bool :=
  (Ephemeris.WN a =? Ephemeris.WN b)%Z
  && (Ephemeris.URA a =? Ephemeris.URA b)%Z
  && (Ephemeris.SV_health a =? Ephemeris.SV_health b)%Z
  && CHECK SF_t_GD a b && CHECK SF_t_oc a b && CHECK SF_a_f2 a b
  && CHECK SF_a_f1 a b && CHECK SF_a_f0 a b
  && CHECK SF_c_rs a b && CHECK SF_delta_n a b && CHECK SF_M0 a b
  && CHECK SF_c_uc a b && CHECK SF_e a b && CHECK SF_c_us a b
  && CHECK SF_sqrt_A a b && CHECK SF_t_oe a b
  && CHECK SF_c_ic a b && CHECK SF_Omega0 a b && CHECK SF_c_is a b
  && CHECK SF_i0 a b && CHECK SF_c_rc a b && CHECK SF_omega a b
  && CHECK SF_dot_Omega0 a b && CHECK SF_dot_i0 a b.

End raw_t.

(** ** [PropertyHistory]: the per-satellite history of records *)

Module PropertyHistory.

(** [calc_t_tag(const float_t &t)] with [TimeQuantization = 10]. *)
Definition TimeQuantization : Z := 10.

Definition calc_t_tag_float (x : Q) : Z :=
  let res := Qfloor ((x + (1 # 2) * inject_Z TimeQuantization)
                     / inject_Z TimeQuantization) in
  if (res >=? Int32.INT_MAX)%Z then Int32.INT_MAX
  else if (res <=? Int32.INT_MIN)%Z then Int32.INT_MIN
  else res.

Definition calc_t_tag_time (tm : GPS_Time.t) : Z :=
  calc_t_tag_float (GPS_Time.serialize tm).

Section History.

(** The template parameter [PropertyT] and the member it must provide. *)
Variable PropertyT : Type.
Variable base_time : PropertyT -> GPS_Time.t.

(** [item_t]: a record with its priority and time tag. *)
Record item_t := mk_item {
  prop : PropertyT;
  priority : Z;
  t_tag : Z
}.

Definition calc_t_tag (p : PropertyT) : Z := calc_t_tag_time (base_time p).

(** [item_t(const PropertyT &prop, const int &priority_init)]. *)
Definition item_of (p : PropertyT) (priority_init : Z) : item_t :=
  {| prop := p; priority := priority_init; t_tag := calc_t_tag p |}.

Record t := mk {
  history : list item_t;
  selected_index : nat
}.

(** [current()]: [history[selected_index]]. *)
Definition current (h : t) : option PropertyT :=
  option_map prop (nth_error (history h) (selected_index h)).

(** The variables of the loop in [select]. *)
Record cursor := mk_cursor {
  changed : bool;
  cur_t_tag : Z;
  cur_delta_t : Q;
  cur_index : nat
}.

Section Select.

Variable target_time : GPS_Time.t.
Variable is_valid : PropertyT -> GPS_Time.t -> bool.
(** [get_delta_t] may be [NULL]; then the time tags give the distance. *)
Variable get_delta_t : option (PropertyT -> GPS_Time.t -> Q).

Definition delta_of (it : item_t) : Q :=
  match get_delta_t with
  | Some f => f (prop it) target_time
  | None => inject_Z (calc_t_tag_time target_time - t_tag it)
  end.

(** [delta_t2] of an item: its [delta_t], multiplied by [-1] when it is
    negative. *)
Definition abs_delta (it : item_t) : Q :=
  let delta_t2 := delta_of it in
  if Float.ltb delta_t2 0 then delta_t2 * (-1) else delta_t2.

(** The body of [for( ; it != it_last; ++it)] for the item [it] at
    position [idx]. *)
Definition select_step (idx : nat) (it : item_t) (c : cursor) : cursor :=
  if changed c && (cur_t_tag c =? t_tag it)%Z then c
  else if negb (is_valid (prop it) target_time) then c
  else
    let delta_t2 := abs_delta it in
    if Float.gtb (cur_delta_t c) delta_t2
    then {| changed := true; cur_t_tag := t_tag it;
            cur_delta_t := delta_t2; cur_index := idx |}
    else c.

(** The loop over the items [its], the first of which is at position [idx]. *)
Fixpoint select_loop (idx : nat) (its : list item_t) (c : cursor) : cursor :=
  match its with
  | [] => c
  | it :: rest => select_loop (S idx) rest (select_step idx it c)
  end.

(** [select]: the flag [changed] and the history afterwards; undefined when
    [selected_index] is not a position of the history. *)
Definition select (h : t) : option (bool * t) :=
  match nth_error (history h) (selected_index h) with
  | None => None
  | Some it_selected =>
      let delta_t := delta_of it_selected in
      let c0 := {| changed := false; cur_t_tag := t_tag it_selected;
                   cur_delta_t := delta_t; cur_index := selected_index h |} in
      let c :=
        if Float.geb delta_t 0
        then (* find newer *)
          select_loop (S (selected_index h))
            (skipn (S (selected_index h)) (history h)) c0
        else (* find older *)
          select_loop 0 (firstn (selected_index h) (history h))
            {| changed := false; cur_t_tag := t_tag it_selected;
               cur_delta_t := delta_t * (-1);
               cur_index := selected_index h |} in
      Some (changed c, {| history := history h; selected_index := cur_index c |})
  end.

End Select.

Section Add.

(** The member [PropertyT::is_equivalent] and the arguments of [add]. *)
Variable is_equivalent : PropertyT -> PropertyT -> bool.
Variable item : PropertyT.
Variable priority_delta : Z.

(** Where the search of [add] ends: at the position [it_insert] at which
    the new item is to be inserted, or at the position of a registered
    item that is equivalent to the new one. *)
Inductive add_position :=
| Insert_at (it_insert : nat)
| Found_at (position : nat).

(** The loop [while(true)] of [add], over the items with the time tag of
    the new item.  The items are listed from [*it] towards [rend()], so
    that the position of [*it] is the length of the rest of the list. *)
Fixpoint add_same_tag (t_tag_new : Z) (newest_first : list item_t)
    (it_insert : nat) : add_position :=
  match newest_first with
  | [] => Insert_at it_insert
  | x :: rest =>
      if negb (is_equivalent (prop x) item)
      then
        let it_insert :=
          if (priority x <=? priority_delta)%Z then length rest
          else it_insert in
        match rest with
        | [] => Insert_at it_insert (* (++it) == history.rend() *)
        | y :: _ =>
            if (t_tag y <? t_tag_new)%Z then Insert_at it_insert
            else add_same_tag t_tag_new rest it_insert
        end
      else Found_at (length rest)
  end.

(** The loop [for(it = history.rbegin(); it != history.rend(); ++it)] of
    [add]; the difference of the time tags is taken in [Z]. *)
Fixpoint add_scan (t_tag_new : Z) (newest_first : list item_t)
    (it_insert : nat) : add_position :=
  match newest_first with
  | [] => Insert_at it_insert
  | x :: rest =>
      let delta_t_tag := (t_tag_new - t_tag x)%Z in
      if (delta_t_tag <? 0)%Z then add_scan t_tag_new rest it_insert
      else
        let it_insert := S (length rest) in (* it.base() *)
        if (delta_t_tag >? 0)%Z then Insert_at it_insert
        else add_same_tag t_tag_new newest_first it_insert
  end.

(** [l[j] = v]; nothing is written outside the vector. *)
Fixpoint assign (l : list item_t) (j : nat) (v : item_t) : list item_t :=
  match l, j with
  | [], _ => []
  | _ :: l', O => v :: l'
  | x :: l', S j' => x :: assign l' j' v
  end.

(** The loop that moves an item whose priority was raised towards the
    front: [*it = *it_previous] as long as the previous item has the same
    time tag and a priority that is not higher.  [j] is the position of
    [*it]; the result is the vector, the position of [*it] and [shift]. *)
Fixpoint move_backward (t_tag_new : Z) (copy : item_t) (l : list item_t)
    (j : nat) (shift : Z) : list item_t * nat * Z :=
  match j with
  | O => (l, j, shift) (* it_previous == history.rend() *)
  | S p =>
      match nth_error l p with
      | Some previous =>
          if (t_tag previous =? t_tag_new)%Z
             && (priority previous <=? priority copy)%Z
          then move_backward t_tag_new copy (assign l j previous) p
                 (shift - 1)%Z
          else (l, j, shift)
      | None => (l, j, shift)
      end
  end.

(** The loop that moves an item whose priority was lowered towards the
    back: [*it2 = *it2_next] as long as the next item has the same time
    tag and a higher priority.  [fuel] bounds the number of iterations;
    the length of the vector is enough. *)
Fixpoint move_forward (fuel : nat) (t_tag_new : Z) (copy : item_t)
    (l : list item_t) (j : nat) (shift : Z) : list item_t * nat * Z :=
  match fuel with
  | O => (l, j, shift)
  | S fuel' =>
      match nth_error l (S j) with
      | Some next =>
          if (t_tag next =? t_tag_new)%Z
             && (priority next >? priority copy)%Z
          then move_forward fuel' t_tag_new copy (assign l j next) (S j)
                 (shift + 1)%Z
          else (l, j, shift)
      | None => (l, j, shift) (* it2_next == history.end() *)
      end
  end.

(** [add(item, priority_delta)]. *)
Definition add (h : t) : t :=
  let t_tag_new := calc_t_tag item in
  match add_scan t_tag_new (rev (history h)) 0 with
  | Insert_at it_insert =>
      (* insert new one. *)
      {| history :=
           firstn it_insert (history h)
           ++ item_of item priority_delta :: skipn it_insert (history h);
         selected_index :=
           if (it_insert <? selected_index h)%nat
           then S (selected_index h) else selected_index h |}
  | Found_at j =>
      match nth_error (history h) j with
      | None => h
      | Some x =>
          if (priority_delta =? 0)%Z
          then (* replace to newer one *)
            {| history :=
                 assign (history h) j
                   {| prop := item; priority := priority x;
                      t_tag := calc_t_tag item |};
               selected_index := selected_index h |}
          else
            let rel_pos := (Z.of_nat (selected_index h) - Z.of_nat j)%Z in
            let copy :=
              {| prop := prop x;
                 priority := (priority x + priority_delta)%Z;
                 t_tag := t_tag x |} in
            let l := assign (history h) j copy in
            let '(l, j', shift) :=
              if (priority_delta >? 0)%Z
              then move_backward t_tag_new copy l j 0
              else move_forward (length l) t_tag_new copy l j 0 in
            let l := if (shift =? 0)%Z then l else assign l j' copy in
            {| history := l;
               selected_index :=
                 if (rel_pos =? 0)%Z
                 then Z.to_nat (Z.of_nat (selected_index h) + shift)
                 else if (rel_pos <? 0)%Z && (shift <=? rel_pos)%Z
                 then S (selected_index h)
                 else if (rel_pos >? 0)%Z && (shift >=? rel_pos)%Z
                 then Nat.pred (selected_index h)
                 else selected_index h |}
      end
  end.

End Add.

End History.

Arguments mk_item {PropertyT}.
Arguments prop {PropertyT}.
Arguments priority {PropertyT}.
Arguments t_tag {PropertyT}.
Arguments mk {PropertyT}.
Arguments history {PropertyT}.
Arguments selected_index {PropertyT}.
Arguments current {PropertyT}.
Arguments select {PropertyT}.
Arguments select_loop {PropertyT}.
Arguments select_step {PropertyT}.
Arguments delta_of {PropertyT}.
Arguments abs_delta {PropertyT}.
Arguments add_same_tag {PropertyT}.
Arguments add_scan {PropertyT}.
Arguments assign {PropertyT}.
Arguments move_backward {PropertyT}.
Arguments move_forward {PropertyT}.
Arguments add {PropertyT}.

End PropertyHistory.

(** ** [Satellite] *)

Module Satellite.

Definition eph_t := Ephemeris.t.
Definition eph_list_t := PropertyHistory.t eph_t.

Record t := mk { eph_history : eph_list_t }.

(** [Satellite()]: the history holds one default-constructed item (priority
    and time tag 0) whose ephemeris fields are not initialised; the
    constructor then writes the four fields below.  [uninit] stands for the
    contents of the uninitialised record. *)
Definition sentinel (uninit : eph_t) : eph_t :=
  {| Ephemeris.svid := Ephemeris.svid uninit;
     Ephemeris.WN := 0;
     Ephemeris.URA := Ephemeris.URA uninit;
     Ephemeris.SV_health := Ephemeris.SV_health uninit;
     Ephemeris.iodc := Ephemeris.iodc uninit;
     Ephemeris.t_GD := Ephemeris.t_GD uninit;
     Ephemeris.t_oc := 0;
     Ephemeris.a_f2 := Ephemeris.a_f2 uninit;
     Ephemeris.a_f1 := Ephemeris.a_f1 uninit;
     Ephemeris.a_f0 := Ephemeris.a_f0 uninit;
     Ephemeris.iode := Ephemeris.iode uninit;
     Ephemeris.c_rs := Ephemeris.c_rs uninit;
     Ephemeris.delta_n := Ephemeris.delta_n uninit;
     Ephemeris.M0 := Ephemeris.M0 uninit;
     Ephemeris.c_uc := Ephemeris.c_uc uninit;
     Ephemeris.e := Ephemeris.e uninit;
     Ephemeris.c_us := Ephemeris.c_us uninit;
     Ephemeris.sqrt_A := Ephemeris.sqrt_A uninit;
     Ephemeris.t_oe := 0;
     Ephemeris.fit_interval := -1;
     Ephemeris.c_ic := Ephemeris.c_ic uninit;
     Ephemeris.Omega0 := Ephemeris.Omega0 uninit;
     Ephemeris.c_is := Ephemeris.c_is uninit;
     Ephemeris.i0 := Ephemeris.i0 uninit;
     Ephemeris.c_rc := Ephemeris.c_rc uninit;
     Ephemeris.omega := Ephemeris.omega uninit;
     Ephemeris.dot_Omega0 := Ephemeris.dot_Omega0 uninit;
     Ephemeris.dot_i0 := Ephemeris.dot_i0 uninit |}.

Definition default (uninit : eph_t) : t :=
  {| eph_history :=
       {| PropertyHistory.history :=
            [ {| PropertyHistory.prop := sentinel uninit;
                 PropertyHistory.priority := 0;
                 PropertyHistory.t_tag := 0 |} ];
          PropertyHistory.selected_index := 0 |} |}.

(** [ephemeris()]: the currently selected record. *)
Definition ephemeris (s : t) : option eph_t :=
  PropertyHistory.current (eph_history s).

(** [register_ephemeris(eph, priority_delta)]. *)
Definition register_ephemeris (s : t) (eph : eph_t) (priority_delta : Z) : t :=
  {| eph_history :=
       PropertyHistory.add Ephemeris.base_time raw_t.is_equivalent eph
         priority_delta (eph_history s) |}.

(** [select_ephemeris(target_time)]: the returned flag and the satellite
    afterwards. *)
Definition select_ephemeris (s : t) (target_time : GPS_Time.t)
  : option (bool * t) :=
  match ephemeris s with
  | None => None
  | Some cur =>
      let is_valid := Ephemeris.is_valid cur target_time in
      if is_valid && negb (Ephemeris.maybe_better_one_avilable cur target_time)
      then Some (true, s) (* conservative *)
      else
        match PropertyHistory.select target_time Ephemeris.is_valid
                (Some Ephemeris.period_from_first_valid_transmittion)
                (eph_history s) with
        | None => None
        | Some (b, h) => Some (b || is_valid, {| eph_history := h |})
        end
  end.

End Satellite.

(** ** Matrices ([mat_t]) *)

Module Matrix.

(** Modelled from the spec: [param/matrix.h] is not among the sources; the
    specification treats the linear-algebra primitives as external
    collaborators with their textbook meaning.  A matrix is its two
    dimensions and its entries; entries outside the dimensions are never
    looked at by the operations below. *)
Record mat_t := mk {
  rows : nat;
  columns : nat;
  at_ : nat -> nat -> Q
}.

(** [sum_n n f] is [f 0 + ... + f (n - 1)]. *)
Fixpoint sum_n (n : nat) (f : nat -> Q) : Q :=
  match n with
  | O => 0
  | S k => sum_n k f + f k
  end.

(** Modelled from the spec: the constructor [mat_t(rows, columns)], whose
    entries are cleared to zero (the sums of the light-weight mode start
    from it). *)
Definition zeros (r c : nat) : mat_t :=
  {| rows := r; columns := c; at_ := fun _ _ => 0 |}.

(** Modelled from the spec: [mat_t::getI(n)], the identity matrix. *)
Definition getI (n : nat) : mat_t :=
  {| rows := n; columns := n;
     at_ := fun i j => if Nat.eqb i j then 1 else 0 |}.

(** Modelled from the spec: [operator+] and [operator+=], entry by entry. *)
Definition add (a b : mat_t) : mat_t :=
  {| rows := rows a; columns := columns a;
     at_ := fun i j => at_ a i j + at_ b i j |}.

(** Modelled from the spec: [operator-] and [operator-=], entry by entry. *)
Definition sub (a b : mat_t) : mat_t :=
  {| rows := rows a; columns := columns a;
     at_ := fun i j => at_ a i j - at_ b i j |}.

(** Modelled from the spec: the product of a matrix and a scalar. *)
Definition scale (a : mat_t) (k : Q) : mat_t :=
  {| rows := rows a; columns := columns a;
     at_ := fun i j => at_ a i j * k |}.

(** Modelled from the spec: the matrix product [operator*] and
    [operator*=]. *)
Definition mul (a b : mat_t) : mat_t :=
  {| rows := rows a; columns := columns b;
     at_ := fun i j => sum_n (columns a) (fun k => at_ a i k * at_ b k j) |}.

(** Modelled from the spec: [transpose()]. *)
Definition transpose (a : mat_t) : mat_t :=
  {| rows := columns a; columns := rows a;
     at_ := fun i j => at_ a j i |}.

(** Two matrices are equal when they have the same dimensions and the same
    entries inside them. *)
Definition eq (a b : mat_t) : Prop :=
  rows a = rows b /\ columns a = columns b /\
  forall i j, (i < rows a)%nat -> (j < columns a)%nat ->
    at_ a i j == at_ b i j.

(** A matrix given by its rows, for writing examples down. *)
Definition of_rows (r c : nat) (l : list (list Q)) : mat_t :=
  {| rows := r; columns := c;
     at_ := fun i j => nth j (nth i l []) 0 |}.

(** The entries of a matrix as a list of rows, reduced to lowest terms. *)
Definition to_rows (a : mat_t) : list (list Q) :=
  map (fun i => map (fun j => Qred (at_ a i j)) (seq 0 (columns a)))
      (seq 0 (rows a)).

End Matrix.

Declare Scope mat_scope.
Delimit Scope mat_scope with mat.
Infix "*" := Matrix.mul : mat_scope.
Infix "+" := Matrix.add : mat_scope.
Infix "-" := Matrix.sub : mat_scope.
Infix "=m" := Matrix.eq (at level 70, no associativity).

(** ** [CorrectInfo]: what a measurement update needs *)

Module CorrectInfo.

(** Modelled from the spec: [CorrectInfo<float_t>] is declared in
    [Filtered_INS2.h], which is not among the sources; it carries the
    matrices H, z and R. *)
Record t := mk { H : Matrix.mat_t; z : Matrix.mat_t; R : Matrix.mat_t }.

(** Modelled from the spec: [CorrectInfo::no_info()], the no-op information
    of an update that is skipped; it has no rows. *)
Definition no_info : t :=
  {| H := Matrix.zeros 0 0; z := Matrix.zeros 0 0; R := Matrix.zeros 0 0 |}.

End CorrectInfo.

(** ** The clock-augmented, tightly coupled filter ([INS_GPS2_Tightly]) *)

Module Tightly.

Definition light_speed : Q := 299792458.

Section Filter.

(** The state of the base INS and of its Kalman filter, which the
    synchronizers copy but never look into. *)
Variable Base : Type.
(** [GPS_Solver_Base] and its measurement map. *)
Variable Solver : Type.
Variable Measurement : Type.

Variable CLOCKS_SUPPORTED : nat.
Variable P_SIZE_WITHOUT_CLOCK_ERROR : nat.

(** [INS_ClockErrorEstimated]: the base state with the receiver clock error
    and its rate for every supported clock. *)
Record ins_t := mk_ins {
  m_clock_error : list Q;
  m_clock_error_rate : list Q;
  base : Base
}.

(** [clock_error(index)] as an rvalue. *)
Definition clock_error (x : ins_t) (index : nat) : Q :=
  nth index (m_clock_error x) 0.

(** [l[index] += v]; nothing is written outside the array. *)
Fixpoint add_at (l : list Q) (index : nat) (v : Q) : list Q :=
  match l, index with
  | [], _ => []
  | x :: l', O => (x + v) :: l'
  | x :: l', S i => x :: add_at l' i v
  end.

(** [clock_error(index) += shift]. *)
Definition clock_error_add (x : ins_t) (index : nat) (shift : Q) : ins_t :=
  {| m_clock_error := add_at (m_clock_error x) index shift;
     m_clock_error_rate := m_clock_error_rate x;
     base := base x |}.

(** [GPS_RawData]. *)
Record raw_data_t := mk_raw_data {
  solver : option Solver;
  clock_index : nat;
  measurement : Measurement;
  gpstime : GPS_Time.t
}.

(** [receiver_state_t]; position and velocity are read off the base state
    by the residual generator. *)
Record receiver_state_t := mk_receiver_state {
  rs_t : GPS_Time.t;
  rs_clock_index : nat;
  rs_clock_error : Q
}.

Definition receiver_state (x : ins_t) (tm : GPS_Time.t) (index : nat)
    (clock_error_shift : Q) : receiver_state_t :=
  let ce := clock_error x index + clock_error_shift in
  {| rs_t := GPS_Time.minus tm (ce / light_speed);
     rs_clock_index := index;
     rs_clock_error := ce |}.

(** The row-by-row assembly of H, z and R ([assign_z_H_R] for every
    satellite of the bundle), which depends on the solver's residual
    generator; it yields [no_info] when no row is assembled. *)
Variable assemble :
  Solver -> ins_t -> Measurement -> receiver_state_t -> CorrectInfo.t.

(** [correct_info(gps, clock_error_shift)]. *)
Definition correct_info (x : ins_t) (gps : raw_data_t)
    (clock_error_shift : Q) : CorrectInfo.t :=
  if (CLOCKS_SUPPORTED <=? clock_index gps)%nat then CorrectInfo.no_info
  else
    match solver gps with
    | None => CorrectInfo.no_info
    | Some sv =>
        assemble sv x (measurement gps)
          (receiver_state x (gpstime gps) (clock_index gps) clock_error_shift)
    end.

(** The loop of [range_residual_mean_ms]: the sum of the residuals of the
    rows that belong to the clock, and their number. *)
Definition residual_step (index : nat) (info : CorrectInfo.t)
    (acc : Q * nat) (i : nat) : Q * nat :=
  if Float.gtb
       (Matrix.at_ (CorrectInfo.H info) i
          (P_SIZE_WITHOUT_CLOCK_ERROR + index * 2)%nat)
       (- (1 # 2))
  then acc
  else (fst acc + Matrix.at_ (CorrectInfo.z info) i 0, S (snd acc)).

Definition range_residual_sum (index : nat) (info : CorrectInfo.t) : Q * nat :=
  fold_left (residual_step index info)
    (seq 0 (Matrix.rows (CorrectInfo.z info))) (0, O).

Definition range_residual_mean_ms (index : nat) (info : CorrectInfo.t) : Q :=
  let '(range_residual_sum, z_ranges) := range_residual_sum index info in
  if (0 <? z_ranges)%nat
  then range_residual_sum / inject_Z (Z.of_nat z_ranges)
       / light_speed / (1 # 1000)
  else 0.

(** [CorrectInfoGenerator::operator()]: the lever arm is not used by
    [correct_info], so both branches give the same information. *)
Definition CorrectInfoGenerator (self : ins_t) (gps : raw_data_t)
    (clock_error_shift : Q) : CorrectInfo.t :=
  correct_info self gps clock_error_shift.

End Filter.

Arguments mk_ins {Base}.
Arguments m_clock_error {Base}.
Arguments m_clock_error_rate {Base}.
Arguments base {Base}.
Arguments clock_error {Base}.
Arguments clock_error_add {Base}.
Arguments mk_raw_data {Solver Measurement}.
Arguments solver {Solver Measurement}.
Arguments clock_index {Solver Measurement}.
Arguments measurement {Solver Measurement}.
Arguments gpstime {Solver Measurement}.
Arguments receiver_state {Base}.
Arguments correct_info {Base Solver Measurement}.
Arguments CorrectInfoGenerator {Base Solver Measurement}.

End Tightly.

(** ** The Back-Propagate synchronizer ([INS_GPS_Back_Propagate]) *)

Module Back_Propagate.

Section Synchronizer.

(** The template parameter [INS_GPS] and the members the wrapper calls. *)
Variable INS_GPS : Type.
Variable getQ : INS_GPS -> Matrix.mat_t.
Variable correct_primitive :
  INS_GPS -> Matrix.mat_t -> Matrix.mat_t -> Matrix.mat_t -> INS_GPS.

Record snapshot_content_t := mk_snapshot {
  ins_gps : INS_GPS;
  Phi : Matrix.mat_t;
  GQGt : Matrix.mat_t;
  elapsedT_from_last_correct : Q
}.

Definition snapshots_t := list snapshot_content_t.

Record t := mk {
  self : INS_GPS;
  snapshots : snapshots_t;
  back_propagate_depth : Q
}.

(** [it->elapsedT_from_last_correct -= mod_elapsedT]. *)
Definition rebase (mod_elapsedT : Q) (s : snapshot_content_t)
  : snapshot_content_t :=
  {| ins_gps := ins_gps s; Phi := Phi s; GQGt := GQGt s;
     elapsedT_from_last_correct :=
       elapsedT_from_last_correct s - mod_elapsedT |}.

(** The elapsed time of [snapshots.back()], and 0 for an empty list: what
    [before_update_INS] adds the interval of the update to. *)
Definition back_elapsedT (l : snapshots_t) : Q :=
  match rev l with
  | [] => 0
  | back :: _ => elapsedT_from_last_correct back
  end.

(** [before_update_INS]: a snapshot is appended before every time update. *)
Definition before_update_INS (A B : Matrix.mat_t) (elapsedT : Q) (st : t) : t :=
  let Phi0 := Matrix.scale A elapsedT in
  let Phi1 :=
    {| Matrix.rows := Matrix.rows Phi0; Matrix.columns := Matrix.columns Phi0;
       Matrix.at_ := fun i j =>
         if (Nat.eqb i j && (i <? Matrix.rows A)%nat)%bool
         then Matrix.at_ Phi0 i j + 1 else Matrix.at_ Phi0 i j |} in
  let Gamma := Matrix.scale B elapsedT in
  let elapsedT_from_last_correct :=
    match rev (snapshots st) with
    | [] => elapsedT
    | back :: _ => elapsedT + elapsedT_from_last_correct back
    end in
  {| self := self st;
     snapshots :=
       snapshots st ++
       [ {| ins_gps := self st; Phi := Phi1;
            GQGt := (Gamma * getQ (self st) * Matrix.transpose Gamma)%mat;
            elapsedT_from_last_correct := elapsedT_from_last_correct |} ];
     back_propagate_depth := back_propagate_depth st |}.

(** The walk [for(it = snapshots.rbegin(); it != snapshots.rend(); ++it)] of
    [before_correct_INS], on the snapshots listed newest first.  The result
    is the list after the walk, newest first again: when a snapshot below
    the depth is reached, [erase(snapshots.begin(), it.base())] removes it
    and everything older, provided [mod_elapsedT > 0.1], a comparison of
    two [double]s: the right-hand side is [Float.lit_0_1]. *)
Fixpoint walk (depth mod_elapsedT : Q) (newest_first : snapshots_t)
  : snapshots_t :=
  match newest_first with
  | [] => []
  | s :: older =>
      if Float.ltb (elapsedT_from_last_correct s) depth
      then if Float.gtb mod_elapsedT Float.lit_0_1 then [] else s :: older
      else rebase mod_elapsedT s :: walk depth mod_elapsedT older
  end.

(** The snapshot list, front (oldest) first, after the walk. *)
Definition walk_snapshots (depth : Q) (l : snapshots_t) : snapshots_t :=
  match rev l with
  | [] => l
  | back :: _ =>
      let mod_elapsedT := elapsedT_from_last_correct back in
      if Float.gtb mod_elapsedT 0
      then rev (walk depth mod_elapsedT (rev l))
      else l
  end.

(** [before_correct_INS(H, R, K, v, x_hat)]; [K] and [x_hat] are not used. *)
Definition before_correct_INS (H R v : Matrix.mat_t) (st : t) : t :=
  match snapshots st with
  | [] => st
  | _ :: _ =>
      match rev (walk_snapshots (back_propagate_depth st) (snapshots st)) with
      | [] =>
          {| self := self st; snapshots := [];
             back_propagate_depth := back_propagate_depth st |}
      | previous :: older =>
          let H_dash := (H * Phi previous)%mat in
          let R_dash := (R + H * GQGt previous * Matrix.transpose H)%mat in
          let corrected :=
            {| ins_gps := correct_primitive (ins_gps previous) H_dash v R_dash;
               Phi := Phi previous; GQGt := GQGt previous;
               elapsedT_from_last_correct :=
                 elapsedT_from_last_correct previous |} in
          {| self := self st; snapshots := rev older ++ [corrected];
             back_propagate_depth := back_propagate_depth st |}
      end
  end.

End Synchronizer.

Arguments mk_snapshot {INS_GPS}.
Arguments ins_gps {INS_GPS}.
Arguments Phi {INS_GPS}.
Arguments GQGt {INS_GPS}.
Arguments elapsedT_from_last_correct {INS_GPS}.
Arguments mk {INS_GPS}.
Arguments self {INS_GPS}.
Arguments snapshots {INS_GPS}.
Arguments back_propagate_depth {INS_GPS}.
Arguments rebase {INS_GPS}.
Arguments back_elapsedT {INS_GPS}.
Arguments walk {INS_GPS}.
Arguments walk_snapshots {INS_GPS}.
Arguments before_update_INS {INS_GPS}.
Arguments before_correct_INS {INS_GPS}.

End Back_Propagate.

(** ** The Real-Time synchronizer ([INS_GPS_RealTime]) *)

Module RealTime.

Inductive rt_mode_t := RT_NORMAL | RT_LIGHT_WEIGHT.

(** What the wrapper writes to [std::cerr]. *)
Inductive diagnostic :=
| Detect_receiver_clock_jump (delta_ms : Q)
| Fixed
| Skipped.

Section Synchronizer.

Variable Base : Type.
Variable Solver : Type.
Variable Measurement : Type.
Variable P_SIZE_WITHOUT_CLOCK_ERROR : nat.

(** The wrapped filter is the tightly coupled one. *)
Definition INS_GPS := Tightly.ins_t Base.
Definition raw_data_t := Tightly.raw_data_t Solver Measurement.

(** The members of the wrapped filter that are not among the sources: the
    process noise, the matrix inverse and the primitive Kalman update. *)
Variable getQ : INS_GPS -> Matrix.mat_t.
Variable inverse : Matrix.mat_t -> Matrix.mat_t.
Variable correct_primitive : INS_GPS -> CorrectInfo.t -> INS_GPS.

Record snapshot_content_t := mk_snapshot {
  ins_gps : INS_GPS;
  A : Matrix.mat_t;
  Phi_inv : Matrix.mat_t;
  GQGt : Matrix.mat_t;
  elapsedT_from_last_update : Q
}.

Definition snapshots_t := list snapshot_content_t.

Record t := mk {
  self : INS_GPS;
  snapshots : snapshots_t;
  rt_mode : rt_mode_t
}.

(** [before_update_INS]. *)
Definition before_update_INS (A0 B : Matrix.mat_t) (elapsedT : Q) (st : t) : t :=
  let Phi0 := Matrix.scale A0 elapsedT in
  let Phi1 :=
    {| Matrix.rows := Matrix.rows Phi0; Matrix.columns := Matrix.columns Phi0;
       Matrix.at_ := fun i j =>
         if (Nat.eqb i j && (i <? Matrix.rows A0)%nat)%bool
         then Matrix.at_ Phi0 i j + 1 else Matrix.at_ Phi0 i j |} in
  let Gamma := Matrix.scale B elapsedT in
  {| self := self st;
     snapshots :=
       snapshots st ++
       [ {| ins_gps := self st; A := A0; Phi_inv := inverse Phi1;
            GQGt := (Gamma * getQ (self st) * Matrix.transpose Gamma)%mat;
            elapsedT_from_last_update := elapsedT |} ];
     rt_mode := rt_mode st |}.

(** The loop of [setup_correct] on the snapshots listed newest first: [k] is
    the number of snapshots already passed.  The result is the number of
    newest snapshots that [erase(snapshots.begin(), it.base())] leaves in
    the list, or [None] when the loop runs off the oldest snapshot. *)
Fixpoint setup_scan (newest_first : snapshots_t) (k : nat) (advanceT : Q)
  : option nat :=
  match newest_first with
  | [] => None
  | s :: older =>
      let advanceT := advanceT + elapsedT_from_last_update s in
      if Float.gtb advanceT (- (5 # 1000))
      then Some (if Nat.eqb k 0 then 1%nat else k) (* keep at least one *)
      else setup_scan older (S k) advanceT
  end.

(** [setup_correct(advanceT)]: the returned flag and the state afterwards. *)
Definition setup_correct (st : t) (advanceT : Q) : bool * t :=
  if Float.gtb advanceT 0 then (false, st) (* positive value (future) is odd *)
  else
    match setup_scan (rev (snapshots st)) 0 advanceT with
    | Some keep =>
        (true,
         {| self := self st;
            snapshots :=
              skipn (length (snapshots st) - keep) (snapshots st);
            rt_mode := rt_mode st |})
    | None => (false, st) (* too old *)
    end.

(** The sum of [elapsedT_from_last_update] over a list of snapshots, which
    the loop of [setup_correct] accumulates in [advanceT]. *)
Definition total_elapsedT (l : snapshots_t) : Q :=
  fold_right (fun s acc => elapsedT_from_last_update s + acc) 0 l.

(** The compensation of H and R in mode [RT_NORMAL]: one step per snapshot,
    oldest first. *)
Definition normal_step (info : CorrectInfo.t) (s : snapshot_content_t)
  : CorrectInfo.t :=
  let H := (CorrectInfo.H info * Phi_inv s)%mat in
  {| CorrectInfo.H := H;
     CorrectInfo.z := CorrectInfo.z info;
     CorrectInfo.R :=
       (CorrectInfo.R info + H * GQGt s * Matrix.transpose H)%mat |}.

Definition compensate_normal (l : snapshots_t) (info : CorrectInfo.t)
  : CorrectInfo.t :=
  fold_left normal_step l info.

(** The compensation in mode [RT_LIGHT_WEIGHT]. *)
Definition compensate_light_weight (l : snapshots_t) (info : CorrectInfo.t)
  : CorrectInfo.t :=
  match l with
  | [] => info
  | _ :: _ =>
      let H := CorrectInfo.H info in
      let R := CorrectInfo.R info in
      let sum_A0 := Matrix.zeros (Matrix.columns H) (Matrix.columns H) in
      let sum_GQGt0 := Matrix.zeros (Matrix.rows sum_A0) (Matrix.rows sum_A0) in
      let sum_A := fold_left (fun acc s => (acc + A s)%mat) l sum_A0 in
      let sum_GQGt := fold_left (fun acc s => (acc + GQGt s)%mat) l sum_GQGt0 in
      let bar_delteT :=
        fold_left (fun acc s => acc + elapsedT_from_last_update s) l 0 in
      let n := Z.of_nat (length l) in
      let bar_delteT := bar_delteT / inject_Z n in
      let sum_A_GQGt := (sum_A * sum_GQGt)%mat in
      let sum_GQGt' :=
        (sum_GQGt -
         Matrix.scale (sum_A_GQGt + Matrix.transpose sum_A_GQGt)
           (bar_delteT * inject_Z (n - 1) / inject_Z (2 * n)))%mat in
      {| CorrectInfo.H :=
           (H * (Matrix.getI (Matrix.rows sum_A)
                 - Matrix.scale sum_A bar_delteT))%mat;
         CorrectInfo.z := CorrectInfo.z info;
         CorrectInfo.R := (R + H * sum_GQGt' * Matrix.transpose H)%mat |}
  end.

(** The [switch] of [correct_with_info]. *)
Definition compensate (mode : rt_mode_t) (l : snapshots_t)
    (info : CorrectInfo.t) : CorrectInfo.t :=
  match mode with
  | RT_LIGHT_WEIGHT => compensate_light_weight l info
  | RT_NORMAL => compensate_normal l info
  end.

(** [correct_with_info(info)]. *)
Definition correct_with_info (st : t) (info : CorrectInfo.t) : t :=
  {| self :=
       correct_primitive (self st)
         (compensate (rt_mode st) (snapshots st) info);
     snapshots := snapshots st;
     rt_mode := rt_mode st |}.

(** The clock errors of every retained snapshot and of the live filter are
    shifted. *)
Definition shift_clock_error (st : t) (index : nat) (shift : Q) : t :=
  {| self := Tightly.clock_error_add (self st) index shift;
     snapshots :=
       map (fun s =>
              {| ins_gps := Tightly.clock_error_add (ins_gps s) index shift;
                 A := A s; Phi_inv := Phi_inv s; GQGt := GQGt s;
                 elapsedT_from_last_update := elapsedT_from_last_update s |})
           (snapshots st);
     rt_mode := rt_mode st |}.

Definition range_residual_mean_ms :=
  Tightly.range_residual_mean_ms P_SIZE_WITHOUT_CLOCK_ERROR.

(** The shift of the clock error that the detector derives from the mean
    residual: [light_speed * 1E-3 * std::floor(delta_ms + 0.5)]. *)
Definition clock_error_shift_of (delta_ms : Q) : Q :=
  Tightly.light_speed * (1 # 1000) * Float.floor (delta_ms + (1 # 2)).

(** [correct2_tightly(gps, generator)]: the diagnostics written and the
    state afterwards; undefined on an empty snapshot list, whose [front()]
    the function reads. *)
Definition correct2_tightly
    (generator : INS_GPS -> raw_data_t -> Q -> CorrectInfo.t)
    (st : t) (gps : raw_data_t) : option (list diagnostic * t) :=
  match snapshots st with
  | [] => None
  | front :: _ =>
      let index := Tightly.clock_index gps in
      let info := generator (ins_gps front) gps 0 in
      if (Matrix.rows (CorrectInfo.z info) <? 1)%nat then Some ([], st)
      else
        let delta_ms := range_residual_mean_ms index info in
        if Float.geb delta_ms (9 # 10) || Float.leb delta_ms (- (9 # 10))
        then
          let clock_error_shift := clock_error_shift_of delta_ms in
          let info := generator (ins_gps front) gps clock_error_shift in
          let delta_ms' := range_residual_mean_ms index info in
          if Float.ltb delta_ms' (9 # 10) && Float.gtb delta_ms' (- (9 # 10))
          then
            Some ([Detect_receiver_clock_jump delta_ms; Fixed],
                  correct_with_info
                    (shift_clock_error st index clock_error_shift) info)
          else Some ([Detect_receiver_clock_jump delta_ms; Skipped], st)
        else Some ([], correct_with_info st info)
  end.

End Synchronizer.

Arguments mk_snapshot {Base}.
Arguments ins_gps {Base}.
Arguments A {Base}.
Arguments Phi_inv {Base}.
Arguments GQGt {Base}.
Arguments elapsedT_from_last_update {Base}.
Arguments mk {Base}.
Arguments self {Base}.
Arguments snapshots {Base}.
Arguments rt_mode {Base}.
Arguments setup_scan {Base}.
Arguments total_elapsedT {Base}.
Arguments setup_correct {Base}.
Arguments normal_step {Base}.
Arguments compensate_normal {Base}.
Arguments compensate_light_weight {Base}.
Arguments compensate {Base}.
Arguments correct_with_info {Base}.
Arguments shift_clock_error {Base}.
Arguments correct2_tightly {Base Solver Measurement}.

End RealTime.

(** ** Atmospheric corrections ([GPS_SpaceNode]) *)

Module SpaceNode.

Section Troposphere.

(** [sin] comes from [<cmath>]. *)
Variable sin : Q -> Q.

(** [pow(f, 5)]. *)
Definition pow5 (f : Q) : Q := f * f * f * f * f.

(** The factor [f] of [tropo_correction]: 1 at or below the ellipsoid, 0
    above [1.0 / 2.3E-5] m, and [1 - h * 2.3E-5] in between. *)
Definition tropo_height_factor (h : Q) : Q :=
  let f := 1 in
  if Float.gtb h (1 / (23 # 1000000)) then 0
  else if Float.gtb h 0 then f - h * (23 # 1000000)
  else f.

(** [tropo_correction(relative_pos, usrllh)], in meters; [el] is
    [relative_pos.elevation()] and [h] is [usrllh.height()]. *)
Definition tropo_correction (el h : Q) : Q :=
  let f := tropo_height_factor h in
  - (247 # 100) * pow5 f / (sin el + (121 # 10000)).

End Troposphere.

End SpaceNode.

(** ** Numerical integration ([integral.h]) *)

Module Integral.

(** The templates are instantiated at [V1 = V2 = float_t]. *)

(** [nextByRK4(f, x, y, h)]. *)
Definition nextByRK4 (f : Q -> Q -> Q) (x y h : Q) : Q :=
  let k1 := f x y * h in
  let k2 := f (x + h / 2) (y + k1 / 2) * h in
  let k3 := f (x + h / 2) (y + k2 / 2) * h in
  let k4 := f (x + h) (y + k3) * h in
  y + (k1 + k2 * 2 + k3 * 2 + k4) / 6.

(** [nextByRK2(f, x, y, h)]. *)
Definition nextByRK2 (f : Q -> Q -> Q) (x y h : Q) : Q :=
  let k1 := f x y * h in
  let k2 := f (x + h) (y + k1) * h in
  y + (k1 + k2) / 2.

(** [nextByEuler(f, x, y, h)]. *)
Definition nextByEuler (f : Q -> Q -> Q) (x y h : Q) : Q :=
  y + f x y * h.

End Integral.

(** * Example states

    Concrete filters, snapshots and records on which the properties below
    are instantiated. *)

Module Examples.

(** A filter with one clock, and a snapshot of it taken 10 ms ago. *)
Definition example_ins : Tightly.ins_t unit :=
  {| Tightly.m_clock_error := [0];
     Tightly.m_clock_error_rate := [0];
     Tightly.base := tt |}.

Definition example_rt_snapshot : RealTime.snapshot_content_t unit :=
  {| RealTime.ins_gps := example_ins;
     RealTime.A := Matrix.zeros 2 2;
     RealTime.Phi_inv := Matrix.getI 2;
     RealTime.GQGt := Matrix.zeros 2 2;
     RealTime.elapsedT_from_last_update := 1 # 100 |}.

Definition example_rt_state : RealTime.t unit :=
  {| RealTime.self := example_ins;
     RealTime.snapshots := [example_rt_snapshot; example_rt_snapshot];
     RealTime.rt_mode := RealTime.RT_NORMAL |}.

(** Snapshots of time updates every 1/128 s, an interval that [double]
    holds and adds exactly: three of them, and the newest two. *)
Definition grid_rt_snapshot : RealTime.snapshot_content_t unit :=
  {| RealTime.ins_gps := example_ins;
     RealTime.A := Matrix.zeros 2 2;
     RealTime.Phi_inv := Matrix.getI 2;
     RealTime.GQGt := Matrix.zeros 2 2;
     RealTime.elapsedT_from_last_update := 1 # 128 |}.

Definition grid_rt_state : RealTime.t unit :=
  {| RealTime.self := example_ins;
     RealTime.snapshots :=
       [grid_rt_snapshot; grid_rt_snapshot; grid_rt_snapshot];
     RealTime.rt_mode := RealTime.RT_NORMAL |}.

Definition grid_rt_newest_two : RealTime.t unit :=
  {| RealTime.self := example_ins;
     RealTime.snapshots := [grid_rt_snapshot; grid_rt_snapshot];
     RealTime.rt_mode := RealTime.RT_NORMAL |}.

(** A Back-Propagate synchronizer around a filter without state: the
    snapshots only differ in their elapsed time. *)
Definition bp_getQ (_ : unit) : Matrix.mat_t := Matrix.zeros 2 2.
Definition bp_correct_primitive (x : unit) (_ _ _ : Matrix.mat_t) : unit := x.

Definition bp_snapshot (elapsedT : Q) : Back_Propagate.snapshot_content_t unit :=
  {| Back_Propagate.ins_gps := tt;
     Back_Propagate.Phi := Matrix.getI 2;
     Back_Propagate.GQGt := Matrix.zeros 2 2;
     Back_Propagate.elapsedT_from_last_correct := elapsedT |}.

(** No snapshot yet, [back_propagate_depth] set to 0.5 s. *)
Definition bp_initial : Back_Propagate.t unit :=
  {| Back_Propagate.self := tt;
     Back_Propagate.snapshots := [];
     Back_Propagate.back_propagate_depth := 1 # 2 |}.

(** The state after one time update of [elapsedT] seconds. *)
Definition bp_after_update (elapsedT : Q) : Back_Propagate.t unit :=
  Back_Propagate.before_update_INS bp_getQ
    (Matrix.zeros 2 2) (Matrix.zeros 2 2) elapsedT bp_initial.

(** A measurement with one row. *)
Definition bp_H : Matrix.mat_t := Matrix.of_rows 1 2 [[-1; 0]].
Definition bp_R : Matrix.mat_t := Matrix.of_rows 1 1 [[1]].
Definition bp_v : Matrix.mat_t := Matrix.of_rows 1 1 [[1]].

(** A broadcast ephemeris with the orbit of a GPS satellite: the semi-major
    axis is about 26560 km, so that [sqrt_A] is about 5153.7 sqrt(m), which
    is 2702000000 in units of 2^-19. *)
Definition gps_raw : raw_t.t :=
  {| raw_t.svid := 1;
     raw_t.WN := 2000;
     raw_t.URA := 0;
     raw_t.SV_health := 0;
     raw_t.iodc := 10;
     raw_t.t_GD := -11;
     raw_t.t_oc := 24300;
     raw_t.a_f2 := 0;
     raw_t.a_f1 := -35;
     raw_t.a_f0 := 123456;
     raw_t.iode := 10;
     raw_t.c_rs := 1000;
     raw_t.delta_n := 12000;
     raw_t.M0 := 123456789;
     raw_t.c_uc := -500;
     raw_t.e := 50000000;
     raw_t.c_us := 2000;
     raw_t.sqrt_A := 2702000000;
     raw_t.t_oe := 24300;
     raw_t.fit_interval_flag := false;
     raw_t.c_ic := 10;
     raw_t.Omega0 := -1000000000;
     raw_t.c_is := -20;
     raw_t.i0 := 654000000;
     raw_t.c_rc := 6000;
     raw_t.omega := 500000000;
     raw_t.dot_Omega0 := -22000;
     raw_t.dot_i0 := 100 |}.

(** The same record with a semi-major axis small enough for [sqrt_A] to fit
    a signed 32-bit integer. *)
Definition low_orbit_raw : raw_t.t :=
  {| raw_t.svid := 1;
     raw_t.WN := 2000;
     raw_t.URA := 0;
     raw_t.SV_health := 0;
     raw_t.iodc := 10;
     raw_t.t_GD := -11;
     raw_t.t_oc := 24300;
     raw_t.a_f2 := 0;
     raw_t.a_f1 := -35;
     raw_t.a_f0 := 123456;
     raw_t.iode := 10;
     raw_t.c_rs := 1000;
     raw_t.delta_n := 12000;
     raw_t.M0 := 123456789;
     raw_t.c_uc := -500;
     raw_t.e := 50000000;
     raw_t.c_us := 2000;
     raw_t.sqrt_A := 2000000000;
     raw_t.t_oe := 24300;
     raw_t.fit_interval_flag := false;
     raw_t.c_ic := 10;
     raw_t.Omega0 := -1000000000;
     raw_t.c_is := -20;
     raw_t.i0 := 654000000;
     raw_t.c_rc := 6000;
     raw_t.omega := 500000000;
     raw_t.dot_Omega0 := -22000;
     raw_t.dot_i0 := 100 |}.

(** The record of [low_orbit_raw] with its negative angles, [Omega0] and
    [dot_Omega0], replaced by their amounts. *)
Definition low_orbit_raw_east : raw_t.t :=
  {| raw_t.svid := 1;
     raw_t.WN := 2000;
     raw_t.URA := 0;
     raw_t.SV_health := 0;
     raw_t.iodc := 10;
     raw_t.t_GD := -11;
     raw_t.t_oc := 24300;
     raw_t.a_f2 := 0;
     raw_t.a_f1 := -35;
     raw_t.a_f0 := 123456;
     raw_t.iode := 10;
     raw_t.c_rs := 1000;
     raw_t.delta_n := 12000;
     raw_t.M0 := 123456789;
     raw_t.c_uc := -500;
     raw_t.e := 50000000;
     raw_t.c_us := 2000;
     raw_t.sqrt_A := 2000000000;
     raw_t.t_oe := 24300;
     raw_t.fit_interval_flag := false;
     raw_t.c_ic := 10;
     raw_t.Omega0 := 1000000000;
     raw_t.c_is := -20;
     raw_t.i0 := 654000000;
     raw_t.c_rc := 6000;
     raw_t.omega := 500000000;
     raw_t.dot_Omega0 := 22000;
     raw_t.dot_i0 := 100 |}.

(** The record of [low_orbit_raw] with three fields scaled by powers of
    two one unit off. *)
Definition low_orbit_raw_near : raw_t.t :=
  {| raw_t.svid := 1;
     raw_t.WN := 2000;
     raw_t.URA := 0;
     raw_t.SV_health := 0;
     raw_t.iodc := 10;
     raw_t.t_GD := -10;
     raw_t.t_oc := 24300;
     raw_t.a_f2 := 0;
     raw_t.a_f1 := -35;
     raw_t.a_f0 := 123456;
     raw_t.iode := 10;
     raw_t.c_rs := 999;
     raw_t.delta_n := 12000;
     raw_t.M0 := 123456789;
     raw_t.c_uc := -500;
     raw_t.e := 50000001;
     raw_t.c_us := 2000;
     raw_t.sqrt_A := 2000000000;
     raw_t.t_oe := 24300;
     raw_t.fit_interval_flag := false;
     raw_t.c_ic := 10;
     raw_t.Omega0 := -1000000000;
     raw_t.c_is := -20;
     raw_t.i0 := 654000000;
     raw_t.c_rc := 6000;
     raw_t.omega := 500000000;
     raw_t.dot_Omega0 := -22000;
     raw_t.dot_i0 := 100 |}.

(** A Real-Time synchronizer whose residual generator sees one satellite:
    the pseudorange is 300 km longer than predicted, less whatever clock
    error the filter already assumes.  The state vector is the two clock
    states alone. *)
Definition cj_generator (x : Tightly.ins_t unit)
    (gps : Tightly.raw_data_t unit unit) (clock_error_shift : Q)
  : CorrectInfo.t :=
  {| CorrectInfo.H := Matrix.of_rows 1 2 [[-1; 0]];
     CorrectInfo.z :=
       Matrix.of_rows 1 1
         [[300000 - (Tightly.clock_error x (Tightly.clock_index gps)
                     + clock_error_shift)]];
     CorrectInfo.R := Matrix.of_rows 1 1 [[1]] |}.

Definition cj_correct_primitive (x : Tightly.ins_t unit) (_ : CorrectInfo.t)
  : Tightly.ins_t unit := x.

(** A primitive update with gain one on the first clock: the residual of
    the first row is put on its clock error. *)
Definition cj_residual_primitive (x : Tightly.ins_t unit)
    (info : CorrectInfo.t) : Tightly.ins_t unit :=
  Tightly.clock_error_add x 0 (Matrix.at_ (CorrectInfo.z info) 0 0).

Definition cj_gps : Tightly.raw_data_t unit unit :=
  {| Tightly.solver := Some tt;
     Tightly.clock_index := 0;
     Tightly.measurement := tt;
     Tightly.gpstime := GPS_Time.mk 2000 1000 |}.

(** One time update of 10 ms of the clock channel of the filter,
    [A = [[-1, 1], [0, -1]]] (both Gauss-Markov constants at their default
    1): [Phi = I + A * 0.01 = [[0.99, 0.01], [0, 0.99]]], and [Phi_inv] is
    its inverse. *)
Definition clock_A : Matrix.mat_t := Matrix.of_rows 2 2 [[-1; 1]; [0; -1]].
Definition clock_deltaT : Q := 1 # 100.
Definition clock_Phi_inv : Matrix.mat_t :=
  Matrix.of_rows 2 2 [[100 # 99; - (100 # 9801)]; [0; 100 # 99]].
Definition clock_GQGt : Matrix.mat_t :=
  Matrix.of_rows 2 2 [[1 # 10000; 0]; [0; 1 # 10000]].

Definition clock_snapshot : RealTime.snapshot_content_t unit :=
  {| RealTime.ins_gps := example_ins;
     RealTime.A := clock_A;
     RealTime.Phi_inv := clock_Phi_inv;
     RealTime.GQGt := clock_GQGt;
     RealTime.elapsedT_from_last_update := clock_deltaT |}.

(** One range row on the clock error. *)
Definition clock_info : CorrectInfo.t :=
  {| CorrectInfo.H := Matrix.of_rows 1 2 [[-1; 0]];
     CorrectInfo.z := Matrix.of_rows 1 1 [[10]];
     CorrectInfo.R := Matrix.of_rows 1 1 [[1]] |}.

(** A satellite after [Satellite()] and one [register_ephemeris]: the
    sentinel, then the registered record (week 2000, [t_oc] = 388800 s,
    fit interval 4 h) with priority 1; the sentinel is still selected. *)
Definition sat_eph : Ephemeris.t := raw_t.to_Ephemeris low_orbit_raw.

Definition sat_history : list (PropertyHistory.item_t Ephemeris.t) :=
  [ {| PropertyHistory.prop := Satellite.sentinel sat_eph;
       PropertyHistory.priority := 0;
       PropertyHistory.t_tag := 0 |};
    PropertyHistory.item_of Ephemeris.t Ephemeris.base_time sat_eph 1 ].

Definition sat_registered : Satellite.t :=
  {| Satellite.eph_history :=
       {| PropertyHistory.history := sat_history;
          PropertyHistory.selected_index := 0 |} |}.

(** The same satellite with the registered record selected. *)
Definition sat_selected : Satellite.t :=
  {| Satellite.eph_history :=
       {| PropertyHistory.history := sat_history;
          PropertyHistory.selected_index := 1 |} |}.

(** 200 s after the first valid transmission of the record. *)
Definition sat_time : GPS_Time.t := GPS_Time.mk 2000 381800.

(** The [struct tm] of 2019-04-07 12:15:30, the day of the second week
    number rollover. *)
Definition tm_2019_04_07 : GPS_Time.tm :=
  {| GPS_Time.tm_sec := 30; GPS_Time.tm_min := 15; GPS_Time.tm_hour := 12;
     GPS_Time.tm_mday := 7; GPS_Time.tm_mon := 3; GPS_Time.tm_year := 119;
     GPS_Time.tm_wday := 0; GPS_Time.tm_yday := 0; GPS_Time.tm_isdst := 0 |}.

(** The [struct tm] of 1983-12-31 23:59:59, the last second of the first
    four-year block. *)
Definition tm_1983_12_31 : GPS_Time.tm :=
  {| GPS_Time.tm_sec := 59; GPS_Time.tm_min := 59; GPS_Time.tm_hour := 23;
     GPS_Time.tm_mday := 31; GPS_Time.tm_mon := 11; GPS_Time.tm_year := 83;
     GPS_Time.tm_wday := 0; GPS_Time.tm_yday := 0; GPS_Time.tm_isdst := 0 |}.

(** The Real-Time state of [example_rt_state] with the newest snapshot
    alone. *)
Definition example_rt_newest : RealTime.t unit :=
  {| RealTime.self := example_ins;
     RealTime.snapshots := [example_rt_snapshot];
     RealTime.rt_mode := RealTime.RT_NORMAL |}.

(** The snapshot that the time update of [bp_after_update] appends. *)
Definition bp_newest (elapsedT : Q) : Back_Propagate.snapshot_content_t unit :=
  last (Back_Propagate.snapshots (bp_after_update elapsedT)) (bp_snapshot 0).

(** The record of [sat_eph] as it was broadcast two hours earlier:
    [t_oc] and [t_oe] are 7200 s lower. *)
Definition older_eph : Ephemeris.t :=
  {| Ephemeris.svid := Ephemeris.svid sat_eph;
     Ephemeris.WN := Ephemeris.WN sat_eph;
     Ephemeris.URA := Ephemeris.URA sat_eph;
     Ephemeris.SV_health := Ephemeris.SV_health sat_eph;
     Ephemeris.iodc := 9;
     Ephemeris.t_GD := Ephemeris.t_GD sat_eph;
     Ephemeris.t_oc := Ephemeris.t_oc sat_eph - 7200;
     Ephemeris.a_f2 := Ephemeris.a_f2 sat_eph;
     Ephemeris.a_f1 := Ephemeris.a_f1 sat_eph;
     Ephemeris.a_f0 := Ephemeris.a_f0 sat_eph;
     Ephemeris.iode := 9;
     Ephemeris.c_rs := Ephemeris.c_rs sat_eph;
     Ephemeris.delta_n := Ephemeris.delta_n sat_eph;
     Ephemeris.M0 := Ephemeris.M0 sat_eph;
     Ephemeris.c_uc := Ephemeris.c_uc sat_eph;
     Ephemeris.e := Ephemeris.e sat_eph;
     Ephemeris.c_us := Ephemeris.c_us sat_eph;
     Ephemeris.sqrt_A := Ephemeris.sqrt_A sat_eph;
     Ephemeris.t_oe := Ephemeris.t_oe sat_eph - 7200;
     Ephemeris.fit_interval := Ephemeris.fit_interval sat_eph;
     Ephemeris.c_ic := Ephemeris.c_ic sat_eph;
     Ephemeris.Omega0 := Ephemeris.Omega0 sat_eph;
     Ephemeris.c_is := Ephemeris.c_is sat_eph;
     Ephemeris.i0 := Ephemeris.i0 sat_eph;
     Ephemeris.c_rc := Ephemeris.c_rc sat_eph;
     Ephemeris.omega := Ephemeris.omega sat_eph;
     Ephemeris.dot_Omega0 := Ephemeris.dot_Omega0 sat_eph;
     Ephemeris.dot_i0 := Ephemeris.dot_i0 sat_eph |}.

(** A bundle whose solver has not been set. *)
Definition gps_without_solver : Tightly.raw_data_t unit unit :=
  {| Tightly.solver := None;
     Tightly.clock_index := 0;
     Tightly.measurement := tt;
     Tightly.gpstime := GPS_Time.mk 2000 1000 |}.

End Examples.

(** * Properties *)

(** ** Comparisons of [float_t] *)

Lemma ltb_lt x y : Float.ltb x y = true <-> x < y.
Proof.
  unfold Float.ltb. rewrite negb_true_iff.
  split; intro H.
  - apply Qnot_le_lt. intro Hle. apply Qle_bool_iff in Hle. congruence.
  - destruct (Qle_bool y x) eqn:E; [|reflexivity].
    apply Qle_bool_iff in E. exfalso. apply (Qlt_not_le _ _ H E).
Qed.

Lemma leb_le x y : Float.leb x y = true <-> x <= y.
Proof. unfold Float.leb. apply Qle_bool_iff. Qed.

Lemma ltb_ge x y : Float.ltb x y = false <-> y <= x.
Proof.
  unfold Float.ltb. rewrite negb_false_iff. apply Qle_bool_iff.
Qed.

Lemma leb_gt x y : Float.leb x y = false <-> y < x.
Proof.
  rewrite <- ltb_lt. unfold Float.ltb, Float.leb.
  destruct (Qle_bool x y); simpl; split; congruence.
Qed.

Lemma gtb_lt x y : Float.gtb x y = true <-> y < x.
Proof. apply ltb_lt. Qed.

Lemma gtb_le x y : Float.gtb x y = false <-> x <= y.
Proof. apply ltb_ge. Qed.

Lemma geb_le x y : Float.geb x y = true <-> y <= x.
Proof. apply leb_le. Qed.

Lemma geb_lt x y : Float.geb x y = false <-> x < y.
Proof. apply leb_gt. Qed.

(** ** GPS time *)

Lemma seconds_week_value : GPS_Time.seconds_week = 604800%Z.
Proof. reflexivity. Qed.

(** The interval between two times is the difference of the weeks times
    604800 plus the difference of the seconds. *)
Lemma diff_weeks_seconds (x y : GPS_Time.t) :
  GPS_Time.diff x y ==
  inject_Z (GPS_Time.week x - GPS_Time.week y) * 604800
  + (GPS_Time.seconds x - GPS_Time.seconds y).
Proof.
  unfold GPS_Time.diff. rewrite seconds_week_value.
  unfold Zminus. rewrite inject_Z_plus, inject_Z_opp. ring.
Qed.

(** As long as the quotient is not negative and the product
    [seconds_week * quot] fits 32 bits, [canonicalize] restores the
    invariant and keeps the instant. *)
Lemma canonicalize_nonneg (x : GPS_Time.t) :
  0 <= GPS_Time.seconds x ->
  GPS_Time.seconds x < 7102 * 604800 ->
  GPS_Time.in_week (GPS_Time.canonicalize x) /\
  GPS_Time.serialize (GPS_Time.canonicalize x) == GPS_Time.serialize x.
Proof.
  intros H0 H1.
  unfold GPS_Time.in_week, GPS_Time.serialize, GPS_Time.canonicalize.
  cbn [GPS_Time.seconds GPS_Time.week].
  rewrite seconds_week_value.
  set (s := GPS_Time.seconds x) in *.
  set (q := Qfloor (s / inject_Z 604800)).
  assert (Hq1 : inject_Z q <= s / inject_Z 604800) by apply Qfloor_le.
  assert (Hq2 : s / inject_Z 604800 < inject_Z (q + 1)) by apply Qlt_floor.
  rewrite inject_Z_plus in Hq2.
  change (inject_Z 604800) with 604800 in *.
  change (inject_Z 1) with 1 in *.
  assert (Hs : s == (s / 604800) * 604800) by (field; discriminate).
  assert (Hlo : inject_Z q * 604800 <= s) by lra.
  assert (Hhi : s < (inject_Z q + 1) * 604800) by lra.
  assert (Hq0 : (0 <= q)%Z).
  { destruct (Z_lt_le_dec q 0) as [Hn|Hp]; [exfalso | exact Hp].
    assert (inject_Z q <= inject_Z (-1)) by (rewrite <- Zle_Qle; lia).
    change (inject_Z (-1)) with (-1) in *. lra. }
  assert (Hq7 : (q <= 7101)%Z).
  { destruct (Z_lt_le_dec 7101 q) as [Hn|Hp]; [exfalso | lia].
    assert (inject_Z 7102 <= inject_Z q) by (rewrite <- Zle_Qle; lia).
    change (inject_Z 7102) with 7102 in *. lra. }
  assert (Hu : Int32.umul 604800 (Int32.u32 q) = (604800 * q)%Z).
  { unfold Int32.umul, Int32.u32, Int32.modulus.
    rewrite (Z.mod_small q) by lia. apply Z.mod_small. lia. }
  rewrite Hu, inject_Z_mult, inject_Z_plus.
  change (inject_Z 604800) with 604800.
  repeat split; lra.
Qed.

(** C9 (the code departs from the claim): subtracting 20 s from the valid
    time (week 2000, 10 s) with [operator-=] or [operator-] makes [quot]
    equal to -1; [seconds_week * quot] is then evaluated in [unsigned int]
    and gives 4294362496 instead of -604800, so that the seconds field
    becomes -4294362506 and leaves the range [0, 604800).  The interval
    between two times is computed as the claim says. *)
Theorem canonicalize_negative_quotient :
  let x := GPS_Time.mk 2000 10 in
  GPS_Time.in_week x /\
  GPS_Time.week (GPS_Time.sub_assign x 20) = 1999%Z /\
  GPS_Time.seconds (GPS_Time.sub_assign x 20) == - 4294362506 /\
  GPS_Time.seconds (GPS_Time.minus x 20) == - 4294362506 /\
  GPS_Time.seconds (GPS_Time.add_assign x (-20)) == - 4294362506 /\
  GPS_Time.seconds (GPS_Time.plus x (-20)) == - 4294362506 /\
  ~ GPS_Time.in_week (GPS_Time.sub_assign x 20) /\
  ~ GPS_Time.in_week (GPS_Time.minus x 20) /\
  GPS_Time.diff (GPS_Time.mk 2001 60) (GPS_Time.mk 2000 604740)
  == inject_Z (2001 - 2000) * 604800 + (60 - 604740).
Proof.
  cbv zeta.
  assert (Es : GPS_Time.seconds (GPS_Time.sub_assign (GPS_Time.mk 2000 10) 20)
               == - 4294362506) by (vm_compute; reflexivity).
  repeat split; try exact Es; try reflexivity.
  - vm_compute. discriminate.
  - intros [H _]. rewrite Es in H. vm_compute in H. apply H. reflexivity.
  - intros [H _]. change (GPS_Time.minus (GPS_Time.mk 2000 10) 20)
      with (GPS_Time.sub_assign (GPS_Time.mk 2000 10) 20) in H.
    rewrite Es in H. vm_compute in H. apply H. reflexivity.
Qed.

(** ** Ephemeris validity *)

(** [period_from_time_of_clock(t)] is the interval from the clock reference
    epoch [(WN, t_oc)] to [t]. *)
Lemma period_from_time_of_clock_diff (eph : Ephemeris.t) (tm : GPS_Time.t) :
  Ephemeris.period_from_time_of_clock eph tm
  == GPS_Time.diff tm (Ephemeris.base_time eph).
Proof.
  unfold Ephemeris.period_from_time_of_clock, GPS_Time.interval,
    GPS_Time.diff, Ephemeris.base_time.
  cbn [GPS_Time.week GPS_Time.seconds]. ring.
Qed.

(** C6: [is_valid(t)] is true exactly when the absolute value of
    [period_from_time_of_clock(t)], the difference between [t] and the clock
    reference epoch [(WN, t_oc)] of the record, is at most half the fit
    interval. *)
Theorem is_valid_iff (eph : Ephemeris.t) (tm : GPS_Time.t) :
  (Ephemeris.is_valid eph tm = true <->
   Qabs (Ephemeris.period_from_time_of_clock eph tm)
   <= Ephemeris.fit_interval eph / 2)
  /\ (Ephemeris.is_valid eph tm = true <->
      Qabs (GPS_Time.diff tm (GPS_Time.mk (Ephemeris.WN eph) (Ephemeris.t_oc eph)))
      <= Ephemeris.fit_interval eph / 2).
Proof.
  assert (H : Ephemeris.is_valid eph tm = true <->
              Qabs (Ephemeris.period_from_time_of_clock eph tm)
              <= Ephemeris.fit_interval eph / 2).
  { unfold Ephemeris.is_valid. apply leb_le. }
  split; [exact H|].
  rewrite H, period_from_time_of_clock_diff. reflexivity.
Qed.

(** ** Real-Time synchronizer: future measurements *)

(** C5: for a positive [advanceT], [setup_correct] returns [false] and the
    state, snapshot list included, is the one it was called on. *)
Theorem setup_correct_rejects_future
    (Base : Type) (st : RealTime.t Base) (advanceT : Q) :
  0 < advanceT ->
  RealTime.setup_correct st advanceT = (false, st).
Proof.
  intro H. unfold RealTime.setup_correct.
  apply gtb_lt in H. rewrite H. reflexivity.
Qed.

Lemma setup_correct_rejects_future_witness :
  RealTime.setup_correct Examples.example_rt_state (1 # 100) = (false, Examples.example_rt_state).
Proof.
  apply (setup_correct_rejects_future unit Examples.example_rt_state (1 # 100)).
  reflexivity.
Defined.

(** ** The default satellite *)

(** C10: a default-constructed satellite holds the sentinel ephemeris with
    [fit_interval = -1], [WN = 0], [t_oc = 0] and [t_oe = 0], whatever the
    uninitialised fields contain; it is valid at no time, and before any
    ephemeris is registered [select_ephemeris] returns [false] at every
    time and leaves the satellite as it is. *)
Theorem default_satellite_has_no_valid_ephemeris
    (uninit : Ephemeris.t) (tm : GPS_Time.t) :
  exists eph,
    Satellite.ephemeris (Satellite.default uninit) = Some eph /\
    Ephemeris.fit_interval eph = -1 /\
    Ephemeris.WN eph = 0%Z /\
    Ephemeris.t_oc eph = 0 /\
    Ephemeris.t_oe eph = 0 /\
    Ephemeris.is_valid eph tm = false /\
    Satellite.select_ephemeris (Satellite.default uninit) tm
    = Some (false, Satellite.default uninit).
Proof.
  exists (Satellite.sentinel uninit).
  assert (Hv : Ephemeris.is_valid (Satellite.sentinel uninit) tm = false).
  { unfold Ephemeris.is_valid. apply leb_gt.
    cbn [Satellite.sentinel Ephemeris.fit_interval].
    apply Qlt_le_trans with 0; [reflexivity | apply Qabs_nonneg]. }
  repeat split; try reflexivity; try exact Hv.
  unfold Satellite.select_ephemeris, Satellite.ephemeris, Satellite.default,
    PropertyHistory.current.
  cbn [Satellite.eph_history PropertyHistory.history
       PropertyHistory.selected_index nth_error option_map PropertyHistory.prop].
  rewrite Hv. cbn [andb orb].
  unfold PropertyHistory.select.
  cbn [PropertyHistory.history PropertyHistory.selected_index nth_error
       skipn firstn PropertyHistory.select_loop].
  destruct (Float.geb _ 0); reflexivity.
Qed.

(** ** Kepler's equation *)

Section KeplerFacts.

Variable sin : Q -> Q.
Variable sqrt : Q -> Q.
Variable mu_Earth : Q.

(** The loop started at [Ek] with [n] iterations left stops at the [k]-th
    iterate of the fixed-point map, where [k] is the first index at which
    two successive iterates are closer than the limit, or [n]. *)
Lemma kepler_loop_iterates (eph : Ephemeris.t) (Mk : Q) (n : nat) :
  forall Ek,
  let F := Ephemeris.kepler_step sin eph Mk in
  exists k,
    (k <= n)%nat /\
    Ephemeris.kepler_loop sin eph Mk n Ek = Nat.iter k F Ek /\
    (forall j, (j < k)%nat ->
       Ephemeris.KEPLER_DELTA_LIMIT
       <= Qabs (Nat.iter (S j) F Ek - Nat.iter j F Ek)) /\
    (k = n \/
     Qabs (Nat.iter (S k) F Ek - Nat.iter k F Ek)
     < Ephemeris.KEPLER_DELTA_LIMIT).
Proof.
  induction n as [|n IH]; intros Ek F.
  - exists O. repeat split; auto. intros j Hj. inversion Hj.
  - cbn [Ephemeris.kepler_loop]. fold F.
    destruct (Float.ltb (Qabs (F Ek - Ek)) Ephemeris.KEPLER_DELTA_LIMIT) eqn:E.
    + exists O. repeat split.
      * apply Nat.le_0_l.
      * intros j Hj. inversion Hj.
      * right. apply ltb_lt in E. exact E.
    + destruct (IH (F Ek)) as (k & Hk & Heq & Hbefore & Hstop).
      fold F in Heq, Hbefore, Hstop.
      exists (S k). repeat split.
      * apply le_n_S, Hk.
      * rewrite Heq. symmetry. apply Nat.iter_succ_r.
      * intros [|j] Hj.
        -- apply ltb_ge in E. exact E.
        -- rewrite (Nat.iter_succ_r (S j) _ F Ek), (Nat.iter_succ_r j _ F Ek).
           apply Hbefore. apply Nat.succ_lt_mono. exact Hj.
      * destruct Hstop as [->|Hstop]; [left; reflexivity | right].
        rewrite (Nat.iter_succ_r (S k) _ F Ek), (Nat.iter_succ_r k _ F Ek). exact Hstop.
Qed.

(** C7: [eccentric_anomaly(tk)] computes [Mk = M0 + (n0 + delta_n) * tk]
    and iterates [E <- Mk + e * sin(E)] from [E = Mk].  The value returned
    is the [k]-th iterate for some [k <= 10]: no two successive iterates
    before it are closer than [1E-12], and either [k = 10] (the cap) or the
    next iterate is closer than [1E-12] to it (early stop). *)
Theorem eccentric_anomaly_iteration (eph : Ephemeris.t) (tk : Q) :
  let Mk :=
    Ephemeris.M0 eph
    + (sqrt mu_Earth / Ephemeris.pow3 (Ephemeris.sqrt_A eph)
       + Ephemeris.delta_n eph) * tk in
  let F := fun E => Mk + Ephemeris.e eph * sin E in
  exists k,
    (k <= 10)%nat /\
    Ephemeris.eccentric_anomaly sin sqrt mu_Earth eph tk = Nat.iter k F Mk /\
    (forall j, (j < k)%nat ->
       ~ Qabs (Nat.iter (S j) F Mk - Nat.iter j F Mk) < 1 # 1000000000000) /\
    (k = 10%nat \/
     Qabs (Nat.iter (S k) F Mk - Nat.iter k F Mk) < 1 # 1000000000000).
Proof.
  intros Mk F.
  destruct (kepler_loop_iterates eph Mk 10 Mk) as (k & Hk & Heq & Hbefore & Hstop).
  exists k. repeat split.
  - exact Hk.
  - exact Heq.
  - intros j Hj Hlt. apply (Qlt_not_le _ _ Hlt). apply (Hbefore j Hj).
  - exact Hstop.
Qed.

End KeplerFacts.

(** ** Back-Propagate synchronizer: eviction of old snapshots *)

Lemma rev_head_last {X : Type} (l : list X) (d : X) :
  l <> [] -> exists rest, rev l = last l d :: rest.
Proof.
  destruct (rev l) as [|b rest] eqn:E.
  - intro H. exfalso. apply H.
    rewrite <- (rev_involutive l), E. reflexivity.
  - intros _. exists rest. f_equal.
    rewrite <- (rev_involutive l), E. cbn [rev].
    symmetry. apply last_last.
Qed.

Section BackPropagateFacts.

Variable INS_GPS : Type.

(** The walk passes the snapshots that are not below the depth, rebasing
    each of them, and stops at the first one that is. *)
Lemma walk_reaches (depth mod_elapsedT : Q)
    (newer_rev : Back_Propagate.snapshots_t INS_GPS)
    (s : Back_Propagate.snapshot_content_t INS_GPS)
    (older_rev : Back_Propagate.snapshots_t INS_GPS) :
  (forall x, In x newer_rev ->
     depth <= Back_Propagate.elapsedT_from_last_correct x) ->
  Back_Propagate.elapsedT_from_last_correct s < depth ->
  Back_Propagate.walk depth mod_elapsedT (newer_rev ++ s :: older_rev)
  = map (Back_Propagate.rebase mod_elapsedT) newer_rev
    ++ (if Float.gtb mod_elapsedT Float.lit_0_1 then [] else s :: older_rev).
Proof.
  intros Hnewer Hs.
  induction newer_rev as [|x l IH]; cbn [app map Back_Propagate.walk].
  - apply ltb_lt in Hs. rewrite Hs. reflexivity.
  - assert (Hx : Float.ltb (Back_Propagate.elapsedT_from_last_correct x) depth
                 = false).
    { apply ltb_ge. apply Hnewer. left. reflexivity. }
    rewrite Hx. f_equal. apply IH.
    intros y Hy. apply Hnewer. right. exact Hy.
Qed.

(** C3, as the code has it: when the walk reaches a snapshot [s] below the
    depth (every newer snapshot being at or above it), the snapshots from
    the front up to and including [s] are erased exactly when
    [mod_elapsedT], the elapsed time of the newest snapshot on entry, is
    greater than the [double] 0.1, which is [3602879701896397 / 2^55]
    (so not at an elapsed time of 0.1 s itself); the newer snapshots stay,
    rebased by [mod_elapsedT].  When [s] is itself the newest snapshot and
    [mod_elapsedT] is greater than the [double] 0.1, the list is emptied
    and no correction is made. *)
Theorem walk_erases_iff_elapsed
    (correct_primitive :
       INS_GPS -> Matrix.mat_t -> Matrix.mat_t -> Matrix.mat_t -> INS_GPS)
    (depth : Q)
    (older : Back_Propagate.snapshots_t INS_GPS)
    (s : Back_Propagate.snapshot_content_t INS_GPS)
    (newer : Back_Propagate.snapshots_t INS_GPS) :
  let l := older ++ s :: newer in
  let mod_elapsedT :=
    Back_Propagate.elapsedT_from_last_correct (last newer s) in
  0 < mod_elapsedT ->
  (forall x, In x newer ->
     depth <= Back_Propagate.elapsedT_from_last_correct x) ->
  Back_Propagate.elapsedT_from_last_correct s < depth ->
  let double_0_1 := 3602879701896397 # 36028797018963968 in
  (double_0_1 < mod_elapsedT ->
   Back_Propagate.walk_snapshots depth l
   = map (Back_Propagate.rebase mod_elapsedT) newer)
  /\ (mod_elapsedT <= double_0_1 ->
      Back_Propagate.walk_snapshots depth l
      = older ++ s :: map (Back_Propagate.rebase mod_elapsedT) newer)
  /\ (double_0_1 < mod_elapsedT -> newer = [] ->
      forall H R v self,
      Back_Propagate.before_correct_INS correct_primitive H R v
        (Back_Propagate.mk self l depth)
      = Back_Propagate.mk self [] depth).
Proof.
  intros l mod_elapsedT Hmod Hnewer Hs double_0_1.
  change double_0_1 with Float.lit_0_1. clear double_0_1.
  assert (Hne : l <> []) by (unfold l; destruct older; discriminate).
  destruct (rev_head_last l s Hne) as [rest Hrev].
  assert (Hlast : last l s = last newer s).
  { unfold l. clear. induction older as [|o older' IH].
    - cbn [app]. destruct newer; reflexivity.
    - cbn [app]. rewrite <- IH. destruct (older' ++ s :: newer) eqn:E; [|reflexivity].
      destruct older'; discriminate. }
  assert (Hwalk : Back_Propagate.walk_snapshots depth l
                  = rev (Back_Propagate.walk depth mod_elapsedT (rev l))).
  { unfold Back_Propagate.walk_snapshots. rewrite Hrev, Hlast.
    fold mod_elapsedT. apply gtb_lt in Hmod. rewrite Hmod. reflexivity. }
  assert (Hrevl : rev l = rev newer ++ s :: rev older).
  { unfold l. rewrite rev_app_distr. cbn [rev]. rewrite <- app_assoc. reflexivity. }
  assert (Hreach :
    Back_Propagate.walk depth mod_elapsedT (rev l)
    = map (Back_Propagate.rebase mod_elapsedT) (rev newer)
      ++ (if Float.gtb mod_elapsedT Float.lit_0_1 then [] else s :: rev older)).
  { rewrite Hrevl. apply walk_reaches; [|exact Hs].
    intros x Hx. apply Hnewer. apply in_rev. exact Hx. }
  assert (Herase : Float.lit_0_1 < mod_elapsedT ->
    Back_Propagate.walk_snapshots depth l
    = map (Back_Propagate.rebase mod_elapsedT) newer).
  { intro Hgt. rewrite Hwalk, Hreach.
    apply gtb_lt in Hgt. rewrite Hgt. rewrite app_nil_r.
    rewrite <- map_rev, rev_involutive. reflexivity. }
  split; [exact Herase | split].
  - intro Hle. rewrite Hwalk, Hreach.
    apply gtb_le in Hle. rewrite Hle.
    rewrite rev_app_distr. cbn [rev]. rewrite rev_involutive.
    rewrite <- map_rev, rev_involutive. rewrite <- app_assoc. reflexivity.
  - intros Hgt Hnil H R v self.
    unfold Back_Propagate.before_correct_INS.
    cbn [Back_Propagate.snapshots Back_Propagate.back_propagate_depth
         Back_Propagate.self].
    rewrite (Herase Hgt), Hnil. cbn [map rev].
    destruct l eqn:El; [exfalso; apply Hne; reflexivity | reflexivity].
Qed.

End BackPropagateFacts.

(** Depth 0.5 s and snapshots with elapsed times 0.25, 0.375, 0.625 and
    0.75 s: the walk reaches the one at 0.375 s, and since 0.75 s is more
    than the [double] 0.1 the two oldest snapshots are erased. *)
Lemma walk_erases_iff_elapsed_witness :
  Back_Propagate.walk_snapshots (1 # 2)
    (map Examples.bp_snapshot [1 # 4; 3 # 8; 5 # 8; 3 # 4])
  = map (Back_Propagate.rebase (3 # 4))
      (map Examples.bp_snapshot [5 # 8; 3 # 4]).
Proof.
  refine (proj1 (walk_erases_iff_elapsed unit
                   Examples.bp_correct_primitive (1 # 2)
                   [Examples.bp_snapshot (1 # 4)]
                   (Examples.bp_snapshot (3 # 8))
                   (map Examples.bp_snapshot [5 # 8; 3 # 4]) _ _ _) _).
  - reflexivity.
  - intros x [<-|[<-|[]]]; vm_compute; discriminate.
  - reflexivity.
  - reflexivity.
Defined.

(** The constant of the guard lies above one tenth, and an elapsed time
    that is this constant (the [double] 0.1, as after one time update of
    0.1 s) is not above it: with the depth at 0.5 s the snapshot stays. *)
Lemma walk_keeps_at_double_one_tenth :
  1 # 10 < Float.lit_0_1
  /\ Float.lit_0_1 < (1 # 10) + (1 # 100000000000000000)
  /\ Back_Propagate.walk_snapshots (1 # 2)
       [Examples.bp_snapshot Float.lit_0_1]
     = [Examples.bp_snapshot Float.lit_0_1].
Proof.
  split; [reflexivity|]. split; [reflexivity|].
  vm_compute. reflexivity.
Qed.

(** C3 fails as stated.  After one time update of 0.05 s and with
    [back_propagate_depth = 0.5], the walk reaches the (only) snapshot,
    which is below the depth, and the depth is greater than 0.1 s; yet
    nothing is erased.  After one time update of 0.2 s instead, the only
    snapshot is erased and the list is left empty. *)
Lemma erase_not_decided_by_depth :
  let depth := Back_Propagate.back_propagate_depth Examples.bp_initial in
  let st1 := Examples.bp_after_update (1 # 20) in
  let st2 := Examples.bp_after_update (1 # 5) in
  1 # 10 < depth
  /\ map Back_Propagate.elapsedT_from_last_correct
       (Back_Propagate.snapshots st1) = [1 # 20]
  /\ 1 # 20 < depth
  /\ Back_Propagate.walk_snapshots depth (Back_Propagate.snapshots st1)
     = Back_Propagate.snapshots st1
  /\ length (Back_Propagate.snapshots
       (Back_Propagate.before_correct_INS Examples.bp_correct_primitive
          Examples.bp_H Examples.bp_R Examples.bp_v st1)) = 1%nat
  /\ length (Back_Propagate.snapshots st2) = 1%nat
  /\ Back_Propagate.snapshots
       (Back_Propagate.before_correct_INS Examples.bp_correct_primitive
          Examples.bp_H Examples.bp_R Examples.bp_v st2) = [].
Proof.
  cbv zeta. repeat split; vm_compute; reflexivity.
Qed.


(** ** Round trip of the broadcast form *)

(** The scale factors are positive. *)
Lemma sf_pos (i : raw_t.sf_index) : 0 < raw_t.sf i.
Proof. destruct i; reflexivity. Qed.

(** Truncation does not depend on the representation of the rational. *)
Lemma trunc_Qeq (x y : Q) : x == y -> Float.trunc x = Float.trunc y.
Proof.
  unfold Qeq, Float.trunc. intro H.
  rewrite <- (Z.quot_mul_cancel_r (Qnum x) (Zpos (Qden x)) (Zpos (Qden y)))
    by discriminate.
  rewrite <- (Z.quot_mul_cancel_r (Qnum y) (Zpos (Qden y)) (Zpos (Qden x)))
    by discriminate.
  rewrite H. f_equal. apply Z.mul_comm.
Qed.

(** Adding half a unit and truncating gives the integer back when it is
    not negative, and the next integer when it is negative. *)
Lemma trunc_plus_half (raw : Z) :
  Float.trunc (inject_Z raw + (1 # 2))
  = if (0 <=? raw)%Z then raw else (raw + 1)%Z.
Proof.
  unfold Float.trunc, Qplus, inject_Z. cbn [Qnum Qden].
  change (Z.pos (1 * 2)) with 2%Z.
  destruct (Z.leb_spec 0 raw) as [H|H].
  - symmetry. apply Z.quot_unique with 1%Z; lia.
  - replace (raw * 2 + 1 * 1)%Z with (- (- raw * 2 - 1))%Z by lia.
    rewrite Z.quot_opp_l by lia.
    rewrite <- (Z.quot_unique (- raw * 2 - 1) 2 (- raw - 1) 1); lia.
Qed.

(** What [CONVERT] of [operator=] computes on a value that [CONVERT] of
    [operator Ephemeris()] produced. *)
Lemma of_float_to_float (i : raw_t.sf_index) (raw : Z) :
  raw_t.of_float i (raw_t.to_float i raw)
  = Int32.s32_of_float (inject_Z raw + (1 # 2)).
Proof.
  unfold raw_t.of_float, raw_t.to_float, Int32.s32_of_float.
  assert (E : (raw_t.sf i * inject_Z raw + (1 # 2) * raw_t.sf i) / raw_t.sf i
              == inject_Z raw + (1 # 2)).
  { field. intro H. pose proof (sf_pos i) as P. rewrite H in P.
    discriminate P. }
  rewrite (trunc_Qeq _ _ E). reflexivity.
Qed.

(** Fields whose broadcast value fits a signed 32-bit integer survive the
    round trip within one unit of their scale: exactly when the value is
    not negative, one unit up when it is negative. *)
Lemma convert_round_trip (i : raw_t.sf_index) (raw : Z) :
  raw_t.in_range (raw_t.field_type_of i) raw ->
  (raw <= Int32.INT_MAX)%Z ->
  raw_t.convert i (raw_t.to_float i raw)
  = Some (if (0 <=? raw)%Z then raw else (raw + 1)%Z).
Proof.
  intros Hr Hmax. unfold raw_t.convert.
  rewrite of_float_to_float. unfold Int32.s32_of_float.
  rewrite trunc_plus_half.
  unfold Int32.INT_MAX in Hmax.
  assert (Hin : Int32.in_s32 (if (0 <=? raw)%Z then raw else (raw + 1)%Z)
                = true).
  { unfold Int32.in_s32, Int32.INT_MIN, Int32.INT_MAX.
    destruct (raw_t.field_type_of i); cbn [raw_t.in_range] in Hr;
      destruct (Z.leb_spec 0 raw); lia. }
  rewrite Hin. cbn [option_map]. f_equal.
  destruct (raw_t.field_type_of i); cbn [raw_t.in_range] in Hr;
    cbn [raw_t.store]; unfold Int32.to_unsigned, Int32.to_signed;
    destruct (Z.leb_spec 0 raw);
    try (rewrite Z.mod_small by lia; lia).
Qed.

(** C8 (the code departs from the claim): [operator=] casts every scaled
    field to [s32_t], also the unsigned 32-bit fields [e] and [sqrt_A].
    For the orbit of a GPS satellite [sqrt_A] is 2702000000 units, above
    [INT_MAX], so the cast is outside the range of [s32_t] and the round
    trip of the record has no defined result; a record whose [sqrt_A] fits
    is reproduced, negative fields one unit up. *)
Theorem round_trip_sqrt_A_overflows :
  let r := Examples.gps_raw in
  (forall i, raw_t.in_range (raw_t.field_type_of i) (raw_t.get i r))
  /\ Float.trunc ((Ephemeris.sqrt_A (raw_t.to_Ephemeris r)
                   + (1 # 2) * raw_t.sf raw_t.SF_sqrt_A)
                  / raw_t.sf raw_t.SF_sqrt_A) = 2702000000%Z
  /\ (Int32.INT_MAX < 2702000000)%Z
  /\ raw_t.convert raw_t.SF_sqrt_A (Ephemeris.sqrt_A (raw_t.to_Ephemeris r))
     = None
  /\ raw_t.of_Ephemeris (raw_t.to_Ephemeris r) = None
  /\ option_map
       (fun r' =>
          map (fun i => (raw_t.get i r'
                         - raw_t.get i Examples.low_orbit_raw)%Z)
            [raw_t.SF_t_GD; raw_t.SF_t_oc; raw_t.SF_a_f0; raw_t.SF_a_f1;
             raw_t.SF_sqrt_A; raw_t.SF_Omega0; raw_t.SF_c_is])
       (raw_t.of_Ephemeris (raw_t.to_Ephemeris Examples.low_orbit_raw))
     = Some [1; 0; 0; 1; 0; 1; 1]%Z.
Proof.
  cbv zeta.
  split.
  { intro i. destruct i; vm_compute; split; congruence. }
  split; [vm_compute; reflexivity|].
  split; [vm_compute; reflexivity|].
  split; [vm_compute; reflexivity|].
  split; vm_compute; reflexivity.
Qed.

(** ** Real-Time synchronizer: clock-jump detection *)

(** The test [(x >= y) || (x <= -y)] is [|x| >= y]. *)
Lemma abs_ge_iff (x y : Q) :
  Float.geb x y || Float.leb x (- y) = true <-> y <= Qabs x.
Proof.
  rewrite orb_true_iff, geb_le, leb_le.
  split.
  - intros [H|H].
    + apply Qle_trans with x; [exact H | apply Qle_Qabs].
    + rewrite <- Qabs_opp. apply Qle_trans with (- x); [lra | apply Qle_Qabs].
  - intro H. destruct (Qlt_le_dec x 0) as [Hn|Hp].
    + right. rewrite (Qabs_neg x) in H by lra. lra.
    + left. rewrite (Qabs_pos x Hp) in H. exact H.
Qed.

(** The test [(x < y) && (x > -y)] is [|x| < y]. *)
Lemma abs_lt_iff (x y : Q) :
  Float.ltb x y && Float.gtb x (- y) = true <-> Qabs x < y.
Proof.
  rewrite andb_true_iff, ltb_lt, gtb_lt, Qabs_Qlt_condition. tauto.
Qed.

(** [l[index] += v] adds [v] at [index] and nowhere else. *)
Lemma add_at_nth (l : list Q) (index : nat) (v : Q) (j : nat) :
  (index < length l)%nat ->
  nth j (Tightly.add_at l index v) 0
  = if Nat.eqb j index then nth j l 0 + v else nth j l 0.
Proof.
  revert index j. induction l as [|x l IH]; intros index j Hlt.
  - inversion Hlt.
  - destruct index as [|i]; destruct j as [|j];
      cbn [Tightly.add_at nth Nat.eqb]; try reflexivity.
    apply IH. cbn [length] in Hlt. lia.
Qed.

Section ClockJump.

Variable Base : Type.
Variable Solver : Type.
Variable Measurement : Type.
Variable P_SIZE_WITHOUT_CLOCK_ERROR : nat.
Variable correct_primitive :
  RealTime.INS_GPS Base -> CorrectInfo.t -> RealTime.INS_GPS Base.
Variable generator :
  RealTime.INS_GPS Base -> RealTime.raw_data_t Solver Measurement -> Q
  -> CorrectInfo.t.

(** A mean residual other than zero needs at least one row of [z]. *)
Lemma mean_nonzero_has_rows (index : nat) (info : CorrectInfo.t) :
  0 < Qabs (Tightly.range_residual_mean_ms P_SIZE_WITHOUT_CLOCK_ERROR
              index info) ->
  (Matrix.rows (CorrectInfo.z info) <? 1)%nat = false.
Proof.
  intro H. apply Nat.ltb_ge.
  destruct (Matrix.rows (CorrectInfo.z info)) as [|n] eqn:E; [|lia].
  exfalso. revert H.
  unfold Tightly.range_residual_mean_ms, Tightly.range_residual_sum.
  rewrite E. cbn. discriminate.
Qed.

(** The loop of [range_residual_mean_ms] adds up, in the order of the
    rows, the residuals of the rows whose entry of H in the column of the
    clock is at most -0.5, and counts them. *)
Lemma residual_sum_rows (index : nat) (info : CorrectInfo.t)
    (idxs : list nat) (a : Q) (n : nat) :
  let range_rows :=
    filter (fun i =>
              Qle_bool
                (Matrix.at_ (CorrectInfo.H info) i
                   (P_SIZE_WITHOUT_CLOCK_ERROR + index * 2)%nat)
                (- (1 # 2))) idxs in
  fold_left (Tightly.residual_step P_SIZE_WITHOUT_CLOCK_ERROR index info)
    idxs (a, n)
  = (fold_left (fun acc i => acc + Matrix.at_ (CorrectInfo.z info) i 0)
       range_rows a,
     (n + length range_rows)%nat).
Proof.
  cbv zeta. revert a n.
  induction idxs as [|i idxs IH]; intros a n; cbn [fold_left filter].
  - cbn [length]. rewrite Nat.add_0_r. reflexivity.
  - unfold Tightly.residual_step at 2. unfold Float.gtb, Float.ltb.
    destruct (Qle_bool
                (Matrix.at_ (CorrectInfo.H info) i
                   (P_SIZE_WITHOUT_CLOCK_ERROR + index * 2)%nat)
                (- (1 # 2))); cbn [negb fst snd].
    + rewrite IH. cbn [fold_left length]. rewrite Nat.add_succ_r.
      reflexivity.
    + apply IH.
Qed.

(** [range_residual_mean_ms] written out: the mean of those residuals,
    divided by the speed of light and by 1E-3, and zero when there is no
    such row. *)
Lemma range_residual_mean_ms_rows (index : nat) (info : CorrectInfo.t) :
  let range_rows :=
    filter (fun i =>
              Qle_bool
                (Matrix.at_ (CorrectInfo.H info) i
                   (P_SIZE_WITHOUT_CLOCK_ERROR + index * 2)%nat)
                (- (1 # 2)))
      (seq 0 (Matrix.rows (CorrectInfo.z info))) in
  Tightly.range_residual_mean_ms P_SIZE_WITHOUT_CLOCK_ERROR index info
  = match range_rows with
    | [] => 0
    | _ :: _ =>
        fold_left (fun acc i => acc + Matrix.at_ (CorrectInfo.z info) i 0)
          range_rows 0
        / inject_Z (Z.of_nat (length range_rows))
        / 299792458 / (1 # 1000)
    end.
Proof.
  cbv zeta.
  unfold Tightly.range_residual_mean_ms, Tightly.range_residual_sum.
  rewrite residual_sum_rows. cbn [Nat.add].
  destruct (filter _ _) as [|i l]; reflexivity.
Qed.

(** C1: when the mean range residual of the bundle, in milliseconds, is at
    least 0.9 in absolute value, the corrector takes the shift
    [c * 1E-3 * floor(mean_ms + 0.5)] (the mean rounded to the nearest
    integer), generates the correction again from the oldest retained
    snapshot with that shift, and looks at the new mean: below 0.9 ms in
    absolute value, the shift is added to the clock error of every retained
    snapshot and of the live filter, and the filter becomes the primitive
    update of the shifted filter with the new correction, compensated
    over the shifted snapshots, which stay in the list; otherwise the
    state is left as it is and nothing is applied.  The mean is the sum of
    [z(i, 0)] over the rows [i] with [H(i, column of the clock) <= -0.5],
    in the order of the rows, divided by their number, by the speed of
    light and by 1E-3, and zero without such a row. *)
Theorem clock_jump_detection
    (st : RealTime.t Base) (gps : RealTime.raw_data_t Solver Measurement)
    (front : RealTime.snapshot_content_t Base)
    (rest : RealTime.snapshots_t Base) :
  RealTime.snapshots st = front :: rest ->
  let index := Tightly.clock_index gps in
  let mean_ms :=
    Tightly.range_residual_mean_ms P_SIZE_WITHOUT_CLOCK_ERROR index in
  let delta_ms := mean_ms (generator (RealTime.ins_gps front) gps 0) in
  9 # 10 <= Qabs delta_ms ->
  let shift :=
    Tightly.light_speed * (1 # 1000)
    * inject_Z (Qfloor (delta_ms + (1 # 2))) in
  let info := generator (RealTime.ins_gps front) gps shift in
  let add_shift (x : RealTime.INS_GPS Base) : RealTime.INS_GPS Base :=
    {| Tightly.m_clock_error :=
         Tightly.add_at (Tightly.m_clock_error x) index shift;
       Tightly.m_clock_error_rate := Tightly.m_clock_error_rate x;
       Tightly.base := Tightly.base x |} in
  let shifted_snapshots :=
    map (fun s =>
           {| RealTime.ins_gps := add_shift (RealTime.ins_gps s);
              RealTime.A := RealTime.A s;
              RealTime.Phi_inv := RealTime.Phi_inv s;
              RealTime.GQGt := RealTime.GQGt s;
              RealTime.elapsedT_from_last_update :=
                RealTime.elapsedT_from_last_update s |})
      (RealTime.snapshots st) in
  (Qabs (mean_ms info) < 9 # 10 ->
   RealTime.correct2_tightly P_SIZE_WITHOUT_CLOCK_ERROR correct_primitive
     generator st gps
   = Some ([RealTime.Detect_receiver_clock_jump delta_ms; RealTime.Fixed],
           {| RealTime.self :=
                correct_primitive (add_shift (RealTime.self st))
                  (RealTime.compensate (RealTime.rt_mode st)
                     shifted_snapshots info);
              RealTime.snapshots := shifted_snapshots;
              RealTime.rt_mode := RealTime.rt_mode st |}))
  /\ (9 # 10 <= Qabs (mean_ms info) ->
      RealTime.correct2_tightly P_SIZE_WITHOUT_CLOCK_ERROR correct_primitive
        generator st gps
      = Some ([RealTime.Detect_receiver_clock_jump delta_ms;
               RealTime.Skipped], st))
  /\ ((index < length (Tightly.m_clock_error (RealTime.self st)))%nat ->
      Tightly.clock_error (add_shift (RealTime.self st)) index
      = Tightly.clock_error (RealTime.self st) index + shift)
  /\ (Forall (fun s => (index < length (Tightly.m_clock_error
                                          (RealTime.ins_gps s)))%nat)
        (RealTime.snapshots st) ->
      map (fun s => Tightly.clock_error (RealTime.ins_gps s) index)
        shifted_snapshots
      = map (fun s => Tightly.clock_error (RealTime.ins_gps s) index + shift)
          (RealTime.snapshots st))
  /\ (forall (x : RealTime.INS_GPS Base) (j : nat),
        (index < length (Tightly.m_clock_error x))%nat -> j <> index ->
        Tightly.clock_error (add_shift x) j = Tightly.clock_error x j)
  /\ (forall i0 : CorrectInfo.t,
        let range_rows :=
          filter (fun i =>
                    Qle_bool
                      (Matrix.at_ (CorrectInfo.H i0) i
                         (P_SIZE_WITHOUT_CLOCK_ERROR + index * 2)%nat)
                      (- (1 # 2)))
            (seq 0 (Matrix.rows (CorrectInfo.z i0))) in
        mean_ms i0
        = match range_rows with
          | [] => 0
          | _ :: _ =>
              fold_left
                (fun acc i => acc + Matrix.at_ (CorrectInfo.z i0) i 0)
                range_rows 0
              / inject_Z (Z.of_nat (length range_rows))
              / 299792458 / (1 # 1000)
          end).
Proof.
  intros Hsnap index mean_ms delta_ms Hjump shift info add_shift
    shifted_snapshots.
  assert (Hrows :
    (Matrix.rows (CorrectInfo.z (generator (RealTime.ins_gps front) gps 0))
     <? 1)%nat = false).
  { apply (mean_nonzero_has_rows index). fold mean_ms. fold delta_ms.
    apply Qlt_le_trans with (9 # 10); [reflexivity | exact Hjump]. }
  assert (Htest : Float.geb delta_ms (9 # 10)
                  || Float.leb delta_ms (- (9 # 10)) = true).
  { apply abs_ge_iff. exact Hjump. }
  split; [|split; [|split; [|split; [|split]]]].
  - intro Hfixed. apply abs_lt_iff in Hfixed.
    unfold RealTime.correct2_tightly, RealTime.range_residual_mean_ms,
      RealTime.clock_error_shift_of, Float.floor.
    rewrite Hsnap.
    unfold shifted_snapshots, add_shift, info, shift, delta_ms, mean_ms,
      index in *.
    rewrite Hrows, Htest, Hfixed. reflexivity.
  - intro Hskip.
    assert (Hno : Float.ltb (mean_ms info) (9 # 10)
                  && Float.gtb (mean_ms info) (- (9 # 10)) = false).
    { destruct (Float.ltb (mean_ms info) (9 # 10)
                && Float.gtb (mean_ms info) (- (9 # 10))) eqn:E; [|reflexivity].
      apply abs_lt_iff in E. exfalso. apply (Qlt_not_le _ _ E Hskip). }
    unfold RealTime.correct2_tightly, RealTime.range_residual_mean_ms,
      RealTime.clock_error_shift_of, Float.floor.
    rewrite Hsnap.
    unfold info, shift, delta_ms, mean_ms, index in *.
    rewrite Hrows, Htest, Hno. reflexivity.
  - intro Hidx.
    unfold add_shift, Tightly.clock_error. cbn [Tightly.m_clock_error].
    rewrite add_at_nth by exact Hidx. rewrite Nat.eqb_refl. reflexivity.
  - intro Hall. unfold shifted_snapshots.
    rewrite map_map.
    apply map_ext_in. intros s Hs.
    cbn [RealTime.ins_gps]. unfold add_shift, Tightly.clock_error.
    cbn [Tightly.m_clock_error].
    rewrite Forall_forall in Hall.
    rewrite add_at_nth by (apply Hall; exact Hs).
    rewrite Nat.eqb_refl. reflexivity.
  - intros x j Hidx Hj.
    unfold add_shift, Tightly.clock_error. cbn [Tightly.m_clock_error].
    rewrite add_at_nth by exact Hidx.
    apply Nat.eqb_neq in Hj. rewrite Hj. reflexivity.
  - intro i0. apply range_residual_mean_ms_rows.
Qed.

End ClockJump.

(** One satellite whose pseudorange is 300 km (about 1.0007 ms) too long,
    and a primitive update that puts the residual of the first row on the
    clock error: the jump is detected and fixed, the snapshots carry a
    clock error of one light-millisecond afterwards, and the filter, shifted
    by as much and then updated with the residual that is left, has the
    clock error 300 km. *)
Lemma clock_jump_detection_witness :
  exists delta_ms st',
    RealTime.correct2_tightly 0 Examples.cj_residual_primitive
      Examples.cj_generator Examples.example_rt_state Examples.cj_gps
    = Some ([RealTime.Detect_receiver_clock_jump delta_ms; RealTime.Fixed],
            st')
    /\ 9 # 10 <= Qabs delta_ms
    /\ Forall (fun s =>
                 Tightly.clock_error (RealTime.ins_gps s) 0
                 == 299792458 # 1000)
         (RealTime.snapshots st')
    /\ length (RealTime.snapshots st') = 2%nat
    /\ Tightly.clock_error (RealTime.self st') 0 == 300000.
Proof.
  eexists. eexists. split.
  - refine (proj1 (clock_jump_detection unit unit unit 0%nat
                     Examples.cj_residual_primitive Examples.cj_generator
                     Examples.example_rt_state Examples.cj_gps
                     Examples.example_rt_snapshot
                     [Examples.example_rt_snapshot] eq_refl _) _).
    + vm_compute. discriminate.
    + vm_compute. reflexivity.
  - split; [vm_compute; discriminate|].
    split; [repeat constructor; vm_compute; reflexivity|].
    split; vm_compute; reflexivity.
Defined.

(** The generator that [correct2] passes on, [CorrectInfoGenerator],
    assembles the rows for a receiver whose predicted clock error is the
    stored one plus the shift. *)
Lemma generator_shifts_predicted_clock
    (Base Solver Measurement : Type) (CLOCKS_SUPPORTED : nat)
    (assemble : Solver -> Tightly.ins_t Base -> Measurement ->
                Tightly.receiver_state_t -> CorrectInfo.t)
    (x : Tightly.ins_t Base) (gps : Tightly.raw_data_t Solver Measurement)
    (sv : Solver) (clock_error_shift : Q) :
  (Tightly.clock_index gps < CLOCKS_SUPPORTED)%nat ->
  Tightly.solver gps = Some sv ->
  exists rs,
    Tightly.CorrectInfoGenerator CLOCKS_SUPPORTED assemble x gps
      clock_error_shift
    = assemble sv x (Tightly.measurement gps) rs
    /\ Tightly.rs_clock_error rs
       = Tightly.clock_error x (Tightly.clock_index gps) + clock_error_shift
    /\ Tightly.rs_clock_index rs = Tightly.clock_index gps.
Proof.
  intros Hidx Hsv.
  unfold Tightly.CorrectInfoGenerator, Tightly.correct_info.
  apply Nat.leb_gt in Hidx. rewrite Hidx, Hsv.
  eexists. split; [reflexivity | split; reflexivity].
Qed.

(** ** Real-Time synchronizer: the two compensation modes *)

Lemma sum_n_ext (n : nat) (f g : nat -> Q) :
  (forall k, (k < n)%nat -> f k == g k) ->
  Matrix.sum_n n f == Matrix.sum_n n g.
Proof.
  induction n as [|n IH]; intro H; cbn [Matrix.sum_n].
  - reflexivity.
  - rewrite IH, (H n) by auto with arith. reflexivity.
Qed.

Lemma mat_eq_refl (a : Matrix.mat_t) : a =m a.
Proof. repeat split; reflexivity. Qed.

Lemma mat_eq_sym (a b : Matrix.mat_t) : a =m b -> b =m a.
Proof.
  intros (Hr & Hc & He). repeat split; auto.
  intros i j Hi Hj. symmetry. apply He; congruence.
Qed.

Lemma mat_eq_trans (a b c : Matrix.mat_t) : a =m b -> b =m c -> a =m c.
Proof.
  intros (Hr & Hc & He) (Hr' & Hc' & He'). repeat split; try congruence.
  intros i j Hi Hj. rewrite He by assumption. apply He'; congruence.
Qed.

Section OneSnapshot.

Variable Base : Type.

(** C2, as the code has it: with exactly one retained snapshot,
    [RT_NORMAL] gives [H' = H * Phi_inv] and [R + H' * GQGt * H'^T] with
    the updated [H'], whereas [RT_LIGHT_WEIGHT] gives
    [H * (I - A * deltaT)] and [R + H * GQGt * H^T] with the original [H]. *)
Theorem one_snapshot_compensation
    (s : RealTime.snapshot_content_t Base) (info : CorrectInfo.t) :
  let H := CorrectInfo.H info in
  let R := CorrectInfo.R info in
  let deltaT := RealTime.elapsedT_from_last_update s in
  let H' := (H * RealTime.Phi_inv s)%mat in
  let normal := RealTime.compensate RealTime.RT_NORMAL [s] info in
  let light := RealTime.compensate RealTime.RT_LIGHT_WEIGHT [s] info in
  Matrix.columns (RealTime.GQGt s) = Matrix.columns H ->
  CorrectInfo.H normal = H'
  /\ CorrectInfo.R normal
     = (R + H' * RealTime.GQGt s * Matrix.transpose H')%mat
  /\ CorrectInfo.H light
     =m (H * (Matrix.getI (Matrix.columns H)
              - Matrix.scale (RealTime.A s) deltaT))%mat
  /\ CorrectInfo.R light
     =m (R + H * RealTime.GQGt s * Matrix.transpose H)%mat.
Proof.
  intros H R deltaT H' normal light Hdim.
  split; [reflexivity | split; [reflexivity | split]].
  - unfold light, RealTime.compensate, RealTime.compensate_light_weight.
    cbn [fold_left length CorrectInfo.H]. fold H. fold deltaT.
    repeat split.
    intros i j _ _.
    cbn [Matrix.at_ Matrix.mul Matrix.sub Matrix.add Matrix.scale Matrix.getI
         Matrix.zeros Matrix.rows Matrix.columns].
    apply sum_n_ext. intros k _.
    change (inject_Z (Z.of_nat 1)) with 1. field.
  - unfold light, RealTime.compensate, RealTime.compensate_light_weight.
    cbn [fold_left length CorrectInfo.R CorrectInfo.H]. fold H. fold R.
    fold deltaT.
    repeat split.
    intros i j _ _.
    cbn [Matrix.at_ Matrix.mul Matrix.sub Matrix.add Matrix.scale Matrix.getI
         Matrix.zeros Matrix.rows Matrix.columns Matrix.transpose].
    rewrite Hdim.
    apply Qplus_comp; [reflexivity|].
    apply sum_n_ext. intros k _.
    apply Qmult_comp; [|reflexivity].
    apply sum_n_ext. intros k' _.
    change (inject_Z (Z.of_nat 1 - 1)) with 0.
    change (inject_Z (2 * Z.of_nat 1)) with 2.
    change (inject_Z (Z.of_nat 1)) with 1. field.
Qed.

End OneSnapshot.

Lemma one_snapshot_compensation_witness :
  Matrix.columns (RealTime.GQGt Examples.clock_snapshot)
  = Matrix.columns (CorrectInfo.H Examples.clock_info)
  /\ CorrectInfo.H
       (RealTime.compensate RealTime.RT_LIGHT_WEIGHT
          [Examples.clock_snapshot] Examples.clock_info)
     =m (CorrectInfo.H Examples.clock_info
         * (Matrix.getI 2
            - Matrix.scale Examples.clock_A Examples.clock_deltaT))%mat.
Proof.
  split; [reflexivity|].
  exact (proj1 (proj2 (proj2
           (one_snapshot_compensation unit Examples.clock_snapshot
              Examples.clock_info eq_refl)))).
Defined.

(** C2 fails as stated.  Take the clock channel of the filter after one
    time update of 10 ms: the stored [Phi_inv] is the inverse of
    [Phi = I + A * deltaT].  [RT_NORMAL] multiplies H by [Phi_inv], whose
    first diagonal entry is 100/99, [RT_LIGHT_WEIGHT] by [I - A * deltaT],
    whose first diagonal entry is 101/100; and R differs as well, because
    the one mode uses the updated H and the other the original H. *)
Lemma modes_differ_with_one_snapshot :
  let s := Examples.clock_snapshot in
  let info := Examples.clock_info in
  let Phi :=
    (Matrix.getI 2
     + Matrix.scale (RealTime.A s) (RealTime.elapsedT_from_last_update s))%mat in
  let normal := RealTime.compensate RealTime.RT_NORMAL [s] info in
  let light := RealTime.compensate RealTime.RT_LIGHT_WEIGHT [s] info in
  (Phi * RealTime.Phi_inv s)%mat =m Matrix.getI 2
  /\ (RealTime.Phi_inv s * Phi)%mat =m Matrix.getI 2
  /\ Matrix.to_rows (CorrectInfo.H normal) = [[- (100 # 99); 100 # 9801]]
  /\ Matrix.to_rows (CorrectInfo.H light) = [[- (101 # 100); 1 # 100]]
  /\ ~ CorrectInfo.H normal =m CorrectInfo.H light
  /\ ~ CorrectInfo.R normal =m CorrectInfo.R light.
Proof.
  cbv zeta.
  assert (Hinv : forall a b : Matrix.mat_t,
            Matrix.rows a = 2%nat -> Matrix.columns a = 2%nat ->
            Matrix.rows b = 2%nat -> Matrix.columns b = 2%nat ->
            Matrix.at_ a 0 0 == Matrix.at_ b 0 0 ->
            Matrix.at_ a 0 1 == Matrix.at_ b 0 1 ->
            Matrix.at_ a 1 0 == Matrix.at_ b 1 0 ->
            Matrix.at_ a 1 1 == Matrix.at_ b 1 1 -> a =m b).
  { intros a b Hra Hca Hrb Hcb H00 H01 H10 H11.
    repeat split; try congruence.
    intros i j Hi Hj. rewrite Hra in Hi. rewrite Hca in Hj.
    destruct i as [|[|i]]; destruct j as [|[|j]]; try lia; assumption. }
  split; [apply Hinv; vm_compute; reflexivity|].
  split; [apply Hinv; vm_compute; reflexivity|].
  split; [vm_compute; reflexivity|].
  split; [vm_compute; reflexivity|].
  split.
  - intros (_ & _ & He).
    specialize (He 0%nat 0%nat (Nat.lt_0_succ 0) (Nat.lt_0_succ 1)).
    vm_compute in He. discriminate He.
  - intros (_ & _ & He).
    specialize (He 0%nat 0%nat (Nat.lt_0_succ 0) (Nat.lt_0_succ 0)).
    vm_compute in He. discriminate He.
Qed.

(** ** Selection of the ephemeris *)

Section SelectFacts.

Variable PropertyT : Type.
Variable target_time : GPS_Time.t.
Variable is_valid : PropertyT -> GPS_Time.t -> bool.
Variable get_delta_t : option (PropertyT -> GPS_Time.t -> Q).

Lemma abs_delta_Qabs (it : PropertyHistory.item_t PropertyT) :
  PropertyHistory.abs_delta target_time get_delta_t it == Qabs (PropertyHistory.delta_of target_time get_delta_t it).
Proof.
  unfold PropertyHistory.abs_delta.
  destruct (Float.ltb _ 0) eqn:E.
  - apply ltb_lt in E. rewrite Qabs_neg by lra. ring.
  - apply ltb_ge in E. rewrite Qabs_pos by exact E. reflexivity.
Qed.

(** One step of the loop either leaves the cursor alone or moves it to the
    item, which is then valid and strictly closer. *)
Lemma select_step_cases (idx : nat) (it : PropertyHistory.item_t PropertyT)
    (c : PropertyHistory.cursor) :
  let c' := PropertyHistory.select_step target_time is_valid get_delta_t
              idx it c in
  (c' = c /\
   (is_valid (PropertyHistory.prop it) target_time = true ->
    PropertyHistory.cur_delta_t c <= PropertyHistory.abs_delta target_time get_delta_t it
    \/ (PropertyHistory.changed c = true
        /\ PropertyHistory.cur_t_tag c = PropertyHistory.t_tag it)))
  \/ (c' = PropertyHistory.mk_cursor true (PropertyHistory.t_tag it)
            (PropertyHistory.abs_delta target_time get_delta_t it) idx
      /\ is_valid (PropertyHistory.prop it) target_time = true
      /\ PropertyHistory.abs_delta target_time get_delta_t it < PropertyHistory.cur_delta_t c).
Proof.
  unfold PropertyHistory.select_step.
  destruct (PropertyHistory.changed c
            && (PropertyHistory.cur_t_tag c =? PropertyHistory.t_tag it)%Z)
    eqn:Eskip.
  - left. split; [reflexivity|]. intros _. right.
    apply andb_true_iff in Eskip. destruct Eskip as [Hc Ht].
    apply Z.eqb_eq in Ht. auto.
  - destruct (is_valid (PropertyHistory.prop it) target_time) eqn:Ev;
      cbn [negb].
    + destruct (Float.gtb (PropertyHistory.cur_delta_t c) (PropertyHistory.abs_delta target_time get_delta_t it))
        eqn:Eg.
      * right. apply gtb_lt in Eg. auto.
      * left. split; [reflexivity|]. intros _. left.
        apply gtb_le in Eg. exact Eg.
    + left. split; [reflexivity|]. intro H. discriminate H.
Qed.

(** The loop of [select] over the items [its], the first of which is at
    position [idx]: the distance of the cursor never grows; the cursor is
    either untouched or sits on a valid item of [its] that is strictly
    closer than the initial distance; and no valid item of [its] is
    strictly closer than the final cursor, unless it shares its time tag
    with a valid item before it or with the initial cursor. *)
Lemma select_loop_spec (its : list (PropertyHistory.item_t PropertyT)) :
  forall (idx : nat) (c : PropertyHistory.cursor),
  let c' := PropertyHistory.select_loop target_time is_valid get_delta_t
              idx its c in
  PropertyHistory.cur_delta_t c' <= PropertyHistory.cur_delta_t c
  /\ (c' = c
      \/ (PropertyHistory.changed c' = true
          /\ exists k it,
               nth_error its k = Some it
               /\ PropertyHistory.cur_index c' = (idx + k)%nat
               /\ is_valid (PropertyHistory.prop it) target_time = true
               /\ PropertyHistory.cur_delta_t c' = PropertyHistory.abs_delta target_time get_delta_t it
               /\ PropertyHistory.cur_delta_t c'
                  < PropertyHistory.cur_delta_t c))
  /\ (forall k it,
        nth_error its k = Some it ->
        is_valid (PropertyHistory.prop it) target_time = true ->
        PropertyHistory.cur_delta_t c' <= PropertyHistory.abs_delta target_time get_delta_t it
        \/ (exists k' it',
              (k' < k)%nat /\ nth_error its k' = Some it'
              /\ is_valid (PropertyHistory.prop it') target_time = true
              /\ PropertyHistory.t_tag it' = PropertyHistory.t_tag it)
        \/ (PropertyHistory.changed c = true
            /\ PropertyHistory.cur_t_tag c = PropertyHistory.t_tag it)).
Proof.
  induction its as [|it0 rest IH]; intros idx c; cbn [PropertyHistory.select_loop].
  - cbv zeta. split; [apply Qle_refl|]. split; [left; reflexivity|].
    intros [|k] it H; discriminate H.
  - cbv zeta.
    set (c1 := PropertyHistory.select_step target_time is_valid get_delta_t
                 idx it0 c).
    destruct (IH (S idx) c1) as (Hmono & Hpos & Hmin). cbv zeta in *.
    set (c' := PropertyHistory.select_loop target_time is_valid get_delta_t
                 (S idx) rest c1) in *.
    pose proof (select_step_cases idx it0 c) as Hstep. cbv zeta in Hstep.
    fold c1 in Hstep.
    assert (Hmono1 : PropertyHistory.cur_delta_t c1
                     <= PropertyHistory.cur_delta_t c).
    { destruct Hstep as [[-> _]|(-> & _ & Hlt)]; [apply Qle_refl|].
      cbn [PropertyHistory.cur_delta_t]. apply Qlt_le_weak, Hlt. }
    split; [apply Qle_trans with (PropertyHistory.cur_delta_t c1); assumption|].
    split.
    + destruct Hpos as [Hsame|(Hch & k & it & Hnth & Hidx & Hv & Hd & Hlt)].
      * rewrite Hsame.
        destruct Hstep as [[-> _]|(Hc1 & Hv0 & Hlt0)]; [left; reflexivity|].
        right. rewrite Hc1. cbn [PropertyHistory.changed
          PropertyHistory.cur_index PropertyHistory.cur_delta_t].
        split; [reflexivity|]. exists O, it0. cbn [nth_error].
        repeat split; auto; try apply Nat.add_0_r.
      * right. split; [exact Hch|]. exists (S k), it. cbn [nth_error].
        repeat split; auto.
        -- rewrite Hidx. lia.
        -- apply Qlt_le_trans with (PropertyHistory.cur_delta_t c1); assumption.
    + intros [|k] it Hnth Hv; cbn [nth_error] in Hnth.
      * injection Hnth as <-.
        destruct Hstep as [[Hc1 Hcase]|(Hc1 & _ & _)].
        -- destruct (Hcase Hv) as [Hle|Hshadow]; [left | right; right; exact Hshadow].
           apply Qle_trans with (PropertyHistory.cur_delta_t c1); [exact Hmono|].
           rewrite Hc1. exact Hle.
        -- left. apply Qle_trans with (PropertyHistory.cur_delta_t c1);
             [exact Hmono|].
           rewrite Hc1. cbn [PropertyHistory.cur_delta_t]. apply Qle_refl.
      * destruct (Hmin k it Hnth Hv)
          as [Hle|[(k' & it' & Hlt & Hnth' & Hv' & Ht')|(Hch1 & Ht1)]].
        -- left. exact Hle.
        -- right. left. exists (S k'), it'. cbn [nth_error].
           repeat split; auto. lia.
        -- destruct Hstep as [[Hc1 _]|(Hc1 & Hv0 & _)].
           ++ right. right. rewrite Hc1 in Hch1, Ht1. auto.
           ++ right. left. exists O, it0. cbn [nth_error].
              rewrite Hc1 in Ht1. cbn [PropertyHistory.cur_t_tag] in Ht1.
              repeat split; auto. lia.
Qed.

(** [select]: the search covers one side of the current selection only,
    the later positions when the current item has [delta_t >= 0] and the
    earlier ones otherwise.  The flag tells whether the selection moved;
    it moves to a valid item of that side that is strictly closer than the
    current one, and no valid item of that side is strictly closer than
    the final selection unless a valid item of the same time tag comes
    before it on that side. *)
Lemma select_spec (h : PropertyHistory.t PropertyT)
    (it_selected : PropertyHistory.item_t PropertyT) :
  nth_error (PropertyHistory.history h) (PropertyHistory.selected_index h)
  = Some it_selected ->
  let delta := PropertyHistory.delta_of target_time get_delta_t in
  let sel := PropertyHistory.selected_index h in
  let side :=
    if Float.geb (delta it_selected) 0
    then skipn (S sel) (PropertyHistory.history h)
    else firstn sel (PropertyHistory.history h) in
  let offset := if Float.geb (delta it_selected) 0 then S sel else O in
  exists b h' it',
    PropertyHistory.select target_time is_valid get_delta_t h = Some (b, h')
    /\ PropertyHistory.history h' = PropertyHistory.history h
    /\ nth_error (PropertyHistory.history h)
         (PropertyHistory.selected_index h') = Some it'
    /\ (b = false -> h' = h)
    /\ (b = true ->
        PropertyHistory.selected_index h' <> sel
        /\ (exists k, nth_error side k = Some it'
                      /\ PropertyHistory.selected_index h' = (offset + k)%nat)
        /\ is_valid (PropertyHistory.prop it') target_time = true
        /\ Qabs (delta it') < Qabs (delta it_selected))
    /\ (forall k it,
          nth_error side k = Some it ->
          is_valid (PropertyHistory.prop it) target_time = true ->
          Qabs (delta it') <= Qabs (delta it)
          \/ (exists k' it'',
                (k' < k)%nat /\ nth_error side k' = Some it''
                /\ is_valid (PropertyHistory.prop it'') target_time = true
                /\ PropertyHistory.t_tag it'' = PropertyHistory.t_tag it)).
Proof.
  intros Hsel delta sel side offset.
  unfold PropertyHistory.select. rewrite Hsel. fold delta. fold sel.
  set (c0 := PropertyHistory.mk_cursor false
               (PropertyHistory.t_tag it_selected)
               (if Float.geb (delta it_selected) 0
                then delta it_selected else delta it_selected * (-1))
               sel).
  assert (Hc0 : PropertyHistory.cur_delta_t c0 == Qabs (delta it_selected)).
  { unfold c0. cbn [PropertyHistory.cur_delta_t].
    destruct (Float.geb (delta it_selected) 0) eqn:E.
    - apply geb_le in E. rewrite Qabs_pos by exact E. reflexivity.
    - apply geb_lt in E. rewrite Qabs_neg by lra. ring. }
  set (c := PropertyHistory.select_loop target_time is_valid get_delta_t
              offset side c0).
  assert (Hres :
    (if Float.geb (delta it_selected) 0
     then PropertyHistory.select_loop target_time is_valid get_delta_t
            (S sel) (skipn (S sel) (PropertyHistory.history h))
            (PropertyHistory.mk_cursor false
               (PropertyHistory.t_tag it_selected) (delta it_selected) sel)
     else PropertyHistory.select_loop target_time is_valid get_delta_t
            0 (firstn sel (PropertyHistory.history h))
            (PropertyHistory.mk_cursor false
               (PropertyHistory.t_tag it_selected)
               (delta it_selected * (-1)) sel)) = c).
  { unfold c, c0, side, offset.
    destruct (Float.geb (delta it_selected) 0); reflexivity. }
  rewrite Hres.
  destruct (select_loop_spec side offset c0) as (Hmono & Hpos & Hmin).
  cbv zeta in Hmono, Hpos, Hmin. fold c in Hmono, Hpos, Hmin.
  assert (Hside : forall k it, nth_error side k = Some it ->
            nth_error (PropertyHistory.history h) (offset + k) = Some it
            /\ (offset + k)%nat <> sel).
  { intros k it Hk. unfold side, offset in *.
    destruct (Float.geb (delta it_selected) 0).
    - rewrite nth_error_skipn in Hk. split; [exact Hk | lia].
    - rewrite nth_error_firstn in Hk.
      destruct (Nat.ltb_spec k sel) as [Hlt|Hge]; [|discriminate Hk].
      split; [exact Hk | cbn; lia]. }
  destruct Hpos as [Hsame|(Hch & k & it & Hnth & Hidx & Hv & Hd & Hlt)].
  - exists false, (PropertyHistory.mk (PropertyHistory.history h) sel),
      it_selected.
    rewrite Hsame. unfold c0 at 1 2.
    cbn [PropertyHistory.changed PropertyHistory.cur_index
         PropertyHistory.history PropertyHistory.selected_index].
    split; [reflexivity|]. split; [reflexivity|]. split; [exact Hsel|].
    split; [intros _; unfold sel; destruct h; reflexivity|].
    split; [discriminate|].
    intros k it Hk Hv.
    destruct (Hmin k it Hk Hv) as [Hle|[Hshadow|[Hch _]]].
    + left. rewrite Hsame, Hc0, abs_delta_Qabs in Hle. exact Hle.
    + right. exact Hshadow.
    + unfold c0 in Hch. discriminate Hch.
  - destruct (Hside k it Hnth) as [Hhist Hne].
    exists true, (PropertyHistory.mk (PropertyHistory.history h)
                    (PropertyHistory.cur_index c)), it.
    rewrite Hch.
    cbn [PropertyHistory.history PropertyHistory.selected_index].
    split; [reflexivity|]. split; [reflexivity|].
    split; [rewrite Hidx; exact Hhist|].
    split; [discriminate|].
    split.
    + intros _.
      split; [rewrite Hidx; exact Hne|].
      split; [exists k; split; [exact Hnth | exact Hidx]|].
      split; [exact Hv|].
      apply Qle_lt_trans with (PropertyHistory.cur_delta_t c).
      * rewrite Hd, abs_delta_Qabs. apply Qle_refl.
      * rewrite <- Hc0. exact Hlt.
    + intros k2 it2 Hk2 Hv2.
      destruct (Hmin k2 it2 Hk2 Hv2) as [Hle|[Hshadow|[Hch0 _]]].
      * left. rewrite Hd, !abs_delta_Qabs in Hle. exact Hle.
      * right. exact Hshadow.
      * unfold c0 in Hch0. discriminate Hch0.
Qed.

End SelectFacts.





(** * Further properties of the code *)

(** ** GPS time: comparisons and arithmetic *)

Lemma inject_Z_le_minus_one (a b : Z) :
  (a < b)%Z -> inject_Z a - inject_Z b <= - (1).
Proof.
  intro H.
  assert (E : inject_Z a - inject_Z b == inject_Z (a - b)).
  { unfold Zminus. rewrite inject_Z_plus, inject_Z_opp. reflexivity. }
  rewrite E. change (- (1)) with (inject_Z (-1)).
  rewrite <- Zle_Qle. lia.
Qed.

(** X1: On times that satisfy the invariant of the seconds field, [operator<],
    [operator<=] and [operator==] agree with the sign of the interval
    computed by [operator-]. *)
Theorem comparison_agrees_with_interval (x y : GPS_Time.t) :
  GPS_Time.in_week x -> GPS_Time.in_week y ->
  (GPS_Time.lt x y = true <-> GPS_Time.diff x y < 0)
  /\ (GPS_Time.le x y = true <-> GPS_Time.diff x y <= 0)
  /\ (GPS_Time.eqb x y = true <-> GPS_Time.diff x y == 0).
Proof.
  intros [Hx0 Hx1] [Hy0 Hy1].
  unfold GPS_Time.lt, GPS_Time.le, GPS_Time.eqb, GPS_Time.diff.
  rewrite seconds_week_value in *.
  change (inject_Z 604800) with 604800 in *.
  destruct (Z.ltb_spec (GPS_Time.week x) (GPS_Time.week y)) as [Hlt|Hge].
  - pose proof (inject_Z_le_minus_one _ _ Hlt) as Hw.
    assert (Hne : (GPS_Time.week x =? GPS_Time.week y)%Z = false)
      by (apply Z.eqb_neq; lia).
    rewrite Hne. cbn [andb].
    repeat split; intros; try reflexivity; try discriminate; try lra.
  - destruct (Z.gtb_spec (GPS_Time.week x) (GPS_Time.week y)) as [Hgt|Hle].
    + pose proof (inject_Z_le_minus_one _ _ Hgt) as Hw.
      assert (Hne : (GPS_Time.week x =? GPS_Time.week y)%Z = false)
        by (apply Z.eqb_neq; lia).
      rewrite Hne. cbn [andb].
      repeat split; intros; try discriminate; exfalso; lra.
    + assert (Heq : GPS_Time.week x = GPS_Time.week y) by lia.
      rewrite Heq, Z.eqb_refl. cbn [andb].
      rewrite ltb_lt, leb_le, Qeq_bool_iff.
      repeat split; intros; lra.
Qed.

Lemma comparison_agrees_with_interval_witness :
  GPS_Time.lt (GPS_Time.mk 2000 604790) (GPS_Time.mk 2001 5) = true
  <-> GPS_Time.diff (GPS_Time.mk 2000 604790) (GPS_Time.mk 2001 5) < 0.
Proof.
  refine (proj1 (comparison_agrees_with_interval
                   (GPS_Time.mk 2000 604790) (GPS_Time.mk 2001 5) _ _));
    split; vm_compute; congruence.
Defined.

(** X2: Adding a non-negative number of seconds (less than 7101 weeks) to a
    time that satisfies the invariant gives a time that satisfies it
    again.  When the seconds of the time and the number added are whole
    numbers (which [double] adds and subtracts without rounding) and the
    week number leaves room for 7101 weeks more in [int], the result lies
    in the same week or in one of the 7101 weeks that follow, that number
    of seconds later. *)
Theorem add_assign_nonneg (x : GPS_Time.t) (sec : Q) :
  GPS_Time.in_week x ->
  0 <= sec -> sec < 7101 * 604800 ->
  GPS_Time.in_week (GPS_Time.add_assign x sec)
  /\ (forall s n : Z,
        GPS_Time.seconds x == inject_Z s -> sec == inject_Z n ->
        (Int32.INT_MIN <= GPS_Time.week x <= Int32.INT_MAX - 7101)%Z ->
        (GPS_Time.week x <= GPS_Time.week (GPS_Time.add_assign x sec)
         <= GPS_Time.week x + 7101)%Z
        /\ GPS_Time.diff (GPS_Time.add_assign x sec) x == inject_Z n)
  /\ GPS_Time.plus x sec = GPS_Time.add_assign x sec.
Proof.
  intros [Hx0 Hx1] Hs0 Hs1.
  rewrite seconds_week_value in Hx1. change (inject_Z 604800) with 604800 in Hx1.
  unfold GPS_Time.add_assign.
  set (x' := {| GPS_Time.week := GPS_Time.week x;
                GPS_Time.seconds := GPS_Time.seconds x + sec |}).
  destruct (canonicalize_nonneg x') as [Hin Hser].
  - unfold x'. cbn [GPS_Time.seconds]. lra.
  - unfold x'. cbn [GPS_Time.seconds]. lra.
  - split; [exact Hin|].
    destruct Hin as [Hin0 Hin1].
    unfold GPS_Time.serialize in Hser.
    unfold x' in Hser at 3 4. cbn [GPS_Time.seconds GPS_Time.week] in Hser.
    rewrite seconds_week_value in *.
    change (inject_Z 604800) with 604800 in *.
    split; [|reflexivity].
    intros s n _ Hn _. split; [split|].
    + apply Z.lt_succ_r. rewrite Zlt_Qlt.
      unfold Z.succ. rewrite inject_Z_plus. change (inject_Z 1) with 1. lra.
    + apply Z.lt_succ_r. rewrite Zlt_Qlt.
      unfold Z.succ. rewrite !inject_Z_plus.
      change (inject_Z 1) with 1. change (inject_Z 7101) with 7101. lra.
    + unfold GPS_Time.diff.
      rewrite seconds_week_value.
      change (inject_Z 604800) with 604800. lra.
Qed.

(** Twenty seconds added ten seconds before the end of week 2000 lead to
    the tenth second of week 2001. *)
Lemma add_assign_nonneg_witness :
  GPS_Time.in_week (GPS_Time.add_assign (GPS_Time.mk 2000 604790) 20)
  /\ GPS_Time.add_assign (GPS_Time.mk 2000 604790) 20
     = GPS_Time.mk 2001 10
  /\ GPS_Time.diff (GPS_Time.add_assign (GPS_Time.mk 2000 604790) 20)
       (GPS_Time.mk 2000 604790) == 20.
Proof.
  destruct (add_assign_nonneg (GPS_Time.mk 2000 604790) 20)
    as (Hin & Hwhole & _).
  - split; vm_compute; congruence.
  - vm_compute; congruence.
  - vm_compute; congruence.
  - split; [exact Hin|]. split; [vm_compute; reflexivity|].
    refine (proj2 (Hwhole 604790%Z 20%Z _ _ _)).
    + reflexivity.
    + reflexivity.
    + vm_compute. split; discriminate.
Defined.

(** ** GPS time: leap years and the calendar *)

(** X3: From 1901 on, the leap-year flag of [leap_year_prop] (without the
    skip option) is [is_leap_year]. *)
Theorem leap_year_prop_flag (year : Z) :
  (1901 <= year)%Z ->
  GPS_Time.is_leap_year_res (GPS_Time.leap_year_prop year false)
  = GPS_Time.is_leap_year year.
Proof.
  intro H. unfold GPS_Time.leap_year_prop, GPS_Time.is_leap_year.
  cbn [orb].
  destruct (Z.ltb_spec (Z.quot year 400 - 5) 0),
    (Z.eqb_spec (Z.rem year 400) 0),
    (Z.eqb_spec (Z.rem (Z.rem year 400) 100) 0),
    (Z.eqb_spec (Z.rem year 4) 0), (Z.eqb_spec (Z.rem year 100) 0);
    cbn [GPS_Time.is_leap_year_res andb orb negb]; try reflexivity;
    exfalso; Z.to_euclidean_division_equations; lia.
Qed.

Lemma leap_year_prop_flag_witness :
  GPS_Time.is_leap_year_res (GPS_Time.leap_year_prop 2100 false)
  = GPS_Time.is_leap_year 2100.
Proof. apply leap_year_prop_flag. lia. Defined.

(** From one year to the next, [extra_days] grows by one exactly when the
    year is divisible by 4 without being a leap year. *)
Lemma extra_days_succ (year : Z) (skip : bool) :
  (1980 <= year)%Z ->
  GPS_Time.extra_days (GPS_Time.leap_year_prop (year + 1) skip)
  = (GPS_Time.extra_days (GPS_Time.leap_year_prop year skip)
     + if GPS_Time.skipped_leap_year year then 1 else 0)%Z.
Proof.
  intro H.
  unfold GPS_Time.leap_year_prop, GPS_Time.skipped_leap_year, GPS_Time.is_leap_year.
  destruct (Z.ltb_spec (Z.quot (year + 1) 400 - 5) 0),
    (Z.ltb_spec (Z.quot year 400 - 5) 0),
    (Z.eqb_spec (Z.rem (year + 1) 400) 0), (Z.eqb_spec (Z.rem year 400) 0),
    (Z.eqb_spec (Z.rem (Z.rem (year + 1) 400) 100) 0),
    (Z.eqb_spec (Z.rem (Z.rem year 400) 100) 0),
    (Z.eqb_spec (Z.rem year 4) 0), (Z.eqb_spec (Z.rem year 100) 0);
    cbn [GPS_Time.extra_days andb orb negb];
    Z.to_euclidean_division_equations; lia.
Qed.

(** X4: [extra_days] counts the years from 1980 up to, and without, the given
    year that are divisible by 4 without being leap years. *)
Theorem extra_days_counts_skipped_leap_years (n : nat) (skip : bool) :
  GPS_Time.extra_days
    (GPS_Time.leap_year_prop (1980 + Z.of_nat n) skip)
  = Z.of_nat (length (filter GPS_Time.skipped_leap_year
                        (GPS_Time.zrange 1980 n))).
Proof.
  induction n as [|n IH].
  - reflexivity.
  - replace (1980 + Z.of_nat (S n))%Z with (1980 + Z.of_nat n + 1)%Z by lia.
    rewrite extra_days_succ by lia. rewrite IH.
    unfold GPS_Time.zrange. rewrite seq_S, map_app, filter_app, length_app.
    cbn [map filter Nat.add].
    destruct (GPS_Time.skipped_leap_year (1980 + Z.of_nat n)); cbn [length]; lia.
Qed.

(** A time that satisfies the invariant is left alone by
    [canonicalize]. *)
Lemma canonicalize_in_week (x : GPS_Time.t) :
  GPS_Time.in_week x ->
  GPS_Time.week (GPS_Time.canonicalize x) = GPS_Time.week x
  /\ GPS_Time.seconds (GPS_Time.canonicalize x) == GPS_Time.seconds x.
Proof.
  intros [H0 H1]. rewrite seconds_week_value in H1.
  change (inject_Z 604800) with 604800 in H1.
  unfold GPS_Time.canonicalize. cbn [GPS_Time.week GPS_Time.seconds].
  rewrite seconds_week_value. change (inject_Z 604800) with 604800.
  set (s := GPS_Time.seconds x) in *.
  assert (Hq : Qfloor (s / 604800) = 0%Z).
  { assert (Hq1 : inject_Z (Qfloor (s / 604800)) <= s / 604800)
      by apply Qfloor_le.
    assert (Hq2 : s / 604800 < inject_Z (Qfloor (s / 604800) + 1))
      by apply Qlt_floor.
    assert (Hs : s == (s / 604800) * 604800) by (field; discriminate).
    assert (Hlo : 0 <= s / 604800).
    { apply Qle_shift_div_l; [reflexivity | lra]. }
    assert (Hhi : s / 604800 < 1).
    { apply Qlt_shift_div_r; [reflexivity | lra]. }
    assert (Ha : inject_Z (Qfloor (s / 604800)) < inject_Z 1)
      by (change (inject_Z 1) with 1; lra).
    assert (Hb : inject_Z (-1) < inject_Z (Qfloor (s / 604800) + 0)).
    { rewrite inject_Z_plus in Hq2. rewrite inject_Z_plus.
      change (inject_Z (-1)) with (-1). change (inject_Z 1) with 1 in Hq2.
      change (inject_Z 0) with 0. lra. }
    rewrite <- Zlt_Qlt in Ha, Hb. lia. }
  rewrite Hq. split; [lia|].
  change (inject_Z (Int32.umul 604800 (Int32.u32 0))) with 0. ring.
Qed.
Lemma hms_decompose (r h mi s : Z) :
  (0 <= r < 7)%Z -> (0 <= h < 24)%Z -> (0 <= mi < 60)%Z -> (0 <= s < 60)%Z ->
  let S := (r * 86400 + h * 60 * 60 + mi * 60 + s)%Z in
  Z.rem S 60 = s
  /\ Z.rem (Z.quot S 60) 60 = mi
  /\ Z.rem (Z.quot (Z.quot S 60) 60) 24 = h
  /\ Z.quot (Z.quot (Z.quot S 60) 60) 24 = r
  /\ (0 <= S < 604800)%Z.
Proof.
  intros Hr Hh Hm Hs S. unfold S.
  repeat split; try lia; Z.to_euclidean_division_equations; lia.
Qed.

Lemma trunc_inject_Z (z : Z) : Float.trunc (inject_Z z) = z.
Proof. unfold Float.trunc, inject_Z. cbn [Qnum Qden]. apply Z.quot_1_r. Qed.

Lemma zrange_in (a : Z) (n : nat) (z : Z) :
  (a <= z < a + Z.of_nat n)%Z -> In z (GPS_Time.zrange a n).
Proof.
  intro H. unfold GPS_Time.zrange. apply in_map_iff.
  exists (Z.to_nat (z - a)). split; [lia|].
  apply in_seq. lia.
Qed.

Lemma all_dates_round_trip :
  forallb (fun year =>
    forallb (fun mon =>
      forallb (fun mday => GPS_Time.date_checked year mon mday)
        (GPS_Time.zrange 1 31))
      (GPS_Time.zrange 0 12))
    (GPS_Time.zrange 1980 220) = true.
Proof. vm_compute. reflexivity. Qed.

Lemma days_in_month_le_31 (year mon : Z) :
  (0 <= mon <= 11)%Z -> (GPS_Time.days_in_month year mon <= 31)%Z.
Proof.
  intro Hm. unfold GPS_Time.days_in_month.
  destruct ((mon =? 1)%Z && GPS_Time.is_leap_year year); [lia|].
  assert (Hc : (mon = 0 \/ mon = 1 \/ mon = 2 \/ mon = 3 \/ mon = 4
                \/ mon = 5 \/ mon = 6 \/ mon = 7 \/ mon = 8 \/ mon = 9
                \/ mon = 10 \/ mon = 11)%Z) by lia.
  repeat (destruct Hc as [->|Hc]; [vm_compute; congruence|]).
  subst mon. vm_compute. congruence.
Qed.

Lemma date_in_scope_bounds (year mon mday : Z) :
  GPS_Time.date_in_scope year mon mday = true ->
  (1980 <= year <= 2199)%Z /\ (0 <= mon <= 11)%Z /\ (1 <= mday <= 31)%Z.
Proof.
  intro Hscope. unfold GPS_Time.date_in_scope in Hscope.
  repeat (apply andb_true_iff in Hscope; destruct Hscope as [Hscope ?]).
  assert (Hm : (0 <= mon <= 11)%Z) by lia.
  pose proof (days_in_month_le_31 year mon Hm). lia.
Qed.

Lemma forallb3_spec (f : Z -> Z -> Z -> bool) (l1 l2 l3 : list Z) :
  forallb (fun a => forallb (fun b => forallb (fun c => f a b c) l3) l2) l1
  = true ->
  forall a b c, In a l1 -> In b l2 -> In c l3 -> f a b c = true.
Proof.
  intros H a b c Ha Hb Hc.
  rewrite forallb_forall in H. specialize (H a Ha).
  rewrite forallb_forall in H. specialize (H b Hb).
  rewrite forallb_forall in H. exact (H c Hc).
Qed.

(** Every date in scope passes the check. *)
Lemma date_round_trip_in_scope (year mon mday : Z) :
  GPS_Time.date_in_scope year mon mday = true ->
  GPS_Time.date_round_trip year mon mday = true.
Proof.
  intro Hscope.
  destruct (date_in_scope_bounds _ _ _ Hscope) as (Hy & Hm & Hd).
  pose proof (forallb3_spec GPS_Time.date_checked _ _ _
                all_dates_round_trip year mon mday
                (zrange_in 1980 220 year ltac:(lia))
                (zrange_in 0 12 mon ltac:(lia))
                (zrange_in 1 31 mday ltac:(lia))) as Hall.
  unfold GPS_Time.date_checked in Hall.
  apply orb_true_iff in Hall. destruct Hall as [Hall|Hall]; [|exact Hall].
  rewrite Hscope in Hall. discriminate Hall.
Qed.
(** The constructor from [struct tm], on a date whose day count is not
    negative and a time of day in range: the week and the seconds. *)
Lemma of_tm_week_seconds (x : GPS_Time.tm) :
  (0 <= GPS_Time.days_of_tm x)%Z ->
  (0 <= GPS_Time.tm_hour x < 24)%Z ->
  (0 <= GPS_Time.tm_min x < 60)%Z ->
  (0 <= GPS_Time.tm_sec x < 60)%Z ->
  let days := GPS_Time.days_of_tm x in
  let S := (Z.rem days 7 * 86400 + GPS_Time.tm_hour x * 60 * 60
            + GPS_Time.tm_min x * 60 + GPS_Time.tm_sec x)%Z in
  GPS_Time.week (GPS_Time.of_tm x 0) = Z.quot days 7
  /\ GPS_Time.seconds (GPS_Time.of_tm x 0) == inject_Z S
  /\ GPS_Time.in_week (GPS_Time.of_tm x 0).
Proof.
  intros Hdays Hh Hm Hs days S.
  assert (Hr : (0 <= Z.rem days 7 < 7)%Z)
    by (unfold days; Z.to_euclidean_division_equations; lia).
  destruct (hms_decompose _ _ _ _ Hr Hh Hm Hs) as (_ & _ & _ & _ & HS).
  fold S in HS.
  set (y := {| GPS_Time.week := Z.quot days 7;
               GPS_Time.seconds :=
                 0 + inject_Z (Int32.umul (Int32.u32 (Z.rem days 7))
                                 GPS_Time.seconds_day)
                 + inject_Z (GPS_Time.tm_hour x * 60 * 60)
                 + inject_Z (GPS_Time.tm_min x * 60)
                 + inject_Z (GPS_Time.tm_sec x) |}).
  assert (Hu : Int32.umul (Int32.u32 (Z.rem days 7)) GPS_Time.seconds_day
               = (Z.rem days 7 * 86400)%Z).
  { unfold Int32.umul, Int32.u32, Int32.modulus.
    change GPS_Time.seconds_day with 86400%Z.
    rewrite (Z.mod_small (Z.rem days 7)) by lia.
    apply Z.mod_small. lia. }
  assert (Hy : GPS_Time.seconds y == inject_Z S).
  { unfold y, S. cbn [GPS_Time.seconds]. rewrite Hu.
    rewrite !inject_Z_plus. ring. }
  assert (Hin : GPS_Time.in_week y).
  { unfold GPS_Time.in_week. rewrite Hy, seconds_week_value.
    rewrite <- Zlt_Qlt. change 0 with (inject_Z 0). rewrite <- Zle_Qle. lia. }
  destruct (canonicalize_in_week y Hin) as [Hw Hsec].
  change (GPS_Time.of_tm x 0) with (GPS_Time.canonicalize y).
  split; [exact Hw|]. split; [rewrite Hsec; exact Hy|].
  unfold GPS_Time.in_week. rewrite Hsec. exact Hin.
Qed.

(** [c_tm] without leap seconds on a time whose seconds are a whole
    number within the week: the integer part of [c_tm] applied to the week
    and the seconds. *)
Lemma c_tm_whole_seconds (g : GPS_Time.t) (S : Z) :
  GPS_Time.seconds g == inject_Z S ->
  (0 <= S < 604800)%Z ->
  GPS_Time.c_tm g 0 = GPS_Time.tm_of_week_seconds (GPS_Time.week g) S.
Proof.
  intros Hsec HS.
  assert (Hin : GPS_Time.in_week
            {| GPS_Time.week := GPS_Time.week g;
               GPS_Time.seconds := GPS_Time.seconds g + 0 |}).
  { unfold GPS_Time.in_week. cbn [GPS_Time.seconds].
    rewrite Hsec, seconds_week_value.
    assert (E : inject_Z S + 0 == inject_Z S) by ring.
    rewrite E. rewrite <- Zlt_Qlt. change 0 with (inject_Z 0).
    rewrite <- Zle_Qle. lia. }
  destruct (canonicalize_in_week _ Hin) as [Hw2 Hsec2].
  cbn [GPS_Time.week GPS_Time.seconds] in Hw2, Hsec2.
  unfold GPS_Time.c_tm, GPS_Time.plus, GPS_Time.add_assign.
  rewrite Hw2. f_equal.
  rewrite <- (trunc_inject_Z S). apply trunc_Qeq.
  rewrite Hsec2, Hsec. ring.
Qed.

(** [c_tm] after the constructor, without leap seconds. *)
Lemma c_tm_of_tm (x : GPS_Time.tm) :
  (0 <= GPS_Time.days_of_tm x)%Z ->
  (0 <= GPS_Time.tm_hour x < 24)%Z ->
  (0 <= GPS_Time.tm_min x < 60)%Z ->
  (0 <= GPS_Time.tm_sec x < 60)%Z ->
  GPS_Time.c_tm (GPS_Time.of_tm x 0) 0
  = GPS_Time.tm_of_week_seconds
      (Z.quot (GPS_Time.days_of_tm x) 7)
      (Z.rem (GPS_Time.days_of_tm x) 7 * 86400
       + GPS_Time.tm_hour x * 60 * 60
       + GPS_Time.tm_min x * 60 + GPS_Time.tm_sec x)%Z.
Proof.
  intros Hdays Hh Hm Hs.
  destruct (of_tm_week_seconds x Hdays Hh Hm Hs) as (Hw & Hsec & _).
  cbv zeta in Hw, Hsec.
  assert (Hr : (0 <= Z.rem (GPS_Time.days_of_tm x) 7 < 7)%Z)
    by (Z.to_euclidean_division_equations; lia).
  destruct (hms_decompose _ _ _ _ Hr Hh Hm Hs) as (_ & _ & _ & _ & HS).
  cbv zeta in HS.
  generalize dependent (GPS_Time.of_tm x 0). intros g Hw Hsec.
  rewrite (c_tm_whole_seconds g _ Hsec HS). rewrite Hw. reflexivity.
Qed.

(** The integer part of [c_tm] on the seconds of a day of the week and a
    time of day. *)
Lemma tm_of_week_seconds_fields (w r h mi s : Z) :
  (0 <= r < 7)%Z -> (0 <= h < 24)%Z -> (0 <= mi < 60)%Z -> (0 <= s < 60)%Z ->
  GPS_Time.tm_of_week_seconds w (r * 86400 + h * 60 * 60 + mi * 60 + s)%Z
  = match GPS_Time.calendar_of_day (r + (6 + w * 7))%Z with
    | None => None
    | Some (y, mon, mday, yday) =>
        Some {| GPS_Time.tm_sec := s; GPS_Time.tm_min := mi;
                GPS_Time.tm_hour := h; GPS_Time.tm_mday := mday;
                GPS_Time.tm_mon := mon; GPS_Time.tm_year := (y - 1900)%Z;
                GPS_Time.tm_wday := r; GPS_Time.tm_yday := yday;
                GPS_Time.tm_isdst := 0 |}
    end.
Proof.
  intros Hr Hh Hm Hs.
  destruct (hms_decompose _ _ _ _ Hr Hh Hm Hs)
    as (Hs1 & Hs2 & Hs3 & Hs4 & _).
  cbv zeta in Hs1, Hs2, Hs3, Hs4.
  unfold GPS_Time.tm_of_week_seconds.
  rewrite Hs1, Hs2, Hs3, Hs4. reflexivity.
Qed.

(** [c_tm] after the constructor, without leap seconds: the time of day
    comes back, the day of the week is the remainder of the day count, and
    the date is what the calendar part makes of the day count. *)
Lemma c_tm_calendar (x : GPS_Time.tm) :
  (0 <= GPS_Time.days_of_tm x)%Z ->
  (0 <= GPS_Time.tm_hour x < 24)%Z ->
  (0 <= GPS_Time.tm_min x < 60)%Z ->
  (0 <= GPS_Time.tm_sec x < 60)%Z ->
  GPS_Time.c_tm (GPS_Time.of_tm x 0) 0
  = match GPS_Time.calendar_of_day (GPS_Time.days_of_tm x + 6)%Z with
    | None => None
    | Some (y, mon, mday, yday) =>
        Some {| GPS_Time.tm_sec := GPS_Time.tm_sec x;
                GPS_Time.tm_min := GPS_Time.tm_min x;
                GPS_Time.tm_hour := GPS_Time.tm_hour x;
                GPS_Time.tm_mday := mday;
                GPS_Time.tm_mon := mon; GPS_Time.tm_year := (y - 1900)%Z;
                GPS_Time.tm_wday := Z.rem (GPS_Time.days_of_tm x) 7;
                GPS_Time.tm_yday := yday;
                GPS_Time.tm_isdst := 0 |}
    end.
Proof.
  intros Hdays Hh Hm Hs.
  assert (Hr : (0 <= Z.rem (GPS_Time.days_of_tm x) 7 < 7)%Z)
    by (Z.to_euclidean_division_equations; lia).
  rewrite (c_tm_of_tm x Hdays Hh Hm Hs).
  rewrite (tm_of_week_seconds_fields _ _ _ _ _ Hr Hh Hm Hs).
  replace (Z.rem (GPS_Time.days_of_tm x) 7
           + (6 + Z.quot (GPS_Time.days_of_tm x) 7 * 7))%Z
    with (GPS_Time.days_of_tm x + 6)%Z
    by (Z.to_euclidean_division_equations; lia).
  reflexivity.
Qed.

(** The day count of a [struct tm] reads the year, the month and the day
    of the month only. *)
Lemma days_of_tm_of_date (x : GPS_Time.tm) :
  GPS_Time.days_of_tm
    (GPS_Time.tm_of_date (GPS_Time.tm_year x + 1900) (GPS_Time.tm_mon x)
       (GPS_Time.tm_mday x))
  = GPS_Time.days_of_tm x.
Proof.
  unfold GPS_Time.days_of_tm, GPS_Time.tm_of_date.
  cbn [GPS_Time.tm_year GPS_Time.tm_mon GPS_Time.tm_mday].
  replace (GPS_Time.tm_year x + 1900 - 1900)%Z with (GPS_Time.tm_year x)
    by lia.
  reflexivity.
Qed.

(** X5: The calendar round trip.  For every date from 1980-01-06 to 2199-12-31
    other than the last day of a four-year block before 2100 (31 December
    of 1983, 1987, ..., 2099) and every time of day, converting the
    [struct tm] to a GPS time and back with [c_tm] gives the same year,
    month, day, hour, minute and second, and the day of the week counted
    from Sunday. *)
Theorem tm_round_trip (x : GPS_Time.tm) :
  let year := (GPS_Time.tm_year x + 1900)%Z in
  GPS_Time.date_in_scope year (GPS_Time.tm_mon x) (GPS_Time.tm_mday x) = true ->
  GPS_Time.block_end year (GPS_Time.tm_mon x) (GPS_Time.tm_mday x) = false ->
  (0 <= GPS_Time.tm_hour x < 24)%Z ->
  (0 <= GPS_Time.tm_min x < 60)%Z ->
  (0 <= GPS_Time.tm_sec x < 60)%Z ->
  exists r,
    GPS_Time.c_tm (GPS_Time.of_tm x 0) 0 = Some r
    /\ GPS_Time.tm_year r = GPS_Time.tm_year x
    /\ GPS_Time.tm_mon r = GPS_Time.tm_mon x
    /\ GPS_Time.tm_mday r = GPS_Time.tm_mday x
    /\ GPS_Time.tm_hour r = GPS_Time.tm_hour x
    /\ GPS_Time.tm_min r = GPS_Time.tm_min x
    /\ GPS_Time.tm_sec r = GPS_Time.tm_sec x
    /\ GPS_Time.tm_wday r = Z.rem (GPS_Time.days_of_tm x) 7.
Proof.
  intros year Hscope Hend Hh Hm Hs.
  pose proof (date_round_trip_in_scope _ _ _ Hscope) as Hrt.
  unfold GPS_Time.date_round_trip in Hrt. rewrite Hend in Hrt.
  unfold year in Hrt. rewrite days_of_tm_of_date in Hrt.
  apply andb_true_iff in Hrt. destruct Hrt as [Hdays Hcal].
  apply Z.leb_le in Hdays.
  rewrite (c_tm_calendar x Hdays Hh Hm Hs).
  destruct (GPS_Time.calendar_of_day (GPS_Time.days_of_tm x + 6))
    as [[[[y m] d] yd]|]; [|discriminate Hcal].
  apply andb_true_iff in Hcal. destruct Hcal as [Hcal Hd].
  apply andb_true_iff in Hcal. destruct Hcal as [Hy Hmon].
  apply Z.eqb_eq in Hy, Hmon, Hd.
  eexists. split; [reflexivity|].
  cbn [GPS_Time.tm_year GPS_Time.tm_mon GPS_Time.tm_mday GPS_Time.tm_hour
       GPS_Time.tm_min GPS_Time.tm_sec GPS_Time.tm_wday].
  split; [lia|]. split; [exact Hmon|]. split; [exact Hd|].
  split; [reflexivity|]. split; [reflexivity|]. split; reflexivity.
Qed.

Lemma tm_round_trip_witness :
  exists r,
    GPS_Time.c_tm (GPS_Time.of_tm Examples.tm_2019_04_07 0) 0 = Some r
    /\ GPS_Time.tm_year r = GPS_Time.tm_year Examples.tm_2019_04_07
    /\ GPS_Time.tm_mon r = GPS_Time.tm_mon Examples.tm_2019_04_07
    /\ GPS_Time.tm_mday r = GPS_Time.tm_mday Examples.tm_2019_04_07
    /\ GPS_Time.tm_hour r = GPS_Time.tm_hour Examples.tm_2019_04_07
    /\ GPS_Time.tm_min r = GPS_Time.tm_min Examples.tm_2019_04_07
    /\ GPS_Time.tm_sec r = GPS_Time.tm_sec Examples.tm_2019_04_07
    /\ GPS_Time.tm_wday r
       = Z.rem (GPS_Time.days_of_tm Examples.tm_2019_04_07) 7.
Proof.
  refine (tm_round_trip Examples.tm_2019_04_07 _ _ _ _ _).
  - vm_compute; reflexivity.
  - vm_compute; reflexivity.
  - vm_compute; split; congruence.
  - vm_compute; split; congruence.
  - vm_compute; split; congruence.
Defined.

(** X6: The last day of a four-year block.  For 31 December of 1983, 1987,
    ..., 2099 and every time of day, [c_tm] after the constructor gives
    day 0 of January of the next year, with the time of day unchanged. *)
Theorem c_tm_block_end (x : GPS_Time.tm) :
  let year := (GPS_Time.tm_year x + 1900)%Z in
  GPS_Time.date_in_scope year (GPS_Time.tm_mon x) (GPS_Time.tm_mday x) = true ->
  GPS_Time.block_end year (GPS_Time.tm_mon x) (GPS_Time.tm_mday x) = true ->
  (0 <= GPS_Time.tm_hour x < 24)%Z ->
  (0 <= GPS_Time.tm_min x < 60)%Z ->
  (0 <= GPS_Time.tm_sec x < 60)%Z ->
  exists r,
    GPS_Time.c_tm (GPS_Time.of_tm x 0) 0 = Some r
    /\ GPS_Time.tm_year r = (GPS_Time.tm_year x + 1)%Z
    /\ GPS_Time.tm_mon r = 0%Z
    /\ GPS_Time.tm_mday r = 0%Z
    /\ GPS_Time.tm_hour r = GPS_Time.tm_hour x
    /\ GPS_Time.tm_min r = GPS_Time.tm_min x
    /\ GPS_Time.tm_sec r = GPS_Time.tm_sec x.
Proof.
  intros year Hscope Hend Hh Hm Hs.
  pose proof (date_round_trip_in_scope _ _ _ Hscope) as Hrt.
  unfold GPS_Time.date_round_trip in Hrt. rewrite Hend in Hrt.
  unfold year in Hrt. rewrite days_of_tm_of_date in Hrt.
  apply andb_true_iff in Hrt. destruct Hrt as [Hdays Hcal].
  apply Z.leb_le in Hdays.
  rewrite (c_tm_calendar x Hdays Hh Hm Hs).
  destruct (GPS_Time.calendar_of_day (GPS_Time.days_of_tm x + 6))
    as [[[[y m] d] yd]|]; [|discriminate Hcal].
  apply andb_true_iff in Hcal. destruct Hcal as [Hcal Hd].
  apply andb_true_iff in Hcal. destruct Hcal as [Hy Hmon].
  apply Z.eqb_eq in Hy, Hmon, Hd.
  eexists. split; [reflexivity|].
  cbn [GPS_Time.tm_year GPS_Time.tm_mon GPS_Time.tm_mday GPS_Time.tm_hour
       GPS_Time.tm_min GPS_Time.tm_sec].
  split; [lia|]. split; [exact Hmon|]. split; [exact Hd|].
  split; [reflexivity|]. split; reflexivity.
Qed.

Lemma c_tm_block_end_witness :
  exists r,
    GPS_Time.c_tm (GPS_Time.of_tm Examples.tm_1983_12_31 0) 0 = Some r
    /\ GPS_Time.tm_year r = (GPS_Time.tm_year Examples.tm_1983_12_31 + 1)%Z
    /\ GPS_Time.tm_mon r = 0%Z
    /\ GPS_Time.tm_mday r = 0%Z
    /\ GPS_Time.tm_hour r = GPS_Time.tm_hour Examples.tm_1983_12_31
    /\ GPS_Time.tm_min r = GPS_Time.tm_min Examples.tm_1983_12_31
    /\ GPS_Time.tm_sec r = GPS_Time.tm_sec Examples.tm_1983_12_31.
Proof.
  refine (c_tm_block_end Examples.tm_1983_12_31 _ _ _ _ _).
  - vm_compute; reflexivity.
  - vm_compute; reflexivity.
  - vm_compute; split; congruence.
  - vm_compute; split; congruence.
  - vm_compute; split; congruence.
Defined.
(** ** Ephemerides: fit interval, equivalence and the broadcast form *)

(** [fit_interval(flag, iodc) > 5 * 60 * 60] holds exactly with the flag. *)
Lemma fit_interval_flag_round_trip_flag (flag : bool) (iodc : Z) :
  Float.gtb (raw_t.fit_interval flag iodc) (5 * 60 * 60) = flag.
Proof.
  unfold raw_t.fit_interval. destruct flag; cbn [negb].
  - repeat match goal with
           | |- context [if ?c then _ else _] => destruct c
           end; reflexivity.
  - reflexivity.
Qed.

(** X7: The fit-interval flag survives the conversion to an ephemeris and
    back: [operator=] recovers it as [fit_interval > 5 * 60 * 60], and
    [fit_interval(flag, iodc)] is four hours without the flag and at least
    six hours with it, whatever the IODC. *)
Theorem fit_interval_flag_round_trip (flag : bool) (iodc : Z) :
  Float.gtb (raw_t.fit_interval flag iodc) (5 * 60 * 60) = flag
  /\ 4 * 60 * 60 <= raw_t.fit_interval flag iodc.
Proof.
  split; [apply fit_interval_flag_round_trip_flag|].
  unfold raw_t.fit_interval. destruct flag; cbn [negb].
  - repeat match goal with
           | |- context [if ?c then _ else _] => destruct c
           end; discriminate.
  - discriminate.
Qed.

(** A scaled field of the converted record is the scaled integer. *)
Lemma get_float_to_Ephemeris (i : raw_t.sf_index) (r : raw_t.t) :
  raw_t.get_float i (raw_t.to_Ephemeris r)
  = raw_t.to_float i (raw_t.get i r).
Proof. destruct i; reflexivity. Qed.

(** [CHECK] on two scaled integers: they differ by one unit at most. *)
Lemma CHECK_to_float (i : raw_t.sf_index) (x y : Z) :
  negb (Float.gtb (Qabs (raw_t.to_float i x - raw_t.to_float i y))
          (raw_t.sf i)) = true
  <-> (Z.abs (x - y) <= 1)%Z.
Proof.
  pose proof (sf_pos i) as Hsf.
  rewrite negb_true_iff, <- not_true_iff_false, gtb_lt.
  unfold raw_t.to_float.
  assert (E : raw_t.sf i * inject_Z x - raw_t.sf i * inject_Z y
              == raw_t.sf i * inject_Z (x - y)).
  { unfold Zminus. rewrite inject_Z_plus, inject_Z_opp. ring. }
  rewrite E, Qabs_Qmult, (Qabs_pos (raw_t.sf i)) by (apply Qlt_le_weak; exact Hsf).
  assert (EA : Qabs (inject_Z (x - y)) == inject_Z (Z.abs (x - y))).
  { unfold Qabs, inject_Z. reflexivity. }
  rewrite EA.
  split.
  - intro Hn. apply Z.nlt_ge. intro Hlt. apply Hn.
    assert (H2 : 1 < inject_Z (Z.abs (x - y))).
    { change 1 with (inject_Z 1). rewrite <- Zlt_Qlt. exact Hlt. }
    rewrite <- (Qmult_1_r (raw_t.sf i)) at 1.
    apply Qmult_lt_l; assumption.
  - intros Hle Hlt.
    assert (H2 : inject_Z (Z.abs (x - y)) <= 1).
    { change 1 with (inject_Z 1). rewrite <- Zle_Qle. exact Hle. }
    apply (Qlt_irrefl (raw_t.sf i)).
    eapply Qlt_le_trans; [exact Hlt|].
    rewrite <- (Qmult_1_r (raw_t.sf i)) at 2.
    apply Qmult_le_l; assumption.
Qed.

Lemma CHECK_raw (i : raw_t.sf_index) (r1 r2 : raw_t.t) :
  raw_t.CHECK i (raw_t.to_Ephemeris r1) (raw_t.to_Ephemeris r2) = true
  <-> (Z.abs (raw_t.get i r1 - raw_t.get i r2) <= 1)%Z.
Proof.
  unfold raw_t.CHECK. rewrite !get_float_to_Ephemeris.
  apply CHECK_to_float.
Qed.

(** X8: Two broadcast records and the equivalence of their ephemerides.
    Equivalent ephemerides come from records that agree on the week
    number, the URA index and the health word and whose scaled fields
    differ by one unit of their scale at most.  Conversely, records that
    agree on these three fields, differ by one unit at most in the fields
    scaled by a power of two and agree in the fields scaled in semicircles
    give equivalent ephemerides.  The satellite number, IODC, IODE and the
    fit-interval flag are not compared.  The fields scaled in semicircles
    are those whose scale factor is [GPS_SC2RAD] times a power of two. *)
Theorem is_equivalent_raw_units (r1 r2 : raw_t.t) :
  (raw_t.is_equivalent (raw_t.to_Ephemeris r1) (raw_t.to_Ephemeris r2) = true
   -> raw_t.WN r1 = raw_t.WN r2
      /\ raw_t.URA r1 = raw_t.URA r2
      /\ raw_t.SV_health r1 = raw_t.SV_health r2
      /\ forall i, (Z.abs (raw_t.get i r1 - raw_t.get i r2) <= 1)%Z)
  /\ (raw_t.WN r1 = raw_t.WN r2 ->
      raw_t.URA r1 = raw_t.URA r2 ->
      raw_t.SV_health r1 = raw_t.SV_health r2 ->
      (forall i, raw_t.in_semicircles i = false ->
         (Z.abs (raw_t.get i r1 - raw_t.get i r2) <= 1)%Z) ->
      (forall i, raw_t.in_semicircles i = true ->
         raw_t.get i r1 = raw_t.get i r2) ->
      raw_t.is_equivalent (raw_t.to_Ephemeris r1) (raw_t.to_Ephemeris r2)
      = true)
  /\ (forall i,
        if raw_t.in_semicircles i
        then exists n, raw_t.sf i = raw_t.GPS_SC2RAD * raw_t.POWER_2 n
        else exists n, raw_t.sf i = raw_t.POWER_2 n).
Proof.
  assert (Hiff :
    raw_t.is_equivalent (raw_t.to_Ephemeris r1) (raw_t.to_Ephemeris r2) = true
    <-> raw_t.WN r1 = raw_t.WN r2
        /\ raw_t.URA r1 = raw_t.URA r2
        /\ raw_t.SV_health r1 = raw_t.SV_health r2
        /\ forall i, (Z.abs (raw_t.get i r1 - raw_t.get i r2) <= 1)%Z).
  { unfold raw_t.is_equivalent.
    rewrite !andb_true_iff, !CHECK_raw, !Z.eqb_eq.
    cbn [raw_t.to_Ephemeris Ephemeris.WN Ephemeris.URA Ephemeris.SV_health].
    split.
    - intro H.
      repeat match type of H with _ /\ _ => destruct H as [H ?] end.
      split; [assumption|]. split; [assumption|]. split; [assumption|].
      intro i; destruct i; assumption.
    - intros (HW & HU & HS & Hall).
      repeat match goal with |- _ /\ _ => split end;
        try assumption; apply Hall. }
  split; [apply Hiff | split].
  - intros HW HU HS Hpow Hsc. apply Hiff.
    split; [exact HW|]. split; [exact HU|]. split; [exact HS|].
    intro i. destruct (raw_t.in_semicircles i) eqn:E.
    + rewrite (Hsc i E). rewrite Z.sub_diag. cbn. lia.
    + apply Hpow. exact E.
  - intro i. destruct i; cbn [raw_t.in_semicircles raw_t.sf];
      eexists; reflexivity.
Qed.

(** A record and the same record with [t_GD], [c_rs] and [e] one unit off
    give equivalent ephemerides. *)
Lemma is_equivalent_raw_units_witness :
  raw_t.is_equivalent (raw_t.to_Ephemeris Examples.low_orbit_raw_near)
    (raw_t.to_Ephemeris Examples.low_orbit_raw) = true
  /\ map (fun i => (raw_t.get i Examples.low_orbit_raw_near
                    - raw_t.get i Examples.low_orbit_raw)%Z)
       [raw_t.SF_t_GD; raw_t.SF_c_rs; raw_t.SF_e] = [1; -1; 1]%Z.
Proof.
  split; [|reflexivity].
  refine (proj1 (proj2 (is_equivalent_raw_units Examples.low_orbit_raw_near
                          Examples.low_orbit_raw)) _ _ _ _ _).
  - reflexivity.
  - reflexivity.
  - reflexivity.
  - intros i _. destruct i; vm_compute; discriminate.
  - intros i Hi. destruct i; try discriminate Hi; reflexivity.
Defined.

(** X9: [is_equivalent] is reflexive and symmetric. *)
Theorem is_equivalent_refl_sym (a b : Ephemeris.t) :
  raw_t.is_equivalent a a = true
  /\ raw_t.is_equivalent a b = raw_t.is_equivalent b a.
Proof.
  assert (Hc : forall i, raw_t.CHECK i a b = raw_t.CHECK i b a).
  { intro i. unfold raw_t.CHECK, Float.gtb, Float.ltb. do 2 f_equal.
    assert (E : Qabs (raw_t.get_float i a - raw_t.get_float i b)
                == Qabs (raw_t.get_float i b - raw_t.get_float i a)).
    { rewrite <- Qabs_opp. apply Qabs_wd. ring. }
    destruct (Qle_bool (Qabs (raw_t.get_float i a - raw_t.get_float i b))
                (raw_t.sf i)) eqn:E1;
      destruct (Qle_bool (Qabs (raw_t.get_float i b - raw_t.get_float i a))
                  (raw_t.sf i)) eqn:E2; try reflexivity.
    - rewrite Qle_bool_iff in E1. rewrite E in E1.
      apply Qle_bool_iff in E1. congruence.
    - rewrite Qle_bool_iff in E2. rewrite <- E in E2.
      apply Qle_bool_iff in E2. congruence. }
  assert (Hr : forall i, raw_t.CHECK i a a = true).
  { intro i. unfold raw_t.CHECK. rewrite negb_true_iff.
    rewrite <- not_true_iff_false, gtb_lt.
    assert (E : raw_t.get_float i a - raw_t.get_float i a == 0) by ring.
    rewrite E. intro H. pose proof (sf_pos i) as P.
    change (Qabs 0) with 0 in H.
    exact (Qlt_irrefl _ (Qlt_trans _ _ _ H P)). }
  split.
  - unfold raw_t.is_equivalent. rewrite !Hr, !Z.eqb_refl. reflexivity.
  - unfold raw_t.is_equivalent. rewrite !Hc.
    rewrite (Z.eqb_sym (Ephemeris.WN a)), (Z.eqb_sym (Ephemeris.URA a)),
      (Z.eqb_sym (Ephemeris.SV_health a)).
    reflexivity.
Qed.
(** The stores of [operator=] into a field of the type of the value. *)
Lemma store_in_range (ty : raw_t.field_type) (z : Z) :
  raw_t.in_range ty z -> raw_t.store ty z = z.
Proof.
  destruct ty; cbn [raw_t.in_range raw_t.store];
    unfold Int32.to_unsigned, Int32.to_signed; intro H;
    try (apply Z.mod_small; lia);
    rewrite Z.mod_small by lia; lia.
Qed.

(** One scaled field through both conversions, for the fields of the
    record: the two [u32_t] fields must not exceed [INT_MAX]. *)
Lemma convert_get (r : raw_t.t) (i : raw_t.sf_index) :
  (forall i, raw_t.in_range (raw_t.field_type_of i) (raw_t.get i r)) ->
  (raw_t.e r <= Int32.INT_MAX)%Z ->
  (raw_t.sqrt_A r <= Int32.INT_MAX)%Z ->
  raw_t.convert i (raw_t.to_float i (raw_t.get i r))
  = Some (if (0 <=? raw_t.get i r)%Z then raw_t.get i r
          else (raw_t.get i r + 1)%Z).
Proof.
  intros Hr He Hs. apply convert_round_trip; [apply Hr|].
  specialize (Hr i). unfold Int32.INT_MAX in *.
  destruct i; cbn [raw_t.field_type_of raw_t.in_range raw_t.get] in *;
    try lia; assumption.
Qed.

(** X10: The broadcast form through both conversions.  When every field of the
    record holds a value of its type and the two [u32_t] fields, [e] and
    [sqrt_A], do not exceed [INT_MAX], the conversion to an ephemeris and
    back succeeds; the fields copied without scaling and the fit-interval
    flag come back unchanged, and every scaled field comes back unchanged
    when it is not negative and one unit higher when it is negative.  When
    none of the fields scaled in semicircles is negative, so that these
    come back unchanged, the ephemeris of the result is equivalent to the
    ephemeris of the record. *)
Theorem raw_round_trip (r : raw_t.t) :
  raw_t.header_in_range r ->
  (forall i, raw_t.in_range (raw_t.field_type_of i) (raw_t.get i r)) ->
  (raw_t.e r <= Int32.INT_MAX)%Z ->
  (raw_t.sqrt_A r <= Int32.INT_MAX)%Z ->
  exists r',
    raw_t.of_Ephemeris (raw_t.to_Ephemeris r) = Some r'
    /\ raw_t.svid r' = raw_t.svid r
    /\ raw_t.WN r' = raw_t.WN r
    /\ raw_t.URA r' = raw_t.URA r
    /\ raw_t.SV_health r' = raw_t.SV_health r
    /\ raw_t.iodc r' = raw_t.iodc r
    /\ raw_t.iode r' = raw_t.iode r
    /\ raw_t.fit_interval_flag r' = raw_t.fit_interval_flag r
    /\ (forall i, raw_t.get i r'
                  = if (0 <=? raw_t.get i r)%Z then raw_t.get i r
                    else (raw_t.get i r + 1)%Z)
    /\ ((forall i, raw_t.in_semicircles i = true ->
           (0 <= raw_t.get i r)%Z) ->
        (forall i, raw_t.in_semicircles i = true ->
           raw_t.get i r' = raw_t.get i r)
        /\ raw_t.is_equivalent (raw_t.to_Ephemeris r')
             (raw_t.to_Ephemeris r) = true).
Proof.
  intros (Hsvid & HWN & HURA & HSV & Hiodc & Hiode) Hr He Hs.
  pose proof (fun i => convert_get r i Hr He Hs) as Hc.
  assert (Hex : exists r',
    raw_t.of_Ephemeris (raw_t.to_Ephemeris r) = Some r'
    /\ raw_t.svid r' = raw_t.svid r
    /\ raw_t.WN r' = raw_t.WN r
    /\ raw_t.URA r' = raw_t.URA r
    /\ raw_t.SV_health r' = raw_t.SV_health r
    /\ raw_t.iodc r' = raw_t.iodc r
    /\ raw_t.iode r' = raw_t.iode r
    /\ raw_t.fit_interval_flag r' = raw_t.fit_interval_flag r
    /\ (forall i, raw_t.get i r'
                  = if (0 <=? raw_t.get i r)%Z then raw_t.get i r
                    else (raw_t.get i r + 1)%Z)).
  { unfold raw_t.of_Ephemeris, raw_t.to_Ephemeris.
    cbn [Ephemeris.svid Ephemeris.WN Ephemeris.URA Ephemeris.SV_health
         Ephemeris.iodc Ephemeris.t_GD Ephemeris.t_oc Ephemeris.a_f2
         Ephemeris.a_f1 Ephemeris.a_f0 Ephemeris.iode Ephemeris.c_rs
         Ephemeris.delta_n Ephemeris.M0 Ephemeris.c_uc Ephemeris.e
         Ephemeris.c_us Ephemeris.sqrt_A Ephemeris.t_oe
         Ephemeris.fit_interval Ephemeris.c_ic Ephemeris.Omega0
         Ephemeris.c_is Ephemeris.i0 Ephemeris.c_rc Ephemeris.omega
         Ephemeris.dot_Omega0 Ephemeris.dot_i0].
    pose proof (Hc raw_t.SF_t_GD) as H1. pose proof (Hc raw_t.SF_t_oc) as H2.
    pose proof (Hc raw_t.SF_a_f0) as H3. pose proof (Hc raw_t.SF_a_f1) as H4.
    pose proof (Hc raw_t.SF_a_f2) as H5. pose proof (Hc raw_t.SF_c_rs) as H6.
    pose proof (Hc raw_t.SF_delta_n) as H7. pose proof (Hc raw_t.SF_M0) as H8.
    pose proof (Hc raw_t.SF_c_uc) as H9. pose proof (Hc raw_t.SF_e) as H10.
    pose proof (Hc raw_t.SF_c_us) as H11.
    pose proof (Hc raw_t.SF_sqrt_A) as H12.
    pose proof (Hc raw_t.SF_t_oe) as H13. pose proof (Hc raw_t.SF_c_ic) as H14.
    pose proof (Hc raw_t.SF_Omega0) as H15.
    pose proof (Hc raw_t.SF_c_is) as H16. pose proof (Hc raw_t.SF_i0) as H17.
    pose proof (Hc raw_t.SF_c_rc) as H18. pose proof (Hc raw_t.SF_omega) as H19.
    pose proof (Hc raw_t.SF_dot_Omega0) as H20.
    pose proof (Hc raw_t.SF_dot_i0) as H21.
    cbn [raw_t.get] in H1, H2, H3, H4, H5, H6, H7, H8, H9, H10, H11, H12,
      H13, H14, H15, H16, H17, H18, H19, H20, H21.
    rewrite H1, H2, H3, H4, H5, H6, H7, H8, H9, H10, H11, H12, H13, H14,
      H15, H16, H17, H18, H19, H20, H21.
    cbn [raw_t.bind].
    eexists. split; [reflexivity|].
    cbn [raw_t.svid raw_t.WN raw_t.URA raw_t.SV_health raw_t.iodc
         raw_t.iode raw_t.fit_interval_flag].
    rewrite !store_in_range by assumption.
    split; [reflexivity|]. split; [reflexivity|]. split; [reflexivity|].
    split; [reflexivity|]. split; [reflexivity|]. split; [reflexivity|].
    split; [apply fit_interval_flag_round_trip_flag|].
    intro i; destruct i; reflexivity. }
  destruct Hex as (r' & Hof & H1 & H2 & H3 & H4 & H5 & H6 & H7 & Hget).
  exists r'.
  split; [exact Hof|]. split; [exact H1|]. split; [exact H2|].
  split; [exact H3|]. split; [exact H4|]. split; [exact H5|].
  split; [exact H6|]. split; [exact H7|]. split; [exact Hget|].
  intro Hpos.
  assert (Hsame : forall i, raw_t.in_semicircles i = true ->
                    raw_t.get i r' = raw_t.get i r).
  { intros i Hi. rewrite Hget. specialize (Hpos i Hi).
    apply Z.leb_le in Hpos. rewrite Hpos. reflexivity. }
  split; [exact Hsame|].
  assert (Hall : forall i, (Z.abs (raw_t.get i r' - raw_t.get i r) <= 1)%Z).
  { intro i. rewrite Hget. destruct (0 <=? raw_t.get i r)%Z; lia. }
  unfold raw_t.is_equivalent.
  rewrite !andb_true_iff, !CHECK_raw, !Z.eqb_eq.
  cbn [raw_t.to_Ephemeris Ephemeris.WN Ephemeris.URA Ephemeris.SV_health].
  repeat match goal with |- _ /\ _ => split end;
    try assumption; apply Hall.
Qed.

(** A record without negative angles: the three negative fields scaled by
    powers of two come back one unit up, and the ephemeris of the result
    is equivalent to the ephemeris of the record. *)
Lemma raw_round_trip_witness :
  exists r',
    raw_t.of_Ephemeris (raw_t.to_Ephemeris Examples.low_orbit_raw_east)
    = Some r'
    /\ map (fun i => (raw_t.get i r'
                      - raw_t.get i Examples.low_orbit_raw_east)%Z)
         [raw_t.SF_t_GD; raw_t.SF_t_oc; raw_t.SF_a_f1; raw_t.SF_c_uc;
          raw_t.SF_c_is; raw_t.SF_Omega0; raw_t.SF_dot_Omega0]
       = [1; 0; 1; 1; 1; 0; 0]%Z
    /\ raw_t.is_equivalent (raw_t.to_Ephemeris r')
         (raw_t.to_Ephemeris Examples.low_orbit_raw_east) = true.
Proof.
  destruct (raw_round_trip Examples.low_orbit_raw_east) as
    (r' & Hof & _ & _ & _ & _ & _ & _ & _ & Hget & Heq).
  - vm_compute. intuition congruence.
  - intro i; destruct i; vm_compute; split; congruence.
  - vm_compute; congruence.
  - vm_compute; congruence.
  - exists r'. split; [exact Hof|]. split.
    + cbn [map]. rewrite !Hget. reflexivity.
    + apply Heq. intros i Hi.
      destruct i; try discriminate Hi; vm_compute; discriminate.
Defined.

(** X11: When the fit interval is at least one hour, an ephemeris for which no
    better one may be available is valid: the first test of
    [select_ephemeris] follows from the second. *)
Theorem not_maybe_better_is_valid (eph : Ephemeris.t) (tm : GPS_Time.t) :
  60 * 60 <= Ephemeris.fit_interval eph ->
  Ephemeris.maybe_better_one_avilable eph tm = false ->
  Ephemeris.is_valid eph tm = true.
Proof.
  intros Hfit H.
  unfold Ephemeris.maybe_better_one_avilable in H.
  cbv zeta in H. apply negb_false_iff in H.
  apply andb_true_iff in H. destruct H as [H0 H1].
  rewrite geb_le in H0. rewrite ltb_lt in H1.
  unfold Ephemeris.period_from_first_valid_transmittion in H0, H1.
  unfold Ephemeris.is_valid. rewrite leb_le.
  apply Qabs_Qle_condition.
  set (p := Ephemeris.period_from_time_of_clock eph tm) in *.
  set (f := Ephemeris.fit_interval eph) in *.
  assert (E2 : f / 2 == f * (1 # 2)) by (field).
  rewrite E2 in *.
  destruct (Float.gtb f (4 * 60 * 60)) eqn:Eg.
  - rewrite E2 in H1. split; lra.
  - split; lra.
Qed.

Lemma not_maybe_better_is_valid_witness :
  Ephemeris.is_valid Examples.sat_eph Examples.sat_time = true.
Proof.
  refine (not_maybe_better_is_valid Examples.sat_eph Examples.sat_time _ _).
  - vm_compute; congruence.
  - vm_compute; reflexivity.
Defined.

(** ** User range accuracy: index and meters *)

(** X12: [URA_index] after [URA_meter] gives the index back, clamped: [-1] for
    every negative index and 15 for every index above 15. *)
Theorem URA_index_of_meter (index : Z) :
  Ephemeris.URA_index (Ephemeris.URA_meter index)
  = Z.max (-1) (Z.min index 15).
Proof.
  destruct (Z.ltb_spec index 0) as [Hneg|Hpos].
  - unfold Ephemeris.URA_meter.
    destruct (Z.ltb_spec index 0) as [_|]; [|lia].
    rewrite Z.min_l, Z.max_l by lia. reflexivity.
  - destruct (Z.ltb_spec index 15) as [Hlt|Hge].
    + rewrite Z.min_l, Z.max_r by lia.
      assert (Hc : (index = 0 \/ index = 1 \/ index = 2 \/ index = 3
                    \/ index = 4 \/ index = 5 \/ index = 6 \/ index = 7
                    \/ index = 8 \/ index = 9 \/ index = 10 \/ index = 11
                    \/ index = 12 \/ index = 13 \/ index = 14)%Z) by lia.
      repeat (destruct Hc as [Hc|Hc]; [subst index; vm_compute; reflexivity|]).
      subst index; vm_compute; reflexivity.
    + rewrite Z.min_r, Z.max_r by lia.
      unfold Ephemeris.URA_meter.
      destruct (Z.ltb_spec index 0) as [|_]; [lia|].
      change Ephemeris.URA_MAX_INDEX with 15%Z.
      destruct (Z.ltb_spec index 15) as [|_]; [lia|].
      vm_compute. reflexivity.
Qed.

(** The loop of [URA_index] on a list of limits: the result is the index
    of the first limit that is not below the given value. *)
Lemma URA_index_loop_spec (limits : list Q) (i : Z) (meter : Q) :
  let r := Ephemeris.URA_index_loop limits i meter in
  (r = Ephemeris.URA_MAX_INDEX
   /\ forall k, (k < length limits)%nat -> nth k limits 0 < meter)
  \/ (exists k, (k < length limits)%nat
        /\ r = (i + Z.of_nat k)%Z
        /\ meter <= nth k limits 0
        /\ forall j, (j < k)%nat -> nth j limits 0 < meter).
Proof.
  revert i. induction limits as [|l rest IH]; intro i; cbn zeta.
  - left. split; [reflexivity|]. intros k Hk. inversion Hk.
  - cbn [Ephemeris.URA_index_loop].
    destruct (Float.leb meter l) eqn:E.
    + right. exists 0%nat. cbn [length nth].
      split; [lia|]. split; [lia|]. split; [apply leb_le; exact E|].
      intros j Hj. inversion Hj.
    + apply leb_gt in E.
      destruct (IH (i + 1)%Z) as [[Hr Hall]|(k & Hk & Hr & Hle & Hlt)].
      * left. split; [exact Hr|].
        intros k Hk. destruct k as [|k]; cbn [nth]; [exact E|].
        apply Hall. cbn [length] in Hk. lia.
      * right. exists (S k). cbn [length nth].
        split; [lia|]. split; [lia|]. split; [exact Hle|].
        intros j Hj. destruct j as [|j]; [exact E|].
        apply Hlt. lia.
Qed.

(** X13: [URA_index] of an accuracy that is not negative is the smallest index
    whose limit is not below the accuracy: the limit of the index found
    bounds the accuracy from above as long as the accuracy does not exceed
    the last limit, 6144 m, and the limits of all smaller indices are
    below the accuracy. *)
Theorem URA_index_smallest (meter : Q) :
  0 <= meter ->
  (0 <= Ephemeris.URA_index meter <= 15)%Z
  /\ (meter <= 6144 ->
      meter <= Ephemeris.URA_meter (Ephemeris.URA_index meter))
  /\ (forall j, (0 <= j < Ephemeris.URA_index meter)%Z ->
                Ephemeris.URA_meter j < meter).
Proof.
  intro Hpos. unfold Ephemeris.URA_index.
  assert (E0 : Float.ltb meter 0 = false) by (apply ltb_ge; exact Hpos).
  rewrite E0.
  assert (Hm : forall j, (0 <= j < 15)%Z ->
             Ephemeris.URA_meter j
             = nth (Z.to_nat j) Ephemeris.URA_limits 0).
  { intros j Hj. unfold Ephemeris.URA_meter.
    destruct (Z.ltb_spec j 0) as [|_]; [lia|].
    change Ephemeris.URA_MAX_INDEX with 15%Z.
    destruct (Z.ltb_spec j 15) as [_|]; [reflexivity|lia]. }
  destruct (URA_index_loop_spec Ephemeris.URA_limits 0 meter)
    as [[Hr Hall]|(k & Hk & Hr & Hle & Hlt)]; cbv zeta in Hr.
  - rewrite Hr. change Ephemeris.URA_MAX_INDEX with 15%Z.
    split; [lia|]. split.
    + intro Hmax. exfalso.
      pose proof (Hall 14%nat) as H14.
      change (length Ephemeris.URA_limits) with 15%nat in H14.
      change (nth 14 Ephemeris.URA_limits 0) with 6144 in H14.
      assert (H : 6144 < meter) by (apply H14; lia).
      exact (Qlt_irrefl _ (Qlt_le_trans _ _ _ H Hmax)).
    + intros j Hj. rewrite (Hm j Hj). apply Hall.
      change (length Ephemeris.URA_limits) with 15%nat. lia.
  - rewrite Hr. change (length Ephemeris.URA_limits) with 15%nat in Hk.
    split; [lia|]. split.
    + intros _. rewrite (Hm (0 + Z.of_nat k)%Z) by lia.
      replace (Z.to_nat (0 + Z.of_nat k)) with k by lia. exact Hle.
    + intros j Hj. rewrite (Hm j) by lia. apply Hlt. lia.
Qed.

Lemma URA_index_smallest_witness :
  (0 <= Ephemeris.URA_index 5 <= 15)%Z
  /\ (5 <= 6144 -> 5 <= Ephemeris.URA_meter (Ephemeris.URA_index 5))
  /\ (forall j, (0 <= j < Ephemeris.URA_index 5)%Z ->
                Ephemeris.URA_meter j < 5).
Proof.
  refine (URA_index_smallest 5 _). vm_compute; congruence.
Defined.
(** ** Numerical integration *)

(** X14: On the linear equation [y' = lambda * y], one step of each method
    multiplies [y] by the Taylor polynomial of the exponential in
    [lambda * h], of degree 1 for Euler's method, 2 for RK2 and 4 for
    RK4. *)
Theorem steps_on_linear_equation (lambda x y h : Q) :
  let f := fun (_ : Q) (v : Q) => lambda * v in
  let z := lambda * h in
  Integral.nextByEuler f x y h == y * (1 + z)
  /\ Integral.nextByRK2 f x y h == y * (1 + z + z * z / 2)
  /\ Integral.nextByRK4 f x y h
     == y * (1 + z + z * z / 2 + z * z * z / 6 + z * z * z * z / 24).
Proof.
  cbv zeta.
  unfold Integral.nextByEuler, Integral.nextByRK2, Integral.nextByRK4.
  split; [ring|]. split; field.
Qed.

(** X15: When the derivative does not depend on [y], one step is a quadrature
    rule: RK4 is Simpson's rule and integrates every cubic exactly, RK2 is
    the trapezoidal rule and integrates every linear function exactly, and
    Euler's method integrates the constants exactly. *)
Theorem steps_are_quadrature_rules (a b c d x y h : Q) :
  let cubic := fun (t : Q) (_ : Q) => a * (t * t * t) + b * (t * t) + c * t + d in
  let linear := fun (t : Q) (_ : Q) => c * t + d in
  let constant := fun (_ : Q) (_ : Q) => d in
  let P := fun t : Q =>
    a * (t * t * t * t) / 4 + b * (t * t * t) / 3 + c * (t * t) / 2 + d * t in
  let P1 := fun t : Q => c * (t * t) / 2 + d * t in
  Integral.nextByRK4 cubic x y h == y + (P (x + h) - P x)
  /\ Integral.nextByRK2 linear x y h == y + (P1 (x + h) - P1 x)
  /\ Integral.nextByEuler constant x y h == y + d * h.
Proof.
  cbv zeta.
  unfold Integral.nextByEuler, Integral.nextByRK2, Integral.nextByRK4.
  split; [field|]. split; [field|ring].
Qed.
(** ** Real-Time synchronizer: which snapshots [setup_correct] keeps *)

Section RealTimeFacts.

Variable Base : Type.

Lemma total_elapsedT_cons (s : RealTime.snapshot_content_t Base)
    (l : RealTime.snapshots_t Base) :
  RealTime.total_elapsedT (s :: l)
  = RealTime.elapsedT_from_last_update s + RealTime.total_elapsedT l.
Proof. reflexivity. Qed.

Lemma total_elapsedT_nil :
  RealTime.total_elapsedT (@nil (RealTime.snapshot_content_t Base)) = 0.
Proof. reflexivity. Qed.

Lemma total_elapsedT_app (a b : RealTime.snapshots_t Base) :
  RealTime.total_elapsedT (a ++ b)
  == RealTime.total_elapsedT a + RealTime.total_elapsedT b.
Proof.
  induction a as [|s a IH]; cbn [app].
  - rewrite total_elapsedT_nil. ring.
  - rewrite !total_elapsedT_cons, IH. ring.
Qed.

Lemma total_elapsedT_rev (l : RealTime.snapshots_t Base) :
  RealTime.total_elapsedT (rev l) == RealTime.total_elapsedT l.
Proof.
  induction l as [|s l IH]; cbn [rev].
  - reflexivity.
  - rewrite total_elapsedT_app, IH.
    rewrite !total_elapsedT_cons, total_elapsedT_nil. ring.
Qed.

(** The element at a position of a list, with the parts before and after. *)
Lemma firstn_skipn_at {X : Type} (l : list X) (j : nat) :
  (j < length l)%nat ->
  exists e, skipn j l = e :: skipn (S j) l
            /\ firstn (S j) l = firstn j l ++ [e].
Proof.
  revert j. induction l as [|x l IH]; intros j Hj; [inversion Hj|].
  destruct j as [|j].
  - exists x. split; reflexivity.
  - cbn [length] in Hj. destruct (IH j) as (e & H1 & H2); [lia|].
    exists e. split.
    + exact H1.
    + change (firstn (S (S j)) (x :: l)) with (x :: firstn (S j) l).
      rewrite H2. reflexivity.
Qed.

(** The loop of [setup_correct]: it stops at the first snapshot, counted
    from the newest, at which the accumulated [advanceT] exceeds -5 ms. *)
Lemma setup_scan_spec (l : RealTime.snapshots_t Base) (k : nat) (adv : Q) :
  match RealTime.setup_scan l k adv with
  | Some n =>
      exists j, (j < length l)%nat
        /\ n = (if Nat.eqb (k + j) 0 then 1 else k + j)%nat
        /\ - (5 # 1000) < adv + RealTime.total_elapsedT (firstn (S j) l)
        /\ forall i, (i < j)%nat ->
             adv + RealTime.total_elapsedT (firstn (S i) l) <= - (5 # 1000)
  | None =>
      forall i, (i < length l)%nat ->
        adv + RealTime.total_elapsedT (firstn (S i) l) <= - (5 # 1000)
  end.
Proof.
  revert k adv. induction l as [|s l IH]; intros k adv.
  - cbn [RealTime.setup_scan]. intros i Hi. inversion Hi.
  - cbn [RealTime.setup_scan].
    destruct (Float.gtb (adv + RealTime.elapsedT_from_last_update s)
                (- (5 # 1000))) eqn:E.
    + exists 0%nat. rewrite Nat.add_0_r. cbn [length].
      split; [lia|]. split; [reflexivity|]. split.
      * apply gtb_lt in E.
        cbn [firstn].
        rewrite total_elapsedT_cons, total_elapsedT_nil. lra.
      * intros i Hi. inversion Hi.
    + apply gtb_le in E.
      specialize (IH (S k) (adv + RealTime.elapsedT_from_last_update s)).
      destruct (RealTime.setup_scan l (S k)
                  (adv + RealTime.elapsedT_from_last_update s)) as [n|].
      * destruct IH as (j & Hj & Hn & Hcross & Hbelow).
        exists (S j). cbn [length]. split; [lia|]. split.
        { rewrite Hn. replace (k + S j)%nat with (S k + j)%nat by lia.
          reflexivity. }
        split.
        { change (firstn (S (S j)) (s :: l)) with (s :: firstn (S j) l).
          rewrite total_elapsedT_cons. lra. }
        intros i Hi. destruct i as [|i].
        { cbn [firstn].
          rewrite total_elapsedT_cons, total_elapsedT_nil. lra. }
        change (firstn (S (S i)) (s :: l)) with (s :: firstn (S i) l).
        rewrite total_elapsedT_cons.
        assert (Hi' : (i < j)%nat) by lia.
        specialize (Hbelow i Hi'). lra.
      * intros i Hi. destruct i as [|i].
        { cbn [firstn].
          rewrite total_elapsedT_cons, total_elapsedT_nil. lra. }
        change (firstn (S (S i)) (s :: l)) with (s :: firstn (S i) l).
        rewrite total_elapsedT_cons.
        cbn [length] in Hi.
        assert (Hi' : (i < length l)%nat) by lia.
        specialize (IH i Hi'). lra.
Qed.

(** The newest [n] snapshots of a list, as [erase] leaves them. *)
Lemma newest_total (l : RealTime.snapshots_t Base) (n : nat) :
  RealTime.total_elapsedT (skipn (length l - n) l)
  == RealTime.total_elapsedT (firstn n (rev l)).
Proof.
  rewrite firstn_rev, total_elapsedT_rev. reflexivity.
Qed.

(** X16: Success of [setup_correct]: [advanceT] is not positive, and the
    snapshots that stay are the newest ones, at least one; the filter and
    the mode are left as they are.  When [advanceT] and the intervals of
    the snapshots are numbers that [double] adds without rounding
    (multiples of [2^-20] up to [2^10], at most [2^20] snapshots), the
    place of the cut is this: either only the newest stays, [advanceT]
    plus its interval being above -5 ms; or the intervals of the snapshots
    that stay, added to [advanceT], give -5 ms at most, and the interval
    of the newest erased snapshot brings the sum above -5 ms. *)
Theorem setup_correct_success
    (st st' : RealTime.t Base) (advanceT : Q) :
  RealTime.setup_correct st advanceT = (true, st') ->
  advanceT <= 0
  /\ RealTime.self st' = RealTime.self st
  /\ RealTime.rt_mode st' = RealTime.rt_mode st
  /\ RealTime.snapshots st' <> []
  /\ exists erased,
       RealTime.snapshots st = erased ++ RealTime.snapshots st'
       /\ (Float.on_grid advanceT = true ->
           forallb (fun s =>
                      Float.on_grid (RealTime.elapsedT_from_last_update s))
             (RealTime.snapshots st) = true ->
           (Z.of_nat (length (RealTime.snapshots st)) <= 2 ^ 20)%Z ->
           (length (RealTime.snapshots st') = 1%nat
            /\ - (5 # 1000)
               < advanceT + RealTime.total_elapsedT (RealTime.snapshots st'))
           \/ (advanceT + RealTime.total_elapsedT (RealTime.snapshots st')
               <= - (5 # 1000)
               /\ exists erased' e,
                    erased = erased' ++ [e]
                    /\ - (5 # 1000)
                       < advanceT
                         + RealTime.total_elapsedT (RealTime.snapshots st')
                         + RealTime.elapsedT_from_last_update e)).
Proof.
  unfold RealTime.setup_correct. intro H.
  destruct (Float.gtb advanceT 0) eqn:Eadv; [discriminate H|].
  apply gtb_le in Eadv.
  pose proof (setup_scan_spec (rev (RealTime.snapshots st)) 0 advanceT)
    as Hspec.
  destruct (RealTime.setup_scan (rev (RealTime.snapshots st)) 0 advanceT)
    as [n|]; [|discriminate H].
  injection H as H. subst st'.
  cbn [RealTime.self RealTime.rt_mode RealTime.snapshots].
  set (l := RealTime.snapshots st) in *.
  destruct Hspec as (j & Hj & Hn & Hcross & Hbelow).
  rewrite length_rev in Hj. cbn [Nat.add] in Hn.
  split; [exact Eadv|]. split; [reflexivity|]. split; [reflexivity|].
  assert (Hn1 : (1 <= n <= length l)%nat).
  { destruct j as [|j]; cbn [Nat.eqb] in Hn; lia. }
  split.
  { intro Hnil. apply (f_equal (@length _)) in Hnil.
    rewrite length_skipn in Hnil. cbn [length] in Hnil. lia. }
  exists (firstn (length l - n) l).
  split; [symmetry; apply firstn_skipn|].
  intros _ _ _.
  destruct j as [|j]; cbn [Nat.eqb] in Hn; subst n.
  - left. split.
    + rewrite length_skipn. lia.
    + rewrite newest_total. exact Hcross.
  - right. split.
    + rewrite newest_total. apply Hbelow. lia.
    + destruct (firstn_skipn_at (rev l) (S j)) as (e & Hsk & Hfi).
      { rewrite length_rev. exact Hj. }
      exists (rev (skipn (S (S j)) (rev l))), e. split.
      * rewrite <- (rev_involutive (firstn (length l - S j) l)).
        rewrite <- skipn_rev, Hsk. reflexivity.
      * rewrite newest_total.
        rewrite Hfi, total_elapsedT_app in Hcross.
        rewrite total_elapsedT_cons, total_elapsedT_nil in Hcross.
        lra.
Qed.

(** X17: Failure of [setup_correct] for an [advanceT] that is not positive: the
    state is left as it is, and this is what happens without snapshots.
    When [advanceT] and the intervals of the snapshots are numbers that
    [double] adds without rounding (multiples of [2^-20] up to [2^10], at
    most [2^20] snapshots), [setup_correct] fails exactly when the
    measurement is too old, that is, when [advanceT] plus the intervals of
    the newest snapshots, however many are taken, never exceeds -5 ms. *)
Theorem setup_correct_too_old (st : RealTime.t Base) (advanceT : Q) :
  advanceT <= 0 ->
  (forall st', RealTime.setup_correct st advanceT = (false, st') -> st' = st)
  /\ (RealTime.snapshots st = [] ->
      RealTime.setup_correct st advanceT = (false, st))
  /\ (Float.on_grid advanceT = true ->
      forallb (fun s =>
                 Float.on_grid (RealTime.elapsedT_from_last_update s))
        (RealTime.snapshots st) = true ->
      (Z.of_nat (length (RealTime.snapshots st)) <= 2 ^ 20)%Z ->
      (RealTime.setup_correct st advanceT = (false, st)
       <-> forall k, (k < length (RealTime.snapshots st))%nat ->
             advanceT
             + RealTime.total_elapsedT
                 (skipn (length (RealTime.snapshots st) - S k)
                    (RealTime.snapshots st))
             <= - (5 # 1000))).
Proof.
  intro Hadv. unfold RealTime.setup_correct.
  assert (Eadv : Float.gtb advanceT 0 = false) by (apply gtb_le; exact Hadv).
  rewrite Eadv.
  split; [|split].
  - intros st' H.
    destruct (RealTime.setup_scan (rev (RealTime.snapshots st)) 0 advanceT);
      [discriminate H|].
    injection H as H. symmetry. exact H.
  - intro Hnil. rewrite Hnil. reflexivity.
  - intros _ _ _.
    pose proof (setup_scan_spec (rev (RealTime.snapshots st)) 0 advanceT)
      as Hspec.
    destruct (RealTime.setup_scan (rev (RealTime.snapshots st)) 0 advanceT)
      as [n|].
    + destruct Hspec as (j & Hj & _ & Hcross & _).
      rewrite length_rev in Hj.
      split; [discriminate|].
      intro Hall. exfalso. specialize (Hall j Hj).
      rewrite newest_total in Hall. lra.
    + split; [|reflexivity].
      intros _ k Hk. rewrite newest_total. apply Hspec.
      rewrite length_rev. exact Hk.
Qed.

(** X18: A measurement without delay, right after a time update: when the
    interval of the update is above -5 ms, [setup_correct(0)] succeeds and
    keeps the snapshot of that update alone. *)
Theorem setup_correct_after_update
    (getQ : RealTime.INS_GPS Base -> Matrix.mat_t)
    (inverse : Matrix.mat_t -> Matrix.mat_t)
    (A B : Matrix.mat_t) (elapsedT : Q) (st : RealTime.t Base) :
  - (5 # 1000) < elapsedT ->
  let updated := RealTime.before_update_INS Base getQ inverse A B elapsedT st in
  exists s,
    RealTime.setup_correct updated 0
    = (true, {| RealTime.self := RealTime.self st;
                RealTime.snapshots := [s];
                RealTime.rt_mode := RealTime.rt_mode st |})
    /\ RealTime.snapshots updated = RealTime.snapshots st ++ [s]
    /\ RealTime.ins_gps s = RealTime.self st
    /\ RealTime.A s = A
    /\ RealTime.elapsedT_from_last_update s = elapsedT.
Proof.
  intros Hdt updated. unfold updated, RealTime.before_update_INS.
  cbv zeta. eexists. split; [|split; [cbn [RealTime.snapshots]; reflexivity|]].
  - unfold RealTime.setup_correct.
    change (Float.gtb 0 0) with false. cbv iota.
    cbn [RealTime.snapshots RealTime.self RealTime.rt_mode].
    rewrite rev_app_distr. cbn [rev app RealTime.setup_scan].
    cbn [RealTime.elapsedT_from_last_update].
    assert (E : Float.gtb (0 + elapsedT) (- (5 # 1000)) = true).
    { apply gtb_lt. lra. }
    rewrite E. cbn [Nat.eqb].
    rewrite length_app. cbn [length].
    replace (length (RealTime.snapshots st) + 1 - 1)%nat
      with (length (RealTime.snapshots st) + 0)%nat by lia.
    rewrite skipn_app, Nat.add_0_r, skipn_all, Nat.sub_diag.
    reflexivity.
  - cbn [RealTime.ins_gps RealTime.A RealTime.elapsedT_from_last_update].
    split; [reflexivity|]. split; reflexivity.
Qed.

(** X19: Neither mode of the compensation touches the residual [z], and without
    snapshots the measurement is passed on as it is. *)
Theorem compensate_keeps_residual
    (mode : RealTime.rt_mode_t) (l : RealTime.snapshots_t Base)
    (info : CorrectInfo.t) :
  CorrectInfo.z (RealTime.compensate mode l info) = CorrectInfo.z info
  /\ RealTime.compensate mode (@nil (RealTime.snapshot_content_t Base)) info
     = info.
Proof.
  split.
  - destruct mode.
    + cbn [RealTime.compensate]. unfold RealTime.compensate_normal.
      revert info. induction l as [|s l IH]; intro info; cbn [fold_left].
      * reflexivity.
      * rewrite IH. reflexivity.
    + cbn [RealTime.compensate]. destruct l; reflexivity.
  - destruct mode; reflexivity.
Qed.

End RealTimeFacts.

(** Three snapshots of 1/128 s and a measurement that is 3/128 s old: the
    newest two snapshots stay, their intervals leaving -1/128 s, and the
    interval of the erased one brings the sum to zero. *)
Lemma setup_correct_success_witness :
  exists erased' e,
    RealTime.snapshots Examples.grid_rt_state
    = (erased' ++ [e]) ++ RealTime.snapshots Examples.grid_rt_newest_two
    /\ - (3 # 128)
       + RealTime.total_elapsedT
           (RealTime.snapshots Examples.grid_rt_newest_two)
       <= - (5 # 1000)
    /\ - (5 # 1000)
       < - (3 # 128)
         + RealTime.total_elapsedT
             (RealTime.snapshots Examples.grid_rt_newest_two)
         + RealTime.elapsedT_from_last_update e.
Proof.
  destruct (setup_correct_success unit Examples.grid_rt_state
              Examples.grid_rt_newest_two (- (3 # 128)))
    as (_ & _ & _ & _ & erased & Hsplit & Hcut).
  - vm_compute. reflexivity.
  - destruct Hcut as [[Hlen _] | (Hle & erased' & e & He & Hlt)].
    + reflexivity.
    + reflexivity.
    + vm_compute. discriminate.
    + discriminate Hlen.
    + exists erased', e. rewrite <- He.
      split; [exact Hsplit|]. split; [exact Hle | exact Hlt].
Defined.

(** The same snapshots and a measurement that is one second old: too old. *)
Lemma setup_correct_too_old_witness :
  RealTime.setup_correct Examples.grid_rt_state (- (1))
  = (false, Examples.grid_rt_state)
  /\ forall k,
       (k < length (RealTime.snapshots Examples.grid_rt_state))%nat ->
       - (1)
       + RealTime.total_elapsedT
           (skipn (length (RealTime.snapshots Examples.grid_rt_state)
                   - S k)
              (RealTime.snapshots Examples.grid_rt_state))
       <= - (5 # 1000).
Proof.
  assert (H : RealTime.setup_correct Examples.grid_rt_state (- (1))
              = (false, Examples.grid_rt_state))
    by (vm_compute; reflexivity).
  split; [exact H|].
  refine (proj1 (proj2 (proj2
            (setup_correct_too_old unit Examples.grid_rt_state (- (1)) _))
            _ _ _) H).
  - vm_compute. congruence.
  - reflexivity.
  - reflexivity.
  - vm_compute. discriminate.
Defined.

Lemma setup_correct_after_update_witness :
  exists s,
    RealTime.setup_correct
      (RealTime.before_update_INS unit (fun _ => Examples.clock_GQGt)
         (fun m => m) Examples.clock_A Examples.clock_A (1 # 100)
         Examples.example_rt_state) 0
    = (true, {| RealTime.self := RealTime.self Examples.example_rt_state;
                RealTime.snapshots := [s];
                RealTime.rt_mode :=
                  RealTime.rt_mode Examples.example_rt_state |})
    /\ RealTime.snapshots
         (RealTime.before_update_INS unit (fun _ => Examples.clock_GQGt)
            (fun m => m) Examples.clock_A Examples.clock_A (1 # 100)
            Examples.example_rt_state)
       = RealTime.snapshots Examples.example_rt_state ++ [s]
    /\ RealTime.ins_gps s = RealTime.self Examples.example_rt_state
    /\ RealTime.A s = Examples.clock_A
    /\ RealTime.elapsedT_from_last_update s = 1 # 100.
Proof.
  refine (setup_correct_after_update unit (fun _ => Examples.clock_GQGt)
            (fun m => m) Examples.clock_A Examples.clock_A (1 # 100)
            Examples.example_rt_state _).
  vm_compute. reflexivity.
Defined.
(** ** Back-Propagate synchronizer: elapsed times *)

Section BackPropagateElapsed.

Variable INS_GPS : Type.
Variable getQ : INS_GPS -> Matrix.mat_t.
Variable correct_primitive :
  INS_GPS -> Matrix.mat_t -> Matrix.mat_t -> Matrix.mat_t -> INS_GPS.

(** One time update appends one snapshot, whose elapsed time is that of
    the last snapshot plus the interval. *)
Lemma before_update_INS_back (A B : Matrix.mat_t) (elapsedT : Q)
    (st : Back_Propagate.t INS_GPS) :
  let st' := Back_Propagate.before_update_INS getQ A B elapsedT st in
  Back_Propagate.back_elapsedT (Back_Propagate.snapshots st')
  == Back_Propagate.back_elapsedT (Back_Propagate.snapshots st) + elapsedT
  /\ length (Back_Propagate.snapshots st')
     = S (length (Back_Propagate.snapshots st))
  /\ Back_Propagate.self st' = Back_Propagate.self st
  /\ Back_Propagate.back_propagate_depth st'
     = Back_Propagate.back_propagate_depth st.
Proof.
  cbv zeta. unfold Back_Propagate.before_update_INS.
  cbn [Back_Propagate.snapshots Back_Propagate.self
       Back_Propagate.back_propagate_depth].
  split.
  - unfold Back_Propagate.back_elapsedT. rewrite rev_app_distr.
    cbn [rev app Back_Propagate.elapsedT_from_last_correct].
    destruct (rev (Back_Propagate.snapshots st)); ring.
  - rewrite length_app. cbn [length].
    split; [lia|]. split; reflexivity.
Qed.


(** The walk does not lengthen the list. *)
Lemma walk_length (depth mod_elapsedT : Q)
    (l : Back_Propagate.snapshots_t INS_GPS) :
  (length (Back_Propagate.walk depth mod_elapsedT l) <= length l)%nat.
Proof.
  induction l as [|s l IH]; cbn [Back_Propagate.walk length]; [lia|].
  destruct (Float.ltb (Back_Propagate.elapsedT_from_last_correct s) depth).
  - destruct (Float.gtb mod_elapsedT Float.lit_0_1); cbn [length]; lia.
  - cbn [length]. lia.
Qed.

(** X21: The walk of [before_correct_INS] is made once per epoch: on the list
    it leaves, it changes nothing. *)
Theorem walk_snapshots_idempotent (depth : Q)
    (l : Back_Propagate.snapshots_t INS_GPS) :
  Back_Propagate.walk_snapshots depth (Back_Propagate.walk_snapshots depth l)
  = Back_Propagate.walk_snapshots depth l.
Proof.
  remember (Back_Propagate.walk_snapshots depth l) as w eqn:Hw.
  unfold Back_Propagate.walk_snapshots in Hw.
  destruct (rev l) as [|back rest] eqn:E.
  - subst w. unfold Back_Propagate.walk_snapshots. rewrite E. reflexivity.
  - destruct (Float.gtb (Back_Propagate.elapsedT_from_last_correct back) 0)
      eqn:G.
    + cbn [Back_Propagate.walk] in Hw.
      destruct (Float.ltb (Back_Propagate.elapsedT_from_last_correct back)
                  depth) eqn:Ed.
      * destruct (Float.gtb (Back_Propagate.elapsedT_from_last_correct back)
                    Float.lit_0_1) eqn:G1.
        { subst w. reflexivity. }
        { rewrite <- E, rev_involutive in Hw. subst w.
          unfold Back_Propagate.walk_snapshots. rewrite E, G.
          cbn [Back_Propagate.walk]. rewrite Ed, G1.
          rewrite <- E, rev_involutive. reflexivity. }
      * subst w. unfold Back_Propagate.walk_snapshots.
        rewrite rev_involutive.
        cbn [Back_Propagate.rebase Back_Propagate.elapsedT_from_last_correct].
        assert (G0 : Float.gtb
                       (Back_Propagate.elapsedT_from_last_correct back
                        - Back_Propagate.elapsedT_from_last_correct back) 0
                     = false).
        { apply gtb_le. lra. }
        rewrite G0. reflexivity.
    + subst w. unfold Back_Propagate.walk_snapshots. rewrite E, G.
      reflexivity.
Qed.

(** X22: A measurement update after time updates: when the newest snapshot has
    a positive elapsed time that is not below the depth, the snapshots
    that stay end with the corrected newest snapshot, whose elapsed time
    is 0 and whose filter is corrected with [H * Phi] and
    [R + H * GQGt * H^T]; no snapshot is added, and the live filter and
    the depth are left as they are. *)
Theorem before_correct_INS_newest
    (H R v : Matrix.mat_t) (st : Back_Propagate.t INS_GPS)
    (older : Back_Propagate.snapshots_t INS_GPS)
    (newest : Back_Propagate.snapshot_content_t INS_GPS) :
  Back_Propagate.snapshots st = older ++ [newest] ->
  0 < Back_Propagate.elapsedT_from_last_correct newest ->
  Back_Propagate.back_propagate_depth st
  <= Back_Propagate.elapsedT_from_last_correct newest ->
  let st' := Back_Propagate.before_correct_INS correct_primitive H R v st in
  exists older' corrected,
    Back_Propagate.snapshots st' = older' ++ [corrected]
    /\ (length older' <= length older)%nat
    /\ Back_Propagate.elapsedT_from_last_correct corrected == 0
    /\ Back_Propagate.ins_gps corrected
       = correct_primitive (Back_Propagate.ins_gps newest)
           (H * Back_Propagate.Phi newest)%mat v
           (R + H * Back_Propagate.GQGt newest * Matrix.transpose H)%mat
    /\ Back_Propagate.Phi corrected = Back_Propagate.Phi newest
    /\ Back_Propagate.GQGt corrected = Back_Propagate.GQGt newest
    /\ Back_Propagate.self st' = Back_Propagate.self st
    /\ Back_Propagate.back_propagate_depth st'
       = Back_Propagate.back_propagate_depth st.
Proof.
  intros Hl Hpos Hdepth. cbv zeta.
  unfold Back_Propagate.before_correct_INS. rewrite Hl. clear Hl.
  destruct (older ++ [newest]) as [|x xs] eqn:Ex.
  { destruct older; discriminate Ex. }
  rewrite <- Ex. clear Ex x xs.
  unfold Back_Propagate.walk_snapshots.
  rewrite rev_app_distr. cbn [rev app].
  apply gtb_lt in Hpos. rewrite Hpos.
  cbn [Back_Propagate.walk].
  apply ltb_ge in Hdepth. rewrite Hdepth.
  rewrite rev_involutive.
  exists (rev (Back_Propagate.walk (Back_Propagate.back_propagate_depth st)
                 (Back_Propagate.elapsedT_from_last_correct newest)
                 (rev older))).
  eexists. cbn [Back_Propagate.snapshots Back_Propagate.self
                Back_Propagate.back_propagate_depth].
  split; [reflexivity|].
  cbn [Back_Propagate.elapsedT_from_last_correct Back_Propagate.ins_gps
       Back_Propagate.Phi Back_Propagate.GQGt Back_Propagate.rebase].
  split.
  { rewrite length_rev.
    etransitivity; [apply walk_length|]. rewrite length_rev. lia. }
  split; [ring|].
  split; [reflexivity|]. split; [reflexivity|]. split; [reflexivity|].
  split; reflexivity.
Qed.

End BackPropagateElapsed.

Lemma before_correct_INS_newest_witness :
  exists older' corrected,
    Back_Propagate.snapshots
      (Back_Propagate.before_correct_INS Examples.bp_correct_primitive
         Examples.bp_H Examples.bp_R Examples.bp_v
         (Examples.bp_after_update 1))
    = older' ++ [corrected]
    /\ (length older' <= length (@nil (Back_Propagate.snapshot_content_t unit)))%nat
    /\ Back_Propagate.elapsedT_from_last_correct corrected == 0
    /\ Back_Propagate.ins_gps corrected
       = Examples.bp_correct_primitive
           (Back_Propagate.ins_gps
              (Examples.bp_newest 1))
           (Examples.bp_H * Back_Propagate.Phi (Examples.bp_newest 1))%mat
           Examples.bp_v
           (Examples.bp_R
            + Examples.bp_H * Back_Propagate.GQGt (Examples.bp_newest 1)
              * Matrix.transpose Examples.bp_H)%mat
    /\ Back_Propagate.Phi corrected
       = Back_Propagate.Phi (Examples.bp_newest 1)
    /\ Back_Propagate.GQGt corrected
       = Back_Propagate.GQGt (Examples.bp_newest 1)
    /\ Back_Propagate.self
         (Back_Propagate.before_correct_INS Examples.bp_correct_primitive
            Examples.bp_H Examples.bp_R Examples.bp_v
            (Examples.bp_after_update 1))
       = Back_Propagate.self (Examples.bp_after_update 1)
    /\ Back_Propagate.back_propagate_depth
         (Back_Propagate.before_correct_INS Examples.bp_correct_primitive
            Examples.bp_H Examples.bp_R Examples.bp_v
            (Examples.bp_after_update 1))
       = Back_Propagate.back_propagate_depth (Examples.bp_after_update 1).
Proof.
  refine (before_correct_INS_newest unit Examples.bp_correct_primitive
            Examples.bp_H Examples.bp_R Examples.bp_v
            (Examples.bp_after_update 1) [] (Examples.bp_newest 1) _ _ _).
  - reflexivity.
  - vm_compute. reflexivity.
  - vm_compute. congruence.
Defined.
(** ** Clock jumps: residuals that follow the shift *)

Lemma gtb_Qeq (x y c : Q) : x == y -> Float.gtb x c = Float.gtb y c.
Proof.
  intro E. unfold Float.gtb, Float.ltb. f_equal.
  destruct (Qle_bool x c) eqn:E1; destruct (Qle_bool y c) eqn:E2;
    try reflexivity.
  - apply Qle_bool_iff in E1. rewrite E in E1. apply Qle_bool_iff in E1.
    congruence.
  - apply Qle_bool_iff in E2. rewrite <- E in E2. apply Qle_bool_iff in E2.
    congruence.
Qed.

Section ClockJumpFollows.

Variable Base : Type.
Variable Solver : Type.
Variable Measurement : Type.
Variable P_SIZE_WITHOUT_CLOCK_ERROR : nat.
Variable correct_primitive :
  RealTime.INS_GPS Base -> CorrectInfo.t -> RealTime.INS_GPS Base.
Variable generator :
  RealTime.INS_GPS Base -> RealTime.raw_data_t Solver Measurement -> Q
  -> CorrectInfo.t.

(** The loop of [range_residual_mean_ms] on two measurements with the same
    rows of the clock, the residuals of the second being those of the
    first less [shift]. *)
Lemma residual_sum_shift (index : nat) (info0 info1 : CorrectInfo.t)
    (shift : Q) (idxs : list nat) (a0 a1 : Q) (n : nat) :
  (forall i, In i idxs ->
     Matrix.at_ (CorrectInfo.H info1) i
       (P_SIZE_WITHOUT_CLOCK_ERROR + index * 2)%nat
     == Matrix.at_ (CorrectInfo.H info0) i
          (P_SIZE_WITHOUT_CLOCK_ERROR + index * 2)%nat) ->
  (forall i, In i idxs ->
     Matrix.at_ (CorrectInfo.H info0) i
       (P_SIZE_WITHOUT_CLOCK_ERROR + index * 2)%nat <= - (1 # 2) ->
     Matrix.at_ (CorrectInfo.z info1) i 0
     == Matrix.at_ (CorrectInfo.z info0) i 0 - shift) ->
  a1 == a0 - inject_Z (Z.of_nat n) * shift ->
  let r0 := fold_left (Tightly.residual_step P_SIZE_WITHOUT_CLOCK_ERROR
                         index info0) idxs (a0, n) in
  let r1 := fold_left (Tightly.residual_step P_SIZE_WITHOUT_CLOCK_ERROR
                         index info1) idxs (a1, n) in
  snd r1 = snd r0
  /\ fst r1 == fst r0 - inject_Z (Z.of_nat (snd r0)) * shift.
Proof.
  revert a0 a1 n. induction idxs as [|i idxs IH]; intros a0 a1 n HH Hz Ha.
  - cbn [fold_left fst snd]. split; [reflexivity | exact Ha].
  - cbn [fold_left].
    change (Tightly.residual_step P_SIZE_WITHOUT_CLOCK_ERROR index info0
              (a0, n) i)
      with (if Float.gtb
                 (Matrix.at_ (CorrectInfo.H info0) i
                    (P_SIZE_WITHOUT_CLOCK_ERROR + index * 2)%nat)
                 (- (1 # 2))
            then (a0, n)
            else (a0 + Matrix.at_ (CorrectInfo.z info0) i 0, S n)).
    change (Tightly.residual_step P_SIZE_WITHOUT_CLOCK_ERROR index info1
              (a1, n) i)
      with (if Float.gtb
                 (Matrix.at_ (CorrectInfo.H info1) i
                    (P_SIZE_WITHOUT_CLOCK_ERROR + index * 2)%nat)
                 (- (1 # 2))
            then (a1, n)
            else (a1 + Matrix.at_ (CorrectInfo.z info1) i 0, S n)).
    rewrite (gtb_Qeq _ _ (- (1 # 2)) (HH i (or_introl eq_refl))).
    destruct (Float.gtb
                (Matrix.at_ (CorrectInfo.H info0) i
                   (P_SIZE_WITHOUT_CLOCK_ERROR + index * 2)%nat)
                (- (1 # 2))) eqn:E.
    + apply IH.
      * intros j Hj. apply HH. right. exact Hj.
      * intros j Hj. apply Hz. right. exact Hj.
      * exact Ha.
    + apply IH.
      * intros j Hj. apply HH. right. exact Hj.
      * intros j Hj. apply Hz. right. exact Hj.
      * apply gtb_le in E.
        rewrite (Hz i (or_introl eq_refl) E), Ha.
        rewrite Nat2Z.inj_succ. unfold Z.succ. rewrite inject_Z_plus.
        ring.
Qed.

(** The mean residual of the second measurement is the mean of the first
    less the shift, in milliseconds of light. *)
Lemma residual_mean_shift (index : nat) (info0 info1 : CorrectInfo.t)
    (shift : Q) :
  Matrix.rows (CorrectInfo.z info1) = Matrix.rows (CorrectInfo.z info0) ->
  (forall i, (i < Matrix.rows (CorrectInfo.z info0))%nat ->
     Matrix.at_ (CorrectInfo.H info1) i
       (P_SIZE_WITHOUT_CLOCK_ERROR + index * 2)%nat
     == Matrix.at_ (CorrectInfo.H info0) i
          (P_SIZE_WITHOUT_CLOCK_ERROR + index * 2)%nat) ->
  (forall i, (i < Matrix.rows (CorrectInfo.z info0))%nat ->
     Matrix.at_ (CorrectInfo.H info0) i
       (P_SIZE_WITHOUT_CLOCK_ERROR + index * 2)%nat <= - (1 # 2) ->
     Matrix.at_ (CorrectInfo.z info1) i 0
     == Matrix.at_ (CorrectInfo.z info0) i 0 - shift) ->
  ~ Tightly.range_residual_mean_ms P_SIZE_WITHOUT_CLOCK_ERROR index info0
    == 0 ->
  Tightly.range_residual_mean_ms P_SIZE_WITHOUT_CLOCK_ERROR index info1
  == Tightly.range_residual_mean_ms P_SIZE_WITHOUT_CLOCK_ERROR index info0
     - shift / Tightly.light_speed / (1 # 1000).
Proof.
  intros Hrows HH Hz Hne.
  unfold Tightly.range_residual_mean_ms in *.
  unfold Tightly.range_residual_sum in *. rewrite Hrows.
  destruct (residual_sum_shift index info0 info1 shift
              (seq 0 (Matrix.rows (CorrectInfo.z info0))) 0 0 0)
    as [Hn Hs].
  { intros i Hi. apply HH. apply in_seq in Hi. lia. }
  { intros i Hi. apply Hz. apply in_seq in Hi. lia. }
  { cbn. ring. }
  cbv zeta in Hn, Hs.
  destruct (fold_left
              (Tightly.residual_step P_SIZE_WITHOUT_CLOCK_ERROR index info0)
              (seq 0 (Matrix.rows (CorrectInfo.z info0))) (0, 0%nat))
    as [s0 n0].
  destruct (fold_left
              (Tightly.residual_step P_SIZE_WITHOUT_CLOCK_ERROR index info1)
              (seq 0 (Matrix.rows (CorrectInfo.z info0))) (0, 0%nat))
    as [s1 n1].
  cbn [fst snd] in Hn, Hs. subst n1.
  destruct (0 <? n0)%nat eqn:En.
  - apply Nat.ltb_lt in En. rewrite Hs.
    assert (Hpos : ~ inject_Z (Z.of_nat n0) == 0).
    { intro H0. unfold Qeq, inject_Z in H0. cbn [Qnum Qden] in H0. lia. }
    unfold Tightly.light_speed. field. exact Hpos.
  - exfalso. apply Hne. reflexivity.
Qed.

(** X23: When the generator's range residuals of the clock follow the shift of
    the predicted clock error (the same rows of the clock, each residual
    lowered by the shift), a detected jump is always fixed: the mean
    residual that is left lies between -0.5 ms and 0.5 ms, and the epoch
    is never skipped.  The state afterwards is written out: every
    snapshot keeps its matrices and its elapsed time and has the shift
    added to the clock error of the receiver's clock and to no other
    clock, and the filter is the primitive update of the filter shifted
    in the same way, with the second measurement compensated over the
    shifted snapshots. *)
Theorem clock_jump_fixed_when_residuals_follow
    (st : RealTime.t Base) (gps : RealTime.raw_data_t Solver Measurement)
    (front : RealTime.snapshot_content_t Base)
    (rest : RealTime.snapshots_t Base) :
  RealTime.snapshots st = front :: rest ->
  let index := Tightly.clock_index gps in
  let col := (P_SIZE_WITHOUT_CLOCK_ERROR + index * 2)%nat in
  let mean_ms :=
    Tightly.range_residual_mean_ms P_SIZE_WITHOUT_CLOCK_ERROR index in
  let info0 := generator (RealTime.ins_gps front) gps 0 in
  let delta_ms := mean_ms info0 in
  9 # 10 <= Qabs delta_ms ->
  let shift := RealTime.clock_error_shift_of delta_ms in
  let info1 := generator (RealTime.ins_gps front) gps shift in
  Matrix.rows (CorrectInfo.z info1) = Matrix.rows (CorrectInfo.z info0) ->
  (forall i, (i < Matrix.rows (CorrectInfo.z info0))%nat ->
     Matrix.at_ (CorrectInfo.H info1) i col
     == Matrix.at_ (CorrectInfo.H info0) i col) ->
  (forall i, (i < Matrix.rows (CorrectInfo.z info0))%nat ->
     Matrix.at_ (CorrectInfo.H info0) i col <= - (1 # 2) ->
     Matrix.at_ (CorrectInfo.z info1) i 0
     == Matrix.at_ (CorrectInfo.z info0) i 0 - shift) ->
  let add_shift (x : RealTime.INS_GPS Base) : RealTime.INS_GPS Base :=
    {| Tightly.m_clock_error :=
         Tightly.add_at (Tightly.m_clock_error x) index shift;
       Tightly.m_clock_error_rate := Tightly.m_clock_error_rate x;
       Tightly.base := Tightly.base x |} in
  let shifted_snapshots :=
    map (fun s =>
           {| RealTime.ins_gps := add_shift (RealTime.ins_gps s);
              RealTime.A := RealTime.A s;
              RealTime.Phi_inv := RealTime.Phi_inv s;
              RealTime.GQGt := RealTime.GQGt s;
              RealTime.elapsedT_from_last_update :=
                RealTime.elapsedT_from_last_update s |})
      (RealTime.snapshots st) in
  - (1 # 2) <= mean_ms info1
  /\ mean_ms info1 < 1 # 2
  /\ RealTime.correct2_tightly P_SIZE_WITHOUT_CLOCK_ERROR correct_primitive
       generator st gps
     = Some ([RealTime.Detect_receiver_clock_jump delta_ms; RealTime.Fixed],
             {| RealTime.self :=
                  correct_primitive (add_shift (RealTime.self st))
                    (RealTime.compensate (RealTime.rt_mode st)
                       shifted_snapshots info1);
                RealTime.snapshots := shifted_snapshots;
                RealTime.rt_mode := RealTime.rt_mode st |})
  /\ shift
     = 299792458 * (1 # 1000) * inject_Z (Qfloor (delta_ms + (1 # 2)))
  /\ (forall (x : RealTime.INS_GPS Base) (j : nat),
        (index < length (Tightly.m_clock_error x))%nat ->
        nth j (Tightly.m_clock_error (add_shift x)) 0
        = if Nat.eqb j index
          then nth j (Tightly.m_clock_error x) 0 + shift
          else nth j (Tightly.m_clock_error x) 0)
  /\ (forall i0 : CorrectInfo.t,
        let range_rows :=
          filter (fun i =>
                    Qle_bool (Matrix.at_ (CorrectInfo.H i0) i col)
                      (- (1 # 2)))
            (seq 0 (Matrix.rows (CorrectInfo.z i0))) in
        mean_ms i0
        = match range_rows with
          | [] => 0
          | _ :: _ =>
              fold_left
                (fun acc i => acc + Matrix.at_ (CorrectInfo.z i0) i 0)
                range_rows 0
              / inject_Z (Z.of_nat (length range_rows))
              / 299792458 / (1 # 1000)
          end).
Proof.
  intros Hsnap index col mean_ms info0 delta_ms Hjump shift info1
    Hrows HH Hz add_shift shifted_snapshots.
  assert (Hne : ~ delta_ms == 0).
  { intro H0. rewrite H0 in Hjump. vm_compute in Hjump. apply Hjump.
    reflexivity. }
  pose proof (residual_mean_shift index info0 info1 shift Hrows HH Hz Hne)
    as Hmean.
  fold mean_ms in Hmean. fold delta_ms in Hmean.
  assert (Hshift : shift / Tightly.light_speed / (1 # 1000)
                   == inject_Z (Qfloor (delta_ms + (1 # 2)))).
  { unfold shift, RealTime.clock_error_shift_of, Float.floor,
      Tightly.light_speed. field. }
  rewrite Hshift in Hmean.
  pose proof (Qfloor_le (delta_ms + (1 # 2))) as Hlo.
  pose proof (Qlt_floor (delta_ms + (1 # 2))) as Hhi.
  rewrite inject_Z_plus in Hhi. change (inject_Z 1) with 1 in Hhi.
  assert (Hlow : - (1 # 2) <= mean_ms info1) by (rewrite Hmean; lra).
  assert (Hhigh : mean_ms info1 < 1 # 2) by (rewrite Hmean; lra).
  split; [exact Hlow|]. split; [exact Hhigh|].
  assert (Hrows0 : (Matrix.rows (CorrectInfo.z info0) <? 1)%nat = false).
  { apply (mean_nonzero_has_rows P_SIZE_WITHOUT_CLOCK_ERROR index).
    fold mean_ms. fold delta_ms.
    apply Qlt_le_trans with (9 # 10); [reflexivity | exact Hjump]. }
  assert (Htest : Float.geb delta_ms (9 # 10)
                  || Float.leb delta_ms (- (9 # 10)) = true).
  { apply abs_ge_iff. exact Hjump. }
  assert (Hfixed : Float.ltb (mean_ms info1) (9 # 10)
                   && Float.gtb (mean_ms info1) (- (9 # 10)) = true).
  { apply abs_lt_iff. apply Qabs_Qlt_condition. split; lra. }
  split; [|split; [reflexivity | split]].
  - unfold RealTime.correct2_tightly, RealTime.range_residual_mean_ms.
    rewrite Hsnap.
    unfold shifted_snapshots, add_shift, info1, shift, delta_ms, info0,
      mean_ms, index in *.
    rewrite Hrows0, Htest, Hfixed. reflexivity.
  - intros x j Hidx. unfold add_shift. cbn [Tightly.m_clock_error].
    apply add_at_nth. exact Hidx.
  - intro i0. apply range_residual_mean_ms_rows.
Qed.

End ClockJumpFollows.

Lemma clock_jump_fixed_when_residuals_follow_witness :
  exists delta_ms st',
    RealTime.correct2_tightly 0 Examples.cj_residual_primitive
      Examples.cj_generator Examples.example_rt_state Examples.cj_gps
    = Some ([RealTime.Detect_receiver_clock_jump delta_ms; RealTime.Fixed],
            st')
    /\ Forall (fun s =>
                 Tightly.m_clock_error (RealTime.ins_gps s)
                 = [0 + 299792458 * (1 # 1000) * inject_Z 1])
         (RealTime.snapshots st')
    /\ length (RealTime.snapshots st') = 2%nat
    /\ Tightly.clock_error (RealTime.self st') 0 == 300000.
Proof.
  eexists. eexists. split.
  - refine (proj1 (proj2 (proj2
              (clock_jump_fixed_when_residuals_follow unit unit unit 0%nat
                 Examples.cj_residual_primitive Examples.cj_generator
                 Examples.example_rt_state Examples.cj_gps
                 Examples.example_rt_snapshot [Examples.example_rt_snapshot]
                 eq_refl _ _ _ _)))).
    + vm_compute. discriminate.
    + reflexivity.
    + intros i Hi. reflexivity.
    + intros i Hi _. destruct i as [|i].
      * vm_compute. reflexivity.
      * exfalso. vm_compute in Hi. lia.
  - split; [repeat constructor; vm_compute; reflexivity|].
    split; vm_compute; reflexivity.
Defined.

(** ** Registering ephemerides: [PropertyHistory::add] *)

Section AddFacts.

Variable PropertyT : Type.
Variable base_time : PropertyT -> GPS_Time.t.
Variable is_equivalent : PropertyT -> PropertyT -> bool.
Variable item : PropertyT.
Variable priority_delta : Z.

(** Inserting an element between a part that is below it and a part that
    is above it keeps a list sorted. *)
Lemma StronglySorted_insert {X : Type} (R : X -> X -> Prop)
    (a b : list X) (x : X) :
  StronglySorted R (a ++ b) ->
  (forall y, In y a -> R y x) ->
  (forall y, In y b -> R x y) ->
  StronglySorted R (a ++ x :: b).
Proof.
  induction a as [|y a IH]; cbn [app]; intros Hs Ha Hb.
  - constructor; [exact Hs|]. apply Forall_forall. exact Hb.
  - inversion Hs as [|y' l' Hs' Hall]; subst.
    constructor.
    + apply IH; [exact Hs' | | exact Hb].
      intros z Hz. apply Ha. right. exact Hz.
    + rewrite Forall_forall in Hall |- *.
      intros z Hz. apply in_app_or in Hz. destruct Hz as [Hz|[Hz|Hz]].
      * apply Hall. apply in_or_app. left. exact Hz.
      * subst z. apply Ha. left. reflexivity.
      * apply Hall. apply in_or_app. right. exact Hz.
Qed.

(** The elements of a part of a list are elements of the list. *)
Lemma In_firstn_list {X : Type} (n : nat) (l : list X) (x : X) :
  In x (firstn n l) -> In x l.
Proof.
  intro H. rewrite <- (firstn_skipn n l). apply in_or_app. left. exact H.
Qed.

Lemma In_skipn_list {X : Type} (n : nat) (l : list X) (x : X) :
  In x (skipn n l) -> In x l.
Proof.
  intro H. rewrite <- (firstn_skipn n l). apply in_or_app. right. exact H.
Qed.

(** A list whose front part is not above a bound and whose back part is at
    the bound can be cut anywhere in the back part. *)
Lemma cut_in_back (t_tag_new : Z)
    (u w : list (PropertyHistory.item_t PropertyT)) (k : nat) :
  (forall x, In x u -> (PropertyHistory.t_tag x <= t_tag_new)%Z) ->
  (forall x, In x w -> PropertyHistory.t_tag x = t_tag_new) ->
  (length u <= k <= length u + length w)%nat ->
  (forall x, In x (firstn k (u ++ w)) -> (PropertyHistory.t_tag x <= t_tag_new)%Z)
  /\ (forall x, In x (skipn k (u ++ w)) -> (t_tag_new <= PropertyHistory.t_tag x)%Z).
Proof.
  intros Hu Hw Hk.
  replace k with (length u + (k - length u))%nat by lia.
  rewrite firstn_app_2, skipn_app.
  rewrite skipn_all2 by lia.
  replace (length u + (k - length u) - length u)%nat
    with (k - length u)%nat by lia.
  cbn [app]. split.
  - intros x Hx. apply in_app_or in Hx. destruct Hx as [Hx|Hx].
    + apply Hu. exact Hx.
    + apply In_firstn_list in Hx. rewrite (Hw x Hx). lia.
  - intros x Hx. apply In_skipn_list in Hx. rewrite (Hw x Hx). lia.
Qed.

(** The loop over the items with the time tag of the new item leaves the
    insertion position among them. *)
Lemma add_same_tag_spec (t_tag_new : Z)
    (rp visited : list (PropertyHistory.item_t PropertyT))
    (K k : nat) :
  (forall x, In x visited -> PropertyHistory.t_tag x = t_tag_new) ->
  (forall x, In x rp -> (PropertyHistory.t_tag x <= t_tag_new)%Z) ->
  (forall x rest, rp = x :: rest -> (t_tag_new <= PropertyHistory.t_tag x)%Z) ->
  (K <= length rp + length visited)%nat ->
  (length rp <= K)%nat ->
  PropertyHistory.add_same_tag is_equivalent item priority_delta t_tag_new
    rp K = PropertyHistory.Insert_at k ->
  exists u w,
    rev rp ++ visited = u ++ w
    /\ (forall x, In x u -> (PropertyHistory.t_tag x <= t_tag_new)%Z)
    /\ (forall x, In x w -> PropertyHistory.t_tag x = t_tag_new)
    /\ (length u <= k <= length u + length w)%nat.
Proof.
  revert visited K.
  induction rp as [|x rest IH]; intros visited K Hv Hrp Hhead HK HK' H.
  - cbn [PropertyHistory.add_same_tag] in H. injection H as H. subst k.
    exists [], visited. cbn [rev app length] in *.
    split; [reflexivity|]. split; [intros x []|]. split; [exact Hv|lia].
  - cbn [PropertyHistory.add_same_tag] in H.
    assert (Hx : PropertyHistory.t_tag x = t_tag_new).
    { pose proof (Hhead x rest eq_refl).
      pose proof (Hrp x (or_introl eq_refl)). lia. }
    destruct (negb (is_equivalent (PropertyHistory.prop x) item));
      [|discriminate H].
    set (K' := if (PropertyHistory.priority x <=? priority_delta)%Z
               then length rest else K) in H.
    assert (HK1 : (length rest <= K'
                   /\ K' <= length rest + S (length visited))%nat).
    { unfold K'. cbn [length] in HK, HK'.
      destruct (PropertyHistory.priority x <=? priority_delta)%Z; lia. }
    assert (Hv' : forall y, In y (x :: visited) -> PropertyHistory.t_tag y = t_tag_new).
    { intros y [Hy|Hy]; [subst y; exact Hx | apply Hv; exact Hy]. }
    assert (Hrest : forall y, In y rest -> (PropertyHistory.t_tag y <= t_tag_new)%Z).
    { intros y Hy. apply Hrp. right. exact Hy. }
    assert (Hlist : rev (x :: rest) ++ visited = rev rest ++ x :: visited).
    { cbn [rev]. rewrite <- app_assoc. reflexivity. }
    destruct rest as [|y rest'].
    + injection H as H. subst k.
      exists [], (x :: visited). cbn [rev app length] in *.
      split; [reflexivity|]. split; [intros z []|].
      split; [exact Hv'|lia].
    + destruct (PropertyHistory.t_tag y <? t_tag_new)%Z eqn:Ey.
      * injection H as H. subst k.
        exists (rev (y :: rest')), (x :: visited).
        split; [exact Hlist|]. split.
        { intros z Hz. apply Hrest. apply in_rev. exact Hz. }
        split; [exact Hv'|]. rewrite length_rev. cbn [length] in *. lia.
      * rewrite Hlist.
        apply (IH (x :: visited) K'); try assumption.
        { intros z rest0 E. injection E as E1 E2. subst z.
          apply Z.ltb_ge in Ey. exact Ey. }
        { cbn [length] in *. lia. }
        { cbn [length] in *. lia. }
Qed.

(** Without an equivalent item, the loop over the items with the time
    tag of the new item ends with an insertion position. *)
Lemma add_same_tag_inserts (t_tag_new : Z)
    (rp : list (PropertyHistory.item_t PropertyT)) (K : nat) :
  (forall x, In x rp ->
     is_equivalent (PropertyHistory.prop x) item = false) ->
  exists k,
    PropertyHistory.add_same_tag is_equivalent item priority_delta t_tag_new
      rp K = PropertyHistory.Insert_at k.
Proof.
  revert K. induction rp as [|x rest IH]; intros K Hne.
  - exists K. reflexivity.
  - cbn [PropertyHistory.add_same_tag].
    rewrite (Hne x (or_introl eq_refl)). cbn [negb].
    destruct rest as [|y rest'].
    + eexists. reflexivity.
    + destruct (PropertyHistory.t_tag y <? t_tag_new)%Z.
      * eexists. reflexivity.
      * apply IH. intros z Hz. apply Hne. right. exact Hz.
Qed.

Lemma add_scan_inserts (t_tag_new : Z)
    (rp : list (PropertyHistory.item_t PropertyT)) (K : nat) :
  (forall x, In x rp ->
     is_equivalent (PropertyHistory.prop x) item = false) ->
  exists k,
    PropertyHistory.add_scan is_equivalent item priority_delta t_tag_new
      rp K = PropertyHistory.Insert_at k.
Proof.
  revert K. induction rp as [|x rest IH]; intros K Hne.
  - exists K. reflexivity.
  - cbn [PropertyHistory.add_scan]. cbv zeta.
    destruct (t_tag_new - PropertyHistory.t_tag x <? 0)%Z.
    + apply IH. intros z Hz. apply Hne. right. exact Hz.
    + destruct (t_tag_new - PropertyHistory.t_tag x >? 0)%Z.
      * eexists. reflexivity.
      * apply add_same_tag_inserts. exact Hne.
Qed.

(** The search of [add] in a history sorted by time tag: the insertion
    position separates the items that are not newer than the new one from
    the items that are not older. *)
Lemma add_scan_spec (t_tag_new : Z)
    (rp newer : list (PropertyHistory.item_t PropertyT)) (k : nat) :
  StronglySorted
    (fun a b => (PropertyHistory.t_tag b <= PropertyHistory.t_tag a)%Z) rp ->
  (forall x, In x newer -> (t_tag_new < PropertyHistory.t_tag x)%Z) ->
  PropertyHistory.add_scan is_equivalent item priority_delta t_tag_new rp 0
  = PropertyHistory.Insert_at k ->
  (k <= length rp)%nat
  /\ (forall x, In x (firstn k (rev rp ++ newer)) ->
        (PropertyHistory.t_tag x <= t_tag_new)%Z)
  /\ (forall x, In x (skipn k (rev rp ++ newer)) ->
        (t_tag_new <= PropertyHistory.t_tag x)%Z).
Proof.
  revert newer.
  induction rp as [|x rest IH]; intros newer Hs Hn H.
  - cbn [PropertyHistory.add_scan] in H. injection H as H. subst k.
    cbn [rev app firstn skipn length].
    split; [lia|]. split; [intros x []|].
    intros x Hx. apply Z.lt_le_incl. apply Hn. exact Hx.
  - inversion Hs as [|x' l' Hs' Hall]; subst. rewrite Forall_forall in Hall.
    cbn [PropertyHistory.add_scan] in H. cbv zeta in H.
    destruct (t_tag_new - PropertyHistory.t_tag x <? 0)%Z eqn:E1.
    + apply Z.ltb_lt in E1.
      destruct (IH (x :: newer) Hs') as (Hk & Hf & Hb); [|exact H|].
      { intros z [Hz|Hz]; [subst z; lia | apply Hn; exact Hz]. }
      cbn [rev length]. rewrite <- app_assoc. cbn [app].
      split; [lia|]. split; assumption.
    + apply Z.ltb_ge in E1.
      destruct (t_tag_new - PropertyHistory.t_tag x >? 0)%Z eqn:E2.
      * injection H as H. subst k.
        replace (S (length rest)) with (length (rev (x :: rest)))
          by (rewrite length_rev; reflexivity).
        rewrite firstn_app, skipn_app, Nat.sub_diag, firstn_all, skipn_all.
        cbn [firstn skipn app]. rewrite app_nil_r.
        split; [rewrite length_rev; lia|]. split.
        { intros z Hz. apply in_rev in Hz. apply Z.gtb_lt in E2.
          destruct Hz as [Hz|Hz]; [subst z; lia|].
          pose proof (Hall z Hz). cbv beta in *. lia. }
        { intros z Hz. apply Z.lt_le_incl. apply Hn. exact Hz. }
      * assert (Hx : PropertyHistory.t_tag x = t_tag_new).
        { destruct (Z.gtb_spec (t_tag_new - PropertyHistory.t_tag x) 0); [discriminate|].
          lia. }
        destruct (add_same_tag_spec t_tag_new (x :: rest) [] 
                    (S (length rest)) k) as (u & w & Huw & Hu & Hw & Hk);
          try exact H.
        { intros z []. }
        { intros z [Hz|Hz]; [subst z; lia|].
          pose proof (Hall z Hz). cbv beta in *. lia. }
        { intros z rest0 E. injection E as E3 E4. subst z. lia. }
        { cbn [length]. lia. }
        { cbn [length]. lia. }
        rewrite app_nil_r in Huw.
        assert (Hlen : length (rev (x :: rest)) = (length u + length w)%nat).
        { rewrite Huw, length_app. reflexivity. }
        rewrite length_rev in Hlen.
        destruct (cut_in_back t_tag_new u w k Hu Hw Hk) as [Hf Hb].
        rewrite Huw.
        split; [lia|]. split.
        { rewrite firstn_app.
          replace (k - length (u ++ w))%nat with 0%nat
            by (rewrite length_app; lia).
          cbn [firstn]. rewrite app_nil_r. exact Hf. }
        { rewrite skipn_app.
          replace (k - length (u ++ w))%nat with 0%nat
            by (rewrite length_app; lia).
          cbn [skipn]. intros z Hz. apply in_app_or in Hz.
          destruct Hz as [Hz|Hz]; [apply Hb; exact Hz|].
          apply Z.lt_le_incl. apply Hn. exact Hz. }
Qed.

(** The item at a position of a list after an insertion. *)
Lemma nth_error_insert {X : Type} (l : list X) (x : X) (k i : nat) :
  (k <= length l)%nat ->
  nth_error (firstn k l ++ x :: skipn k l) i
  = if (i <? k)%nat then nth_error l i
    else if (i =? k)%nat then Some x
    else nth_error l (i - 1).
Proof.
  revert k i. induction l as [|a l IH]; intros k i Hk.
  - cbn [length] in Hk. assert (k = 0%nat) by lia. subst k.
    cbn [firstn skipn app]. destruct i as [|i]; [reflexivity|].
    cbn [nth_error Nat.ltb Nat.leb Nat.eqb]. destruct i; destruct (S _ - 1)%nat; reflexivity.
  - destruct k as [|k].
    + cbn [firstn skipn app]. destruct i as [|i]; [reflexivity|].
      cbn [nth_error Nat.ltb Nat.leb Nat.eqb Nat.sub].
      rewrite Nat.sub_0_r. reflexivity.
    + cbn [firstn skipn app]. destruct i as [|i]; [reflexivity|].
      cbn [nth_error]. cbn [length] in Hk.
      rewrite IH by lia.
      change (S i <? S k)%nat with (i <? k)%nat.
      change (S i =? S k)%nat with (i =? k)%nat.
      destruct (i <? k)%nat eqn:E1; [reflexivity|].
      destruct (i =? k)%nat eqn:E2; [reflexivity|].
      apply Nat.ltb_ge in E1. apply Nat.eqb_neq in E2.
      destruct i as [|i]; [lia|].
      cbn [Nat.sub nth_error]. rewrite Nat.sub_0_r. reflexivity.
Qed.

(** X24: Adding an item that is equivalent to none of the registered items to a
    history sorted by time tag.  The item is inserted at a position that
    separates the items that are not newer from the items that are not
    older, so that the history stays sorted.  The selected item stays
    selected, unless the new item is inserted exactly at the selected
    position: then the new item is the selected one afterwards. *)
Theorem add_inserts_in_order (h : PropertyHistory.t PropertyT) :
  StronglySorted
    (fun a b => (PropertyHistory.t_tag a <= PropertyHistory.t_tag b)%Z)
    (PropertyHistory.history h) ->
  (forall x, In x (PropertyHistory.history h) ->
     is_equivalent (PropertyHistory.prop x) item = false) ->
  let h' := PropertyHistory.add base_time is_equivalent item priority_delta
              h in
  let new := PropertyHistory.item_of PropertyT base_time item
               priority_delta in
  exists k,
    (k <= length (PropertyHistory.history h))%nat
    /\ PropertyHistory.history h'
       = firstn k (PropertyHistory.history h)
         ++ new :: skipn k (PropertyHistory.history h)
    /\ StronglySorted
    (fun a b => (PropertyHistory.t_tag a <= PropertyHistory.t_tag b)%Z)
         (PropertyHistory.history h')
    /\ (k <> PropertyHistory.selected_index h ->
        PropertyHistory.current h' = PropertyHistory.current h)
    /\ (k = PropertyHistory.selected_index h ->
        PropertyHistory.current h' = Some item).
Proof.
  intros Hs Hne. cbv zeta.
  set (l := PropertyHistory.history h) in *.
  set (t_tag_new := PropertyHistory.calc_t_tag PropertyT base_time item).
  destruct (add_scan_inserts t_tag_new (rev l) 0) as [k Hk].
  { intros x Hx. apply Hne. apply in_rev. exact Hx. }
  assert (Hsr : StronglySorted
    (fun a b => (PropertyHistory.t_tag b <= PropertyHistory.t_tag a)%Z) (rev l)).
  { clear - Hs. induction Hs as [|a l0 Hs IH Hall]; cbn [rev].
    - constructor.
    - rewrite <- (app_nil_r (rev l0 ++ [a])), <- app_assoc.
      apply StronglySorted_insert.
      + rewrite app_nil_r. exact IH.
      + intros y Hy. apply in_rev in Hy. rewrite Forall_forall in Hall.
        apply Hall. exact Hy.
      + intros y []. }
  destruct (add_scan_spec t_tag_new (rev l) [] k Hsr) as (Hkl & Hf & Hb).
  { intros x []. }
  { exact Hk. }
  rewrite app_nil_r, rev_involutive in Hf, Hb. rewrite length_rev in Hkl.
  exists k. unfold PropertyHistory.add. fold t_tag_new. fold l.
  rewrite Hk. cbn [PropertyHistory.history PropertyHistory.selected_index].
  split; [exact Hkl|]. split; [reflexivity|]. split.
  - apply StronglySorted_insert.
    + rewrite firstn_skipn. exact Hs.
    + intros y Hy. cbn [PropertyHistory.item_of PropertyHistory.t_tag].
      fold t_tag_new. apply Hf. exact Hy.
    + intros y Hy. cbn [PropertyHistory.item_of PropertyHistory.t_tag].
      fold t_tag_new. apply Hb. exact Hy.
  - unfold PropertyHistory.current.
    cbn [PropertyHistory.history PropertyHistory.selected_index].
    fold l. split.
    + intro Hneq. f_equal.
      destruct (k <? PropertyHistory.selected_index h)%nat eqn:E.
      * apply Nat.ltb_lt in E. rewrite nth_error_insert by exact Hkl.
        destruct (Nat.ltb_spec (S (PropertyHistory.selected_index h)) k);
          [lia|].
        destruct (Nat.eqb_spec (S (PropertyHistory.selected_index h)) k);
          [lia|].
        cbn [Nat.sub]. rewrite Nat.sub_0_r. reflexivity.
      * apply Nat.ltb_ge in E. rewrite nth_error_insert by exact Hkl.
        destruct (Nat.ltb_spec (PropertyHistory.selected_index h) k);
          [reflexivity|lia].
    + intro Heq. rewrite <- Heq. rewrite Nat.ltb_irrefl.
      rewrite nth_error_insert by exact Hkl.
      rewrite Nat.ltb_irrefl, Nat.eqb_refl. reflexivity.
Qed.

(** X25: Adding the latest item, as [add] assumes: when every registered item
    has an older time tag, the item is appended, and the selection stays
    where it is. *)
Theorem add_latest (h : PropertyHistory.t PropertyT) :
  (forall x, In x (PropertyHistory.history h) ->
     (PropertyHistory.t_tag x
      < PropertyHistory.calc_t_tag PropertyT base_time item)%Z) ->
  (PropertyHistory.selected_index h < length (PropertyHistory.history h))%nat ->
  PropertyHistory.add base_time is_equivalent item priority_delta h
  = {| PropertyHistory.history :=
         PropertyHistory.history h
         ++ [PropertyHistory.item_of PropertyT base_time item priority_delta];
       PropertyHistory.selected_index := PropertyHistory.selected_index h |}.
Proof.
  intros Hall Hsel. unfold PropertyHistory.add.
  set (t_tag_new := PropertyHistory.calc_t_tag PropertyT base_time item) in *.
  set (l := PropertyHistory.history h) in *.
  assert (Hscan :
    PropertyHistory.add_scan is_equivalent item priority_delta t_tag_new
      (rev l) 0 = PropertyHistory.Insert_at (length l)).
  { destruct (rev l) as [|x rest] eqn:E.
    - apply (f_equal (@length _)) in E. rewrite length_rev in E.
      cbn [length] in E. rewrite E. reflexivity.
    - cbn [PropertyHistory.add_scan]. cbv zeta.
      assert (Hx : (PropertyHistory.t_tag x < t_tag_new)%Z).
      { apply Hall. apply in_rev. fold l. rewrite E. left. reflexivity. }
      destruct (Z.ltb_spec (t_tag_new - PropertyHistory.t_tag x) 0) as [|_]; [lia|].
      destruct (Z.gtb_spec (t_tag_new - PropertyHistory.t_tag x) 0) as [_|]; [|lia].
      f_equal. apply (f_equal (@length _)) in E.
      rewrite length_rev in E. cbn [length] in E. lia. }
  rewrite Hscan. rewrite firstn_all, skipn_all.
  destruct (Nat.ltb_spec (length l) (PropertyHistory.selected_index h));
    [lia|].
  reflexivity.
Qed.

End AddFacts.

(** The older record is registered while the newer one is selected: it is
    inserted at the selected position, and is the selected one afterwards. *)
Lemma add_inserts_in_order_witness :
  exists k,
    (k <= length (PropertyHistory.history
                    (Satellite.eph_history Examples.sat_selected)))%nat
    /\ PropertyHistory.history
         (PropertyHistory.add Ephemeris.base_time raw_t.is_equivalent
            Examples.older_eph 1
            (Satellite.eph_history Examples.sat_selected))
       = firstn k (PropertyHistory.history
                     (Satellite.eph_history Examples.sat_selected))
         ++ PropertyHistory.item_of Ephemeris.t Ephemeris.base_time
              Examples.older_eph 1
            :: skipn k (PropertyHistory.history
                          (Satellite.eph_history Examples.sat_selected))
    /\ StronglySorted
         (fun a b => (PropertyHistory.t_tag a <= PropertyHistory.t_tag b)%Z)
         (PropertyHistory.history
            (PropertyHistory.add Ephemeris.base_time raw_t.is_equivalent
               Examples.older_eph 1
               (Satellite.eph_history Examples.sat_selected)))
    /\ (k <> PropertyHistory.selected_index
               (Satellite.eph_history Examples.sat_selected) ->
        PropertyHistory.current
          (PropertyHistory.add Ephemeris.base_time raw_t.is_equivalent
             Examples.older_eph 1
             (Satellite.eph_history Examples.sat_selected))
        = PropertyHistory.current
            (Satellite.eph_history Examples.sat_selected))
    /\ (k = PropertyHistory.selected_index
              (Satellite.eph_history Examples.sat_selected) ->
        PropertyHistory.current
          (PropertyHistory.add Ephemeris.base_time raw_t.is_equivalent
             Examples.older_eph 1
             (Satellite.eph_history Examples.sat_selected))
        = Some Examples.older_eph).
Proof.
  refine (add_inserts_in_order Ephemeris.t Ephemeris.base_time
            raw_t.is_equivalent Examples.older_eph 1
            (Satellite.eph_history Examples.sat_selected) _ _).
  - repeat constructor; vm_compute; congruence.
  - intros x [Hx|[Hx|[]]]; subst x; vm_compute; reflexivity.
Defined.

Lemma add_latest_witness :
  PropertyHistory.add Ephemeris.base_time raw_t.is_equivalent
    Examples.sat_eph 1
    (Satellite.eph_history (Satellite.default Examples.sat_eph))
  = {| PropertyHistory.history :=
         PropertyHistory.history
           (Satellite.eph_history (Satellite.default Examples.sat_eph))
         ++ [PropertyHistory.item_of Ephemeris.t Ephemeris.base_time
               Examples.sat_eph 1];
       PropertyHistory.selected_index :=
         PropertyHistory.selected_index
           (Satellite.eph_history (Satellite.default Examples.sat_eph)) |}.
Proof.
  refine (add_latest Ephemeris.t Ephemeris.base_time raw_t.is_equivalent
            Examples.sat_eph 1
            (Satellite.eph_history (Satellite.default Examples.sat_eph)) _ _).
  - intros x [Hx|[]]; subst x; vm_compute; reflexivity.
  - vm_compute. lia.
Defined.

(** ** Registering and selecting an ephemeris *)

(** The time of the sentinel from its first valid transmission is the time
    since the GPS epoch less half a second. *)
Lemma sentinel_period (uninit : Ephemeris.t) (tm : GPS_Time.t) :
  Ephemeris.period_from_first_valid_transmittion (Satellite.sentinel uninit)
    tm == GPS_Time.serialize tm - (1 # 2).
Proof.
  unfold Ephemeris.period_from_first_valid_transmittion,
    Ephemeris.period_from_time_of_clock, GPS_Time.interval,
    GPS_Time.serialize.
  cbn [Satellite.sentinel Ephemeris.WN Ephemeris.t_oc Ephemeris.fit_interval].
  change (inject_Z 0) with 0. field.
Qed.

(** X26: The first ephemeris of a satellite.  After [register_ephemeris] on a
    default-constructed satellite the sentinel is still the selected
    record; [select_ephemeris] at a time at which the registered record is
    valid then selects it and returns [true], as long as the time tag of
    the record is positive and the time since the GPS epoch, less half a
    second, exceeds the time of the record from its first valid
    transmission. *)
Theorem register_then_select
    (uninit eph : Ephemeris.t) (priority_delta : Z) (tm : GPS_Time.t) :
  (0 < PropertyHistory.calc_t_tag Ephemeris.t Ephemeris.base_time eph)%Z ->
  Ephemeris.is_valid eph tm = true ->
  Qabs (Ephemeris.period_from_first_valid_transmittion eph tm)
  < GPS_Time.serialize tm - (1 # 2) ->
  let s := Satellite.register_ephemeris (Satellite.default uninit) eph
             priority_delta in
  Satellite.ephemeris s = Some (Satellite.sentinel uninit)
  /\ exists s',
       Satellite.select_ephemeris s tm = Some (true, s')
       /\ Satellite.ephemeris s' = Some eph
       /\ PropertyHistory.history (Satellite.eph_history s')
          = PropertyHistory.history (Satellite.eph_history s).
Proof.
  intros Htag Hvalid Hnear s.
  assert (Hs : s = {| Satellite.eph_history :=
                        {| PropertyHistory.history :=
                             [ {| PropertyHistory.prop :=
                                    Satellite.sentinel uninit;
                                  PropertyHistory.priority := 0;
                                  PropertyHistory.t_tag := 0 |};
                               PropertyHistory.item_of Ephemeris.t
                                 Ephemeris.base_time eph priority_delta ];
                           PropertyHistory.selected_index := 0 |} |}).
  { unfold s, Satellite.register_ephemeris, Satellite.default,
      PropertyHistory.add.
    cbn [Satellite.eph_history PropertyHistory.history
         PropertyHistory.selected_index rev app PropertyHistory.add_scan
         PropertyHistory.t_tag length].
    cbv zeta. rewrite Z.sub_0_r.
    destruct (Z.ltb_spec
                (PropertyHistory.calc_t_tag Ephemeris.t Ephemeris.base_time
                   eph) 0) as [|_]; [lia|].
    destruct (Z.gtb_spec
                (PropertyHistory.calc_t_tag Ephemeris.t Ephemeris.base_time
                   eph) 0) as [_|]; [|lia].
    reflexivity. }
  rewrite Hs. split; [reflexivity|].
  pose proof (sentinel_period uninit tm) as Hsent.
  assert (Hnot : Ephemeris.is_valid (Satellite.sentinel uninit) tm = false).
  { unfold Ephemeris.is_valid. apply leb_gt.
    cbn [Satellite.sentinel Ephemeris.fit_interval].
    apply Qlt_le_trans with 0; [reflexivity | apply Qabs_nonneg]. }
  unfold Satellite.select_ephemeris, Satellite.ephemeris,
    PropertyHistory.current.
  cbn [Satellite.eph_history PropertyHistory.history
       PropertyHistory.selected_index nth_error option_map
       PropertyHistory.prop].
  rewrite Hnot. cbn [andb].
  unfold PropertyHistory.select.
  cbn [PropertyHistory.history PropertyHistory.selected_index nth_error].
  cbn [PropertyHistory.delta_of PropertyHistory.prop].
  assert (Hpos : 0 <= Ephemeris.period_from_first_valid_transmittion
                        (Satellite.sentinel uninit) tm).
  { rewrite Hsent. apply Qle_trans with
      (Qabs (Ephemeris.period_from_first_valid_transmittion eph tm)).
    - apply Qabs_nonneg.
    - apply Qlt_le_weak. exact Hnear. }
  apply geb_le in Hpos. rewrite Hpos.
  cbn [skipn PropertyHistory.select_loop].
  unfold PropertyHistory.select_step.
  cbn [PropertyHistory.changed andb PropertyHistory.cur_delta_t].
  change (PropertyHistory.prop
            (PropertyHistory.item_of Ephemeris.t Ephemeris.base_time eph
               priority_delta)) with eph.
  rewrite Hvalid. cbn [negb].
  cbn [PropertyHistory.delta_of PropertyHistory.prop].
  assert (Hcloser :
    Float.gtb
      (Ephemeris.period_from_first_valid_transmittion
         (Satellite.sentinel uninit) tm)
      (PropertyHistory.abs_delta tm
         (Some Ephemeris.period_from_first_valid_transmittion)
         (PropertyHistory.item_of Ephemeris.t Ephemeris.base_time eph
            priority_delta)) = true).
  { apply gtb_lt. rewrite abs_delta_Qabs, Hsent.
    unfold PropertyHistory.delta_of.
    cbn [PropertyHistory.item_of PropertyHistory.prop].
    exact Hnear. }
  rewrite Hcloser.
  cbn [PropertyHistory.changed PropertyHistory.cur_index orb].
  eexists. split; [reflexivity|].
  unfold Satellite.ephemeris, PropertyHistory.current.
  cbn [Satellite.eph_history PropertyHistory.history
       PropertyHistory.selected_index PropertyHistory.cur_index
       nth_error option_map PropertyHistory.item_of PropertyHistory.prop].
  split; reflexivity.
Qed.

Lemma register_then_select_witness :
  Satellite.ephemeris
    (Satellite.register_ephemeris (Satellite.default Examples.sat_eph)
       Examples.sat_eph 1)
  = Some (Satellite.sentinel Examples.sat_eph)
  /\ exists s',
       Satellite.select_ephemeris
         (Satellite.register_ephemeris (Satellite.default Examples.sat_eph)
            Examples.sat_eph 1) Examples.sat_time = Some (true, s')
       /\ Satellite.ephemeris s' = Some Examples.sat_eph
       /\ PropertyHistory.history (Satellite.eph_history s')
          = PropertyHistory.history
              (Satellite.eph_history
                 (Satellite.register_ephemeris
                    (Satellite.default Examples.sat_eph)
                    Examples.sat_eph 1)).
Proof.
  refine (register_then_select Examples.sat_eph Examples.sat_eph 1
            Examples.sat_time _ _ _).
  - vm_compute. reflexivity.
  - vm_compute. reflexivity.
  - vm_compute. reflexivity.
Defined.
(** ** Time tags *)

(** X27: The time tag of a time is the time in units of ten seconds, rounded
    and clamped to [int]: it lies between the bounds of [int]; when it is
    strictly between them, the time is less than five seconds above ten
    times the tag, and if the time is a whole number of seconds (as the
    reference times of the broadcast records are, and [double] adds 5 to
    it without rounding) it is not more than five seconds below; and
    later times never get smaller tags. *)
Theorem calc_t_tag_rounds (x : Q) :
  let tag := PropertyHistory.calc_t_tag_float x in
  (Int32.INT_MIN <= tag <= Int32.INT_MAX)%Z
  /\ ((Int32.INT_MIN < tag < Int32.INT_MAX)%Z ->
      x < 10 * inject_Z tag + 5
      /\ forall n : Z, x == inject_Z n -> 10 * inject_Z tag - 5 <= x)
  /\ (forall y, x <= y ->
        (tag <= PropertyHistory.calc_t_tag_float y)%Z).
Proof.
  cbv zeta. unfold PropertyHistory.calc_t_tag_float.
  change (inject_Z PropertyHistory.TimeQuantization) with 10.
  unfold Int32.INT_MAX, Int32.INT_MIN.
  set (r := Qfloor ((x + (1 # 2) * 10) / 10)).
  pose proof (Qfloor_le ((x + (1 # 2) * 10) / 10)) as Hlo.
  pose proof (Qlt_floor ((x + (1 # 2) * 10) / 10)) as Hhi.
  fold r in Hlo, Hhi. rewrite inject_Z_plus in Hhi.
  change (inject_Z 1) with 1 in Hhi.
  assert (E : (x + (1 # 2) * 10) / 10 == x * (1 # 10) + (1 # 2)) by field.
  rewrite E in Hlo, Hhi.
  split; [|split].
  - destruct (Z.geb_spec r 2147483647); [lia|].
    destruct (Z.leb_spec r (-2147483648)); lia.
  - destruct (Z.geb_spec r 2147483647); [lia|].
    destruct (Z.leb_spec r (-2147483648)); [lia|].
    intros _. split; [lra|]. intros k _. lra.
  - intros y Hxy.
    set (ry := Qfloor ((y + (1 # 2) * 10) / 10)).
    assert (Hr : (r <= ry)%Z).
    { unfold r, ry. apply Qfloor_resp_le.
      assert (Ey : (y + (1 # 2) * 10) / 10 == y * (1 # 10) + (1 # 2))
        by field.
      rewrite E, Ey. lra. }
    destruct (Z.geb_spec r 2147483647);
      destruct (Z.leb_spec r (-2147483648));
      destruct (Z.geb_spec ry 2147483647);
      destruct (Z.leb_spec ry (-2147483648)); lia.
Qed.

(** 388800 s, the reference time of the record of the examples: the tag is
    38880; and 388795 s, half way between two tags, gets the upper one. *)
Lemma calc_t_tag_rounds_witness :
  PropertyHistory.calc_t_tag_float 388800 = 38880%Z
  /\ PropertyHistory.calc_t_tag_float 388795 = 38880%Z
  /\ 388795 < 10 * inject_Z (PropertyHistory.calc_t_tag_float 388795) + 5
  /\ 10 * inject_Z (PropertyHistory.calc_t_tag_float 388795) - 5 <= 388795.
Proof.
  split; [reflexivity|]. split; [reflexivity|].
  destruct (proj1 (proj2 (calc_t_tag_rounds 388795))) as [Hup Hlow].
  - vm_compute. split; reflexivity.
  - split; [exact Hup|]. apply (Hlow 388795%Z). reflexivity.
Defined.

(** ** Registering an ephemeris again *)

Section AddAgain.

Variable PropertyT : Type.
Variable base_time : PropertyT -> GPS_Time.t.
Variable is_equivalent : PropertyT -> PropertyT -> bool.
Variable item : PropertyT.
Variable priority_delta : Z.

Lemma assign_last (front : list (PropertyHistory.item_t PropertyT))
    (x v : PropertyHistory.item_t PropertyT) :
  PropertyHistory.assign (front ++ [x]) (length front) v = front ++ [v].
Proof.
  induction front as [|a front IH]; cbn [app length PropertyHistory.assign].
  - reflexivity.
  - rewrite IH. reflexivity.
Qed.

(** X28: Adding an item that is equivalent to the newest registered item, with
    a positive [priority_delta]: when the item before it has another time
    tag or a higher priority than the raised one, the history keeps its
    items and their order, the priority of the newest item is raised by
    [priority_delta], its contents are not replaced, and the selection
    stays where it is. *)
Theorem add_again (h : PropertyHistory.t PropertyT)
    (front : list (PropertyHistory.item_t PropertyT))
    (x : PropertyHistory.item_t PropertyT) :
  PropertyHistory.history h = front ++ [x] ->
  is_equivalent (PropertyHistory.prop x) item = true ->
  PropertyHistory.t_tag x
  = PropertyHistory.calc_t_tag PropertyT base_time item ->
  (0 < priority_delta)%Z ->
  (forall front' y, front = front' ++ [y] ->
     PropertyHistory.t_tag y <> PropertyHistory.t_tag x
     \/ (PropertyHistory.priority x + priority_delta
         < PropertyHistory.priority y)%Z) ->
  PropertyHistory.add base_time is_equivalent item priority_delta h
  = {| PropertyHistory.history :=
         front
         ++ [ {| PropertyHistory.prop := PropertyHistory.prop x;
                 PropertyHistory.priority :=
                   (PropertyHistory.priority x + priority_delta)%Z;
                 PropertyHistory.t_tag := PropertyHistory.t_tag x |} ];
       PropertyHistory.selected_index := PropertyHistory.selected_index h |}.
Proof.
  intros Hh Heq Htag Hpd Hprev.
  unfold PropertyHistory.add. rewrite Hh, <- Htag.
  rewrite rev_app_distr. cbn [rev app PropertyHistory.add_scan].
  cbv zeta. rewrite Z.sub_diag.
  cbn [Z.ltb Z.gtb Z.compare PropertyHistory.add_same_tag].
  rewrite Heq. cbn [negb]. rewrite length_rev.
  rewrite nth_error_app2, Nat.sub_diag by lia. cbn [nth_error].
  destruct (Z.eqb_spec priority_delta 0) as [|_]; [lia|].
  rewrite assign_last.
  destruct (Z.gtb_spec priority_delta 0) as [_|]; [|lia].
  set (copy := {| PropertyHistory.prop := PropertyHistory.prop x;
                  PropertyHistory.priority :=
                    (PropertyHistory.priority x + priority_delta)%Z;
                  PropertyHistory.t_tag := PropertyHistory.t_tag x |}).
  assert (Hmove :
    PropertyHistory.move_backward (PropertyHistory.t_tag x) copy
      (front ++ [copy]) (length front) 0
    = (front ++ [copy], length front, 0%Z)).
  { destruct (rev front) as [|y rfront'] eqn:E.
    - apply (f_equal (@rev _)) in E. rewrite rev_involutive in E.
      cbn [rev] in E. subst front. reflexivity.
    - apply (f_equal (@rev _)) in E. rewrite rev_involutive in E.
      cbn [rev] in E.
      assert (Hlen : length front = S (length (rev rfront'))).
      { rewrite E, length_app. cbn [length]. lia. }
      rewrite Hlen. cbn [PropertyHistory.move_backward].
      assert (Hnth : nth_error (front ++ [copy]) (length (rev rfront'))
                     = Some y).
      { rewrite E, <- app_assoc. rewrite nth_error_app2 by lia.
        rewrite Nat.sub_diag. reflexivity. }
      rewrite Hnth.
      destruct (Hprev (rev rfront') y E) as [Hy|Hy].
      + destruct (Z.eqb_spec (PropertyHistory.t_tag y)
                    (PropertyHistory.t_tag x)) as [|_]; [contradiction|].
        reflexivity.
      + destruct (Z.leb_spec (PropertyHistory.priority y)
                    (PropertyHistory.priority copy)) as [Hle|_].
        * cbn [copy PropertyHistory.priority] in Hle. lia.
        * rewrite andb_false_r. reflexivity. }
  rewrite Hmove. cbn [Z.eqb].
  f_equal.
  destruct (Z.eqb_spec
              (Z.of_nat (PropertyHistory.selected_index h)
               - Z.of_nat (length front)) 0) as [|Hne].
  - rewrite Z.add_0_r. apply Nat2Z.id.
  - destruct (Z.ltb_spec
                (Z.of_nat (PropertyHistory.selected_index h)
                 - Z.of_nat (length front)) 0) as [Hlt|Hge];
      cbn [andb].
    + destruct (Z.leb_spec 0
                  (Z.of_nat (PropertyHistory.selected_index h)
                   - Z.of_nat (length front))) as [|_]; [lia|].
      destruct (Z.gtb_spec
                  (Z.of_nat (PropertyHistory.selected_index h)
                   - Z.of_nat (length front)) 0) as [|_]; [lia|].
      reflexivity.
    + destruct (Z.gtb_spec
                  (Z.of_nat (PropertyHistory.selected_index h)
                   - Z.of_nat (length front)) 0) as [_|]; [|lia].
      destruct (Z.geb_spec 0
                  (Z.of_nat (PropertyHistory.selected_index h)
                   - Z.of_nat (length front))) as [|_]; [lia|].
      reflexivity.
Qed.

End AddAgain.

Lemma add_again_witness :
  PropertyHistory.add Ephemeris.base_time raw_t.is_equivalent
    Examples.sat_eph 1 (Satellite.eph_history Examples.sat_registered)
  = {| PropertyHistory.history :=
         [ {| PropertyHistory.prop := Satellite.sentinel Examples.sat_eph;
              PropertyHistory.priority := 0;
              PropertyHistory.t_tag := 0 |} ]
         ++ [ {| PropertyHistory.prop :=
                   PropertyHistory.prop
                     (PropertyHistory.item_of Ephemeris.t
                        Ephemeris.base_time Examples.sat_eph 1);
                 PropertyHistory.priority :=
                   (PropertyHistory.priority
                      (PropertyHistory.item_of Ephemeris.t
                         Ephemeris.base_time Examples.sat_eph 1) + 1)%Z;
                 PropertyHistory.t_tag :=
                   PropertyHistory.t_tag
                     (PropertyHistory.item_of Ephemeris.t
                        Ephemeris.base_time Examples.sat_eph 1) |} ];
       PropertyHistory.selected_index :=
         PropertyHistory.selected_index
           (Satellite.eph_history Examples.sat_registered) |}.
Proof.
  refine (add_again Ephemeris.t Ephemeris.base_time raw_t.is_equivalent
            Examples.sat_eph 1
            (Satellite.eph_history Examples.sat_registered)
            [ {| PropertyHistory.prop := Satellite.sentinel Examples.sat_eph;
                 PropertyHistory.priority := 0;
                 PropertyHistory.t_tag := 0 |} ]
            (PropertyHistory.item_of Ephemeris.t Ephemeris.base_time
               Examples.sat_eph 1) _ _ _ _ _).
  - reflexivity.
  - vm_compute. reflexivity.
  - reflexivity.
  - lia.
  - intros front' y E. left.
    destruct front' as [|a front']; cbn [app] in E.
    + injection E as E. subst y. vm_compute. congruence.
    + destruct front'; discriminate E.
Defined.

(** ** A measurement that carries no information *)

(** X29: A bundle for a clock that the filter does not have, or without a
    solver: the generator of the tightly coupled filter yields no rows,
    and the Real-Time synchronizer leaves the filter and the snapshots as
    they are, without a diagnostic. *)
Theorem correct2_tightly_without_information
    (Base Solver Measurement : Type)
    (CLOCKS_SUPPORTED P_SIZE_WITHOUT_CLOCK_ERROR : nat)
    (assemble : Solver -> Tightly.ins_t Base -> Measurement ->
                Tightly.receiver_state_t -> CorrectInfo.t)
    (correct_primitive :
       RealTime.INS_GPS Base -> CorrectInfo.t -> RealTime.INS_GPS Base)
    (st : RealTime.t Base) (gps : RealTime.raw_data_t Solver Measurement) :
  RealTime.snapshots st <> [] ->
  (CLOCKS_SUPPORTED <= Tightly.clock_index gps)%nat
  \/ Tightly.solver gps = None ->
  (forall x shift,
     Tightly.CorrectInfoGenerator CLOCKS_SUPPORTED assemble x gps shift
     = CorrectInfo.no_info)
  /\ RealTime.correct2_tightly P_SIZE_WITHOUT_CLOCK_ERROR correct_primitive
       (Tightly.CorrectInfoGenerator CLOCKS_SUPPORTED assemble) st gps
     = Some ([], st).
Proof.
  intros Hne Hno.
  assert (Hgen : forall x shift,
            Tightly.CorrectInfoGenerator CLOCKS_SUPPORTED assemble x gps shift
            = CorrectInfo.no_info).
  { intros x shift.
    unfold Tightly.CorrectInfoGenerator, Tightly.correct_info.
    destruct Hno as [Hidx|Hsol].
    - apply Nat.leb_le in Hidx. rewrite Hidx. reflexivity.
    - rewrite Hsol.
      destruct (CLOCKS_SUPPORTED <=? Tightly.clock_index gps)%nat;
        reflexivity. }
  split; [exact Hgen|].
  unfold RealTime.correct2_tightly.
  destruct (RealTime.snapshots st) as [|front rest]; [contradiction|].
  rewrite Hgen. reflexivity.
Qed.

Lemma correct2_tightly_without_information_witness :
  (forall (x : Tightly.ins_t unit) shift,
     Tightly.CorrectInfoGenerator 1 (fun _ _ _ _ => Examples.clock_info) x
       Examples.gps_without_solver shift
     = CorrectInfo.no_info)
  /\ RealTime.correct2_tightly 0 Examples.cj_correct_primitive
       (Tightly.CorrectInfoGenerator 1 (fun _ _ _ _ => Examples.clock_info))
       Examples.example_rt_state Examples.gps_without_solver
     = Some ([], Examples.example_rt_state).
Proof.
  refine (correct2_tightly_without_information unit unit unit 1%nat 0%nat
            (fun _ _ _ _ => Examples.clock_info)
            Examples.cj_correct_primitive Examples.example_rt_state
            Examples.gps_without_solver _ _).
  - discriminate.
  - right. reflexivity.
Defined.

(** ** Tropospheric correction *)

(** The height factor lies between 0 and 1. *)
Lemma tropo_height_factor_range (h : Q) :
  0 <= SpaceNode.tropo_height_factor h <= 1.
Proof.
  unfold SpaceNode.tropo_height_factor. cbv zeta.
  destruct (Float.gtb h (1 / (23 # 1000000))) eqn:E1.
  - split; [apply Qle_refl | discriminate].
  - destruct (Float.gtb h 0) eqn:E2.
    + apply gtb_le in E1. apply gtb_lt in E2.
      assert (E : 1 / (23 # 1000000) == 1000000 # 23) by reflexivity.
      rewrite E in E1.
      assert (H23 : h * (23 # 1000000) <= 1).
      { assert (E3 : (1000000 # 23) * (23 # 1000000) == 1) by reflexivity.
        rewrite <- E3. apply Qmult_le_compat_r; [exact E1 | discriminate]. }
      assert (H0 : 0 <= h * (23 # 1000000)).
      { apply Qmult_le_0_compat; [apply Qlt_le_weak; exact E2|discriminate]. }
      split; lra.
    + split; [discriminate | apply Qle_refl].
Qed.

Lemma pow5_range (f : Q) : 0 <= f <= 1 -> 0 <= SpaceNode.pow5 f <= 1.
Proof.
  intros [H0 H1]. unfold SpaceNode.pow5.
  assert (H2 : 0 <= f * f <= 1) by (split; nra).
  assert (H3 : 0 <= f * f * f <= 1) by (split; nra).
  assert (H4 : 0 <= f * f * f * f <= 1) by (split; nra).
  split; nra.
Qed.

(** X30: For a satellite whose elevation has a sine above -0.0121, the
    tropospheric correction is never positive and never exceeds, in
    magnitude, the correction at the ellipsoid, [2.47 / (sin el + 0.0121)]
    m; it is that value at and below the ellipsoid, and zero above
    [1 / 2.3E-5] m (about 43.5 km). *)
Theorem tropo_correction_bounds (sin : Q -> Q) (el h : Q) :
  0 < sin el + (121 # 10000) ->
  - ((247 # 100) / (sin el + (121 # 10000)))
  <= SpaceNode.tropo_correction sin el h
  /\ SpaceNode.tropo_correction sin el h <= 0
  /\ (h <= 0 ->
      SpaceNode.tropo_correction sin el h
      == - ((247 # 100) / (sin el + (121 # 10000))))
  /\ (1 / (23 # 1000000) < h ->
      SpaceNode.tropo_correction sin el h == 0).
Proof.
  intro Hd. unfold SpaceNode.tropo_correction. cbv zeta.
  pose proof (pow5_range _ (tropo_height_factor_range h)) as [Hp0 Hp1].
  set (p := SpaceNode.pow5 (SpaceNode.tropo_height_factor h)) in *.
  set (d := sin el + (121 # 10000)) in *.
  assert (Hinv : 0 < / d) by (apply Qinv_lt_0_compat; exact Hd).
  assert (Hne : ~ d == 0) by (intro H0; rewrite H0 in Hd; discriminate Hd).
  assert (E1 : - (247 # 100) * p / d == - ((247 # 100) * / d) * p)
    by (field; exact Hne).
  assert (E2 : - ((247 # 100) / d) == - ((247 # 100) * / d))
    by (field; exact Hne).
  assert (Hc : 0 <= (247 # 100) * / d).
  { apply Qmult_le_0_compat; [discriminate | apply Qlt_le_weak; exact Hinv]. }
  set (c := (247 # 100) * / d) in *.
  split; [rewrite E1, E2; nra|].
  split; [rewrite E1; nra|].
  split.
  - intro Hh. rewrite E1, E2.
    assert (Hp : p == 1).
    { unfold p, SpaceNode.tropo_height_factor. cbv zeta.
      assert (G1 : Float.gtb h (1 / (23 # 1000000)) = false).
      { apply gtb_le. apply Qle_trans with 0; [exact Hh | discriminate]. }
      assert (G2 : Float.gtb h 0 = false) by (apply gtb_le; exact Hh).
      rewrite G1, G2. reflexivity. }
    rewrite Hp. ring.
  - intro Hh. rewrite E1.
    assert (Hp : p == 0).
    { unfold p, SpaceNode.tropo_height_factor. cbv zeta.
      apply gtb_lt in Hh. rewrite Hh. reflexivity. }
    rewrite Hp. ring.
Qed.

Lemma tropo_correction_bounds_witness :
  - ((247 # 100) / ((fun _ : Q => 1 # 2) 0 + (121 # 10000)))
  <= SpaceNode.tropo_correction (fun _ => 1 # 2) 0 1000
  /\ SpaceNode.tropo_correction (fun _ => 1 # 2) 0 1000 <= 0
  /\ (1000 <= 0 ->
      SpaceNode.tropo_correction (fun _ => 1 # 2) 0 1000
      == - ((247 # 100) / ((fun _ : Q => 1 # 2) 0 + (121 # 10000))))
  /\ (1 / (23 # 1000000) < 1000 ->
      SpaceNode.tropo_correction (fun _ => 1 # 2) 0 1000 == 0).
Proof.
  refine (tropo_correction_bounds (fun _ => 1 # 2) 0 1000 _).
  vm_compute. reflexivity.
Defined.
